(** * c-behavior-tree: the tick engine of [src/src/bt.c] and its specification

    The development embeds the behaviour-tree core ([bt.h], [bt.c]) in Rocq
    and proves the properties its specification states about it.

    The C program works on a pointer graph of [bt_node_t] structures that
    live in caller-owned storage.  The embedding keeps that shape: a heap
    maps addresses to node records, a node pointer is an optional address
    ([BT_NULL] is [None]), and every [node->field] access is a heap read or
    write at the node's address.  Function pointers are code addresses; what
    the code behind them does is a parameter of the development, and may
    read and write the whole store.

    - The engine is written in a state monad over the machine (store, user
      state, log), with an outcome for behaviour C leaves undefined.
    - The log is an observation device: the engine appends an event at
      every callback, hook and child tick, and never reads the log.
    - [bt_tick_internal] recurses along child pointers; the embedding bounds
      the depth by [fuel], and the theorems show that fuel above the rank of
      the ticked node suffices on a store whose child pointers form a tree
      or a dag ([tree_ok]).
    - The results about ticking assume callbacks that return the store as
      they found it ([callbacks_keep_nodes]).
    - The macros of [bt.h] and the two programs of [examples/] are embedded
      as well: their callbacks, the object their blackboards point to, what
      they print, and [main] (modules [SimpleRobot] and [StateMachine]). *)

From Stdlib Require Import NArith List Lia.
From stdpp Require Import base option list strings gmap.
Import ListNotations.

(** ** Data model ([bt.h]) *)

(** [bt_status_t]: the four enumerators of the C enum.  Handlers and
    callbacks are taken to return one of them. *)
Inductive bt_status_t : Type :=
| BT_SUCCESS
| BT_FAILURE
| BT_RUNNING
| BT_ERROR.

(** [bt_node_type_t]: the five enumerators, and [BT_TYPE_OTHER tag] for any
    other value of the tag, which the dispatcher's [default:] case handles. *)
Inductive bt_node_type_t : Type :=
| BT_ACTION
| BT_CONDITION
| BT_SEQUENCE
| BT_SELECTOR
| BT_INVERTER
| BT_TYPE_OTHER (tag : N).

#[global] Instance bt_status_eq_dec : EqDecision bt_status_t.
Proof. solve_decision. Defined.

#[global] Instance bt_node_type_eq_dec : EqDecision bt_node_type_t.
Proof. solve_decision. Defined.

(** Addresses of nodes, node pointers, function pointers, [void*]. *)
Definition addr : Type := nat.
Definition ptr : Type := option addr.
Definition fn_ptr : Type := nat.
Definition void_ptr : Type := option N.

(** [uint16_t] values are naturals below [2^16]; [u16] is the cast. *)
Definition UINT16_MOD : N := 65536.
Definition u16 (x : N) : N := (x mod UINT16_MOD)%N.
Definition UINT16_ZERO : N := 0.
Definition UINT16_ONE : N := 1.

(** [struct bt_node_s].  [children] is the pointer to the caller's array of
    child pointers: [None] when the pointer is [BT_NULL], otherwise the
    array's cells. *)
Record bt_node_t : Type := mk_node {
  type : bt_node_type_t;
  status : bt_status_t;
  tick : option fn_ptr;
  children : option (list ptr);
  children_count : N;
  current_child : N;
  on_enter : option fn_ptr;
  on_exit : option fn_ptr;
  time_anchor_ms : N;
  user_data : void_ptr;
  blackboard : void_ptr
}.

(** The two fields the engine assigns while ticking. *)
Definition set_status (n : bt_node_t) (s : bt_status_t) : bt_node_t :=
  mk_node (type n) s (tick n) (children n) (children_count n)
          (current_child n) (on_enter n) (on_exit n) (time_anchor_ms n)
          (user_data n) (blackboard n).

Definition set_current_child (n : bt_node_t) (c : N) : bt_node_t :=
  mk_node (type n) (status n) (tick n) (children n) (children_count n)
          c (on_enter n) (on_exit n) (time_anchor_ms n)
          (user_data n) (blackboard n).

(** Fields the caller wires after [bt_init] (plain assignments in C). *)
Definition set_on_enter (n : bt_node_t) (f : option fn_ptr) : bt_node_t :=
  mk_node (type n) (status n) (tick n) (children n) (children_count n)
          (current_child n) f (on_exit n) (time_anchor_ms n)
          (user_data n) (blackboard n).

Definition set_on_exit (n : bt_node_t) (f : option fn_ptr) : bt_node_t :=
  mk_node (type n) (status n) (tick n) (children n) (children_count n)
          (current_child n) (on_enter n) f (time_anchor_ms n)
          (user_data n) (blackboard n).

Definition set_blackboard (n : bt_node_t) (b : void_ptr) : bt_node_t :=
  mk_node (type n) (status n) (tick n) (children n) (children_count n)
          (current_child n) (on_enter n) (on_exit n) (time_anchor_ms n)
          (user_data n) b.

(** Observations.  The log records every call that leaves the engine (leaf
    callbacks, hooks) and every tick a parent issues to a child slot.  The
    engine appends to it and never reads it. *)
Inductive event : Type :=
| EvEnter (a : addr)
| EvExit (a : addr) (s : bt_status_t)
| EvLeaf (a : addr) (r : bt_status_t)
| EvChild (a : addr) (i : N)
| EvRet (a : addr) (i : N) (cs : bt_status_t).

#[global] Instance event_eq_dec : EqDecision event.
Proof. solve_decision. Defined.

(** The node that issued an event. *)
Definition ev_node (e : event) : addr :=
  match e with
  | EvEnter a | EvExit a _ | EvLeaf a _ | EvChild a _ | EvRet a _ _ => a
  end.

Section Store.

(** The user's state outside the nodes: what the blackboard and the
    [user_data] pointers lead to. *)
Context {W : Type}.

Record machine : Type := mk_machine {
  heap : gmap addr bt_node_t;
  world : W;
  trace : list event
}.

(** Outcome of running a piece of the program: a value and the machine it
    leaves, behaviour C leaves undefined (reading through a pointer to no
    node, or past the end of the children array), or recursion cut off. *)
Inductive outcome (A : Type) : Type :=
| Done (x : A) (m : machine)
| Undefined
| OutOfFuel.

Definition M (A : Type) : Type := machine -> outcome A.

Definition ret {A} (x : A) : M A := fun m => Done A x m.

Definition bind {A B} (c : M A) (k : A -> M B) : M B :=
  fun m => match c m with
           | Done _ x m' => k x m'
           | Undefined _ => Undefined B
           | OutOfFuel _ => OutOfFuel B
           end.

End Store.

Arguments machine : clear implicits.
Arguments outcome : clear implicits.
Arguments M : clear implicits.
Arguments Done {W A} x m.
Arguments Undefined {W A}.
Arguments OutOfFuel {W A}.

Notation "'do' x <- c ; k" := (bind c (fun x => k))
  (at level 10, x name, c at level 100, k at level 200).
Notation "c ;; k" := (bind c (fun _ => k))
  (at level 100, k at level 200, right associativity).

Section Engine.

(** The code behind function pointers.  A callback receives the node
    pointer, so it sees the whole node store and may, as far as C is
    concerned, write to it. *)
Context {W : Type}.
Variable tick_code :
  fn_ptr -> addr -> gmap addr bt_node_t * W -> bt_status_t * (gmap addr bt_node_t * W).
Variable hook_code :
  fn_ptr -> addr -> gmap addr bt_node_t * W -> gmap addr bt_node_t * W.

(** [*node] as an rvalue, and assignments to the two mutable fields. *)
Definition load (a : addr) : M W bt_node_t :=
  fun m => match heap m !! a with
           | Some n => Done n m
           | None => Undefined
           end.

Definition store (a : addr) (n : bt_node_t) : M W unit :=
  fun m => Done tt (mk_machine (<[a := n]> (heap m)) (world m) (trace m)).

Definition write_status (a : addr) (s : bt_status_t) : M W unit :=
  do n <- load a; store a (set_status n s).

Definition write_current_child (a : addr) (c : N) : M W unit :=
  do n <- load a; store a (set_current_child n c).

Definition log (e : event) : M W unit :=
  fun m => Done tt (mk_machine (heap m) (world m) (trace m ++ [e])).

(** Calls through function pointers. *)
Definition call_hook (f : fn_ptr) (a : addr) : M W unit :=
  fun m => let '(h', w') := hook_code f a (heap m, world m) in
           Done tt (mk_machine h' w' (trace m)).

Definition call_tick (f : fn_ptr) (a : addr) : M W bt_status_t :=
  fun m => let '(r, (h', w')) := tick_code f a (heap m, world m) in
           Done r (mk_machine h' w' (trace m ++ [EvLeaf a r])).

(** ** Internal helpers ([bt.c], lines 23 to 63) *)

(** [bt_call_enter], [bt_call_exit]: call the hook if the node and the hook
    are there. *)
Definition bt_call_enter (node : ptr) : M W unit :=
  match node with
  | None => ret tt
  | Some a =>
      do n <- load a;
      match on_enter n with
      | None => ret tt
      | Some f => log (EvEnter a) ;; call_hook f a
      end
  end.

Definition bt_call_exit (node : ptr) : M W unit :=
  match node with
  | None => ret tt
  | Some a =>
      do n <- load a;
      match on_exit n with
      | None => ret tt
      | Some f => log (EvExit a (status n)) ;; call_hook f a
      end
  end.

(** [children[index]] of a node record; [None] when the read is outside the
    array the caller provided.  [bt_child_at] guards the read by the array
    pointer and by [index < children_count]. *)
Definition read_slot (arr : list ptr) (index : N) : option ptr :=
  arr !! N.to_nat index.

Definition bt_child_at (node : ptr) (index : N) : M W ptr :=
  match node with
  | None => ret None
  | Some a =>
      do n <- load a;
      match children n with
      | None => ret None
      | Some arr =>
          if (index <? children_count n)%N
          then match read_slot arr index with
               | Some child => ret child
               | None => fun _ => Undefined
               end
          else ret None
      end
  end.

(** ** Public API: [bt_init] ([bt.c], lines 78 to 95)

    The node's storage is the caller's; the cell at the node's address is
    written whole. *)

Definition bt_init (node : ptr) (ty : bt_node_type_t) (tick_fn : option fn_ptr)
    (chs : option (list ptr)) (count : N) (udata : void_ptr) : M W unit :=
  match node with
  | Some a =>
      store a (mk_node ty BT_FAILURE tick_fn
                 (if (UINT16_ZERO <? count)%N then chs else None)
                 count UINT16_ZERO None None 0%N udata None)
  | None => ret tt
  end.

(** ** Leaf handler ([bt_tick_leaf], lines 105 to 122) *)

Definition bt_tick_leaf (node : ptr) : M W bt_status_t :=
  match node with
  | None => ret BT_ERROR
  | Some a =>
      do n <- load a;
      match tick n with
      | None => write_status a BT_ERROR ;; ret BT_ERROR
      | Some f =>
          do result <- call_tick f a;
          write_status a result ;; ret result
      end
  end.

(** [(result == BT_SUCCESS) || (result == BT_FAILURE) || (result == BT_ERROR)] *)
Definition is_terminal (s : bt_status_t) : bool :=
  match s with
  | BT_SUCCESS | BT_FAILURE | BT_ERROR => true
  | BT_RUNNING => false
  end.

Definition is_running (s : bt_status_t) : bool :=
  match s with
  | BT_RUNNING => true
  | _ => false
  end.

(** ** Composite and decorator handlers ([bt.c], lines 134 to 318)

    [bt.c] declares [bt_tick_internal] ahead of the handlers that call it;
    here the handlers take it as [tick_child]. *)
Section Handlers.

Variable tick_child : ptr -> M W bt_status_t.

(** How one pass through a loop body ends: at [break], or at the closing
    brace; either way with the current value of the local [result]. *)
Inductive loop_exit : Type :=
| Break (result : bt_status_t)
| Next (result : bt_status_t).

(** [for (i = ...; i < node->children_count; i++) body].  The loop test
    reads the count from the node each time round.  [k] bounds the number of
    iterations; [i] is a [uint16_t] below the count inside the body, so it
    grows by one each time and [UINT16_MOD] iterations are never used up. *)
Fixpoint for_children (body : N -> bt_status_t -> M W loop_exit) (a : addr)
    (k : nat) (i : N) (result : bt_status_t) : M W bt_status_t :=
  do n <- load a;
  if (i <? children_count n)%N then
    match k with
    | O => fun _ => OutOfFuel
    | S k' =>
        do e <- body i result;
        match e with
        | Break result' => ret result'
        | Next result' => for_children body a k' (u16 (i + 1)) result'
        end
    end
  else ret result.

Definition loop_budget : nat := N.to_nat UINT16_MOD.

(** The body of the loop of [bt_tick_sequence] (lines 149 to 179). *)
Definition sequence_body (a : addr) (i : N) (result : bt_status_t) : M W loop_exit :=
  do child <- bt_child_at (Some a) i;
  match child with
  | None => write_status a BT_ERROR ;; ret (Break BT_ERROR)
  | Some c =>
      log (EvChild a i) ;;
      do cs <- tick_child (Some c);
      log (EvRet a i cs) ;;
      match cs with
      | BT_RUNNING =>
          write_current_child a i ;;
          write_status a BT_RUNNING ;;
          ret (Break BT_RUNNING)
      | BT_FAILURE =>
          write_current_child a i ;;
          write_status a BT_FAILURE ;;
          ret (Break BT_FAILURE)
      | BT_ERROR =>
          write_current_child a i ;;
          write_status a BT_ERROR ;;
          ret (Break BT_ERROR)
      | BT_SUCCESS =>
          write_current_child a (u16 (i + UINT16_ONE)) ;;
          ret (Next result)
      end
  end.

Definition bt_tick_sequence (node : ptr) : M W bt_status_t :=
  match node with
  | None => ret BT_ERROR
  | Some a =>
      do n <- load a;
      (if is_running (status n) then ret tt
       else write_current_child a UINT16_ZERO ;; bt_call_enter node) ;;
      do n <- load a;
      do result <- for_children (sequence_body a) a loop_budget
                     (current_child n) BT_SUCCESS;
      do n <- load a;
      do result <-
        (if negb (is_running result) && (children_count n <=? current_child n)%N
         then write_status a BT_SUCCESS ;; ret BT_SUCCESS
         else ret result);
      (if is_terminal result then bt_call_exit node else ret tt) ;;
      ret result
  end.

(** The body of the loop of [bt_tick_selector] (lines 224 to 254). *)
Definition selector_body (a : addr) (i : N) (result : bt_status_t) : M W loop_exit :=
  do child <- bt_child_at (Some a) i;
  match child with
  | None => write_status a BT_ERROR ;; ret (Break BT_ERROR)
  | Some c =>
      log (EvChild a i) ;;
      do cs <- tick_child (Some c);
      log (EvRet a i cs) ;;
      match cs with
      | BT_RUNNING =>
          write_current_child a i ;;
          write_status a BT_RUNNING ;;
          ret (Break BT_RUNNING)
      | BT_SUCCESS =>
          write_current_child a i ;;
          write_status a BT_SUCCESS ;;
          ret (Break BT_SUCCESS)
      | BT_ERROR =>
          write_current_child a i ;;
          write_status a BT_ERROR ;;
          ret (Break BT_ERROR)
      | BT_FAILURE =>
          write_current_child a (u16 (i + UINT16_ONE)) ;;
          ret (Next result)
      end
  end.

Definition bt_tick_selector (node : ptr) : M W bt_status_t :=
  match node with
  | None => ret BT_ERROR
  | Some a =>
      do n <- load a;
      (if is_running (status n) then ret tt
       else write_current_child a UINT16_ZERO ;; bt_call_enter node) ;;
      do n <- load a;
      do result <- for_children (selector_body a) a loop_budget
                     (current_child n) BT_FAILURE;
      do n <- load a;
      do result <-
        (if negb (is_running result) && (children_count n <=? current_child n)%N
         then write_status a BT_FAILURE ;; ret BT_FAILURE
         else ret result);
      (if is_terminal result then bt_call_exit node else ret tt) ;;
      ret result
  end.

Definition bt_tick_inverter (node : ptr) : M W bt_status_t :=
  match node with
  | None => ret BT_ERROR
  | Some a =>
      do n <- load a;
      if negb (children_count n =? UINT16_ONE)%N then ret BT_ERROR
      else
        do child <- bt_child_at node UINT16_ZERO;
        (if is_running (status n) then ret tt else bt_call_enter node) ;;
        match child with
        | None => ret BT_ERROR
        | Some c =>
            log (EvChild a 0) ;;
            do cs <- tick_child (Some c);
            log (EvRet a 0 cs) ;;
            let result :=
              match cs with
              | BT_SUCCESS => BT_FAILURE
              | BT_FAILURE => BT_SUCCESS
              | _ => cs
              end in
            write_status a result ;;
            (if is_terminal result then bt_call_exit node else ret tt) ;;
            ret result
        end
  end.

(** The body of [bt_tick_internal]: the switch on [node->type]. *)
Definition bt_tick_internal_body (node : ptr) : M W bt_status_t :=
  match node with
  | None => ret BT_ERROR
  | Some a =>
      do n <- load a;
      match type n with
      | BT_ACTION | BT_CONDITION => bt_tick_leaf node
      | BT_SEQUENCE => bt_tick_sequence node
      | BT_SELECTOR => bt_tick_selector node
      | BT_INVERTER => bt_tick_inverter node
      | BT_TYPE_OTHER _ => write_status a BT_ERROR ;; ret BT_ERROR
      end
  end.

End Handlers.

(** ** Dispatcher and public [bt_tick] ([bt.c], lines 321 to 371)

    The recursion of [bt_tick_internal] through the handlers follows the
    pointer graph, which C does not force to be a tree; [fuel] bounds its
    depth. *)
Fixpoint bt_tick_internal (fuel : nat) (node : ptr) : M W bt_status_t :=
  match fuel with
  | O => fun _ => OutOfFuel
  | S fuel' => bt_tick_internal_body (bt_tick_internal fuel') node
  end.

Definition bt_tick (fuel : nat) (root : ptr) : M W bt_status_t :=
  match root with
  | Some _ => bt_tick_internal fuel root
  | None => ret BT_ERROR
  end.

End Engine.

(** ** Static structure of a node store *)

(** The child pointer a node holds in slot [i]: [BT_NULL] when the array
    pointer is null, when [i] is not below [children_count], or when the
    cell holds [BT_NULL]. *)
Definition child_ref (n : bt_node_t) (i : N) : ptr :=
  match children n with
  | None => None
  | Some arr =>
      if (i <? children_count n)%N
      then match read_slot arr i with
           | Some child => child
           | None => None
           end
      else None
  end.

(** A node with its two mutable fields blanked: what ticking must keep. *)
Definition static (n : bt_node_t) : bt_node_t :=
  set_current_child (set_status n BT_SUCCESS) 0.

Definition same_fields (n n' : bt_node_t) : Prop :=
  type n' = type n /\ tick n' = tick n /\ children n' = children n /\
  children_count n' = children_count n /\ on_enter n' = on_enter n /\
  on_exit n' = on_exit n /\ time_anchor_ms n' = time_anchor_ms n /\
  user_data n' = user_data n /\ blackboard n' = blackboard n.

(** Two stores with the same cells, equal up to [status] and
    [current_child]. *)
Definition heap_frame (h h' : gmap addr bt_node_t) : Prop :=
  forall b, static <$> (h' !! b) = static <$> (h !! b).

(** A node as the header documents it: the count is a [uint16_t], and the
    children array, when there is one, has [children_count] cells. *)
Definition node_ok (n : bt_node_t) : Prop :=
  (children_count n < UINT16_MOD)%N /\
  forall arr, children n = Some arr -> N.to_nat (children_count n) <= length arr.

(** A store whose child pointers lead to nodes of the store and never back:
    [rk] decreases along every child pointer. *)
Definition tree_ok (rk : addr -> nat) (h : gmap addr bt_node_t) : Prop :=
  forall a n, h !! a = Some n ->
    node_ok n /\
    forall i c, child_ref n i = Some c -> rk c < rk a /\ is_Some (h !! c).

(** [descendant h a b]: [b] is [a] or is reached from [a] through child
    slots. *)
Inductive descendant (h : gmap addr bt_node_t) : addr -> addr -> Prop :=
| desc_self a : descendant h a a
| desc_child a n i c b :
    h !! a = Some n -> child_ref n i = Some c ->
    descendant h c b -> descendant h a b.

Definition cursors_ok (h : gmap addr bt_node_t) : Prop :=
  forall b n, h !! b = Some n -> (current_child n <= children_count n)%N.

(** The callbacks leave the nodes alone. *)
Definition callbacks_keep_nodes {W : Type}
    (tick_code : fn_ptr -> addr -> gmap addr bt_node_t * W ->
                 bt_status_t * (gmap addr bt_node_t * W))
    (hook_code : fn_ptr -> addr -> gmap addr bt_node_t * W ->
                 gmap addr bt_node_t * W) : Prop :=
  (forall f a h w, fst (snd (tick_code f a (h, w))) = h) /\
  (forall f a h w, fst (hook_code f a (h, w)) = h).

(** ** The handlers as the specification words them (sections 4.3 to 4.5) *)

Section SpecModel.

Context {W : Type}.
Variable hook_code :
  fn_ptr -> addr -> gmap addr bt_node_t * W -> gmap addr bt_node_t * W.
Variable tick_child : ptr -> M W bt_status_t.

(** "set [cursor = i], [status = st], stop and return [st]"; a terminal
    [st] fires [on_exit]. *)
Definition spec_stop (a : addr) (i : N) (st : bt_status_t) : M W bt_status_t :=
  write_current_child a i ;;
  write_status a st ;;
  (if is_terminal st then bt_call_exit hook_code (Some a) else ret tt) ;;
  ret st.

(** "the loop exhausts all children": [status = st], return [st], fire
    [on_exit]. *)
Definition spec_exhausted (a : addr) (st : bt_status_t) : M W bt_status_t :=
  write_status a st ;;
  bt_call_exit hook_code (Some a) ;;
  ret st.

(** "if [status != Running] on entry, this is a fresh episode: reset
    [cursor = 0], fire [on_enter]". *)
Definition spec_entry (a : addr) : M W unit :=
  do n <- load a;
  if decide (status n = BT_RUNNING) then ret tt
  else write_current_child a 0 ;; bt_call_enter hook_code (Some a).

(** Section 4.3, step 2: [todo] children remain, the next one is [i]. *)
Fixpoint spec_sequence_from (a : addr) (n : bt_node_t) (todo : nat) (i : N)
    : M W bt_status_t :=
  match todo with
  | O => spec_exhausted a BT_SUCCESS
  | S todo' =>
      match child_ref n i with
      | None => spec_stop a i BT_ERROR
      | Some c =>
          log (EvChild a i) ;;
          do cs <- tick_child (Some c);
          log (EvRet a i cs) ;;
          match cs with
          | BT_RUNNING => spec_stop a i BT_RUNNING
          | BT_FAILURE => spec_stop a i BT_FAILURE
          | BT_ERROR => spec_stop a i BT_ERROR
          | BT_SUCCESS =>
              write_current_child a (i + 1) ;;
              spec_sequence_from a n todo' (i + 1)
          end
      end
  end.

Definition spec_sequence (a : addr) : M W bt_status_t :=
  spec_entry a ;;
  do n <- load a;
  spec_sequence_from a n
    (N.to_nat (children_count n - current_child n)) (current_child n).

(** Section 4.4: the same with the roles of Success and Failure swapped. *)
Fixpoint spec_selector_from (a : addr) (n : bt_node_t) (todo : nat) (i : N)
    : M W bt_status_t :=
  match todo with
  | O => spec_exhausted a BT_FAILURE
  | S todo' =>
      match child_ref n i with
      | None => spec_stop a i BT_ERROR
      | Some c =>
          log (EvChild a i) ;;
          do cs <- tick_child (Some c);
          log (EvRet a i cs) ;;
          match cs with
          | BT_RUNNING => spec_stop a i BT_RUNNING
          | BT_SUCCESS => spec_stop a i BT_SUCCESS
          | BT_ERROR => spec_stop a i BT_ERROR
          | BT_FAILURE =>
              write_current_child a (i + 1) ;;
              spec_selector_from a n todo' (i + 1)
          end
      end
  end.

Definition spec_selector (a : addr) : M W bt_status_t :=
  spec_entry a ;;
  do n <- load a;
  spec_selector_from a n
    (N.to_nat (children_count n - current_child n)) (current_child n).

(** Both composites at once: [adv] is the child result that moves the
    cursor on, and the result of an exhausted scan. *)
Fixpoint spec_scan (adv : bt_status_t) (a : addr) (n : bt_node_t)
    (todo : nat) (i : N) : M W bt_status_t :=
  match todo with
  | O => spec_exhausted a adv
  | S todo' =>
      match child_ref n i with
      | None => spec_stop a i BT_ERROR
      | Some c =>
          log (EvChild a i) ;;
          do cs <- tick_child (Some c);
          log (EvRet a i cs) ;;
          if decide (cs = adv)
          then write_current_child a (i + 1) ;; spec_scan adv a n todo' (i + 1)
          else spec_stop a i cs
      end
  end.

Definition spec_composite (adv : bt_status_t) (a : addr) : M W bt_status_t :=
  spec_entry a ;;
  do n <- load a;
  spec_scan adv a n
    (N.to_nat (children_count n - current_child n)) (current_child n).

End SpecModel.

(** Section 4.5: the Inverter's mapping of its child's result. *)
Definition invert (cs : bt_status_t) : bt_status_t :=
  match cs with
  | BT_SUCCESS => BT_FAILURE
  | BT_FAILURE => BT_SUCCESS
  | BT_RUNNING => BT_RUNNING
  | BT_ERROR => BT_ERROR
  end.

(** "exactly one child reference": a count of one and a slot that leads to
    a node. *)
Definition has_one_child (n : bt_node_t) : Prop :=
  children_count n = UINT16_ONE /\ exists c, child_ref n 0 = Some c.

(** ** Shape of the observations of one tick *)

(** Events of nodes strictly below rank [r]. *)
Definition below (rk : addr -> nat) (r : nat) (d : list event) : Prop :=
  Forall (fun e => rk (ev_node e) < r) d.

(** What a composite [a] with node record [n] logs while it scans from slot
    [i], the result it returns and the cursor it is left with.  Between
    [EvChild a i] and [EvRet a i cs] lie the events of the child's own
    tick. *)
Inductive scan_trace (rk : addr -> nat) (adv : bt_status_t) (a : addr)
    (n : bt_node_t) : N -> list event -> bt_status_t -> N -> Prop :=
| scan_exhausted i :
    (children_count n <= i)%N ->
    scan_trace rk adv a n i [] adv i
| scan_missing i :
    (i < children_count n)%N -> child_ref n i = None ->
    scan_trace rk adv a n i [] BT_ERROR i
| scan_stop i c dc cs :
    (i < children_count n)%N -> child_ref n i = Some c ->
    cs <> adv -> below rk (rk a) dc ->
    scan_trace rk adv a n i (EvChild a i :: dc ++ [EvRet a i cs]) cs i
| scan_advance i c dc l r cur :
    (i < children_count n)%N -> child_ref n i = Some c ->
    below rk (rk a) dc ->
    scan_trace rk adv a n (i + 1) l r cur ->
    scan_trace rk adv a n i (EvChild a i :: dc ++ EvRet a i adv :: l) r cur.

(** The hook events a tick of [n] at [a] may log. *)
Definition enter_events (a : addr) (n : bt_node_t) (fresh : bool) : list event :=
  if fresh then match on_enter n with Some _ => [EvEnter a] | None => [] end
  else [].

Definition exit_events (a : addr) (n : bt_node_t) (r : bt_status_t) : list event :=
  if is_terminal r then match on_exit n with Some _ => [EvExit a r] | None => [] end
  else [].

(** The hook events of node [a] in a log. *)
Definition is_hook_of (a : addr) (e : event) : bool :=
  match e with
  | EvEnter b | EvExit b _ => bool_decide (b = a)
  | _ => false
  end.

Definition hooks_of (a : addr) (d : list event) : list event :=
  List.filter (is_hook_of a) d.

(** The node [bt_init] writes. *)
Definition init_node (ty : bt_node_type_t) (tick_fn : option fn_ptr)
    (chs : option (list ptr)) (count : N) (udata : void_ptr) : bt_node_t :=
  mk_node ty BT_FAILURE tick_fn
    (if (UINT16_ZERO <? count)%N then chs else None)
    count UINT16_ZERO None None 0%N udata None.

(** What the caller may assign after [bt_init]. *)
Definition wired (n : bt_node_t) (enter exit_ : option fn_ptr) (bb : void_ptr)
    : bt_node_t :=
  set_blackboard (set_on_exit (set_on_enter n enter) exit_) bb.

(** ** What one tick of a node guarantees to whoever issued it *)

Section Contracts.

Context {W : Type}.
Variable rk : addr -> nat.

(** The tick of node [p] keeps every cell up to [status] and
    [current_child], touches only descendants of [p], keeps cursors within
    their counts, and logs only events of nodes ranked no higher than [p]. *)
Definition frame_post (p : addr) (m m' : machine W) : Prop :=
  heap_frame (heap m) (heap m') /\
  (forall b, ~ descendant (heap m) p b -> heap m' !! b = heap m !! b) /\
  (cursors_ok (heap m) -> cursors_ok (heap m')) /\
  exists d, trace m' = trace m ++ d /\ below rk (S (rk p)) d.

(** [tick_child] returns on every node ranked below [bound] of a
    well-formed store, with [frame_post]. *)
Definition rec_ok (tick_child : ptr -> M W bt_status_t) (bound : nat) : Prop :=
  forall c m, tree_ok rk (heap m) -> is_Some (heap m !! c) -> rk c < bound ->
    exists r m', tick_child (Some c) m = Done r m' /\ frame_post c m m'.

(** What a scan of composite [a] from slot [i] leaves behind. *)
Definition scan_post (adv : bt_status_t) (a : addr) (n : bt_node_t) (i : N)
    (m : machine W) (r : bt_status_t) (m' : machine W) : Prop :=
  exists l c n',
    scan_trace rk adv a n i l r c /\
    trace m' = trace m ++ l ++ exit_events a n r /\
    heap m' !! a = Some n' /\ static n' = static n /\
    status n' = r /\ current_child n' = c /\
    heap_frame (heap m) (heap m') /\
    (forall b, ~ descendant (heap m) a b -> heap m' !! b = heap m !! b) /\
    (cursors_ok (heap m) -> cursors_ok (heap m')).

(** What one tick of composite [a], whose cell held [n], leaves behind. *)
Definition composite_post (adv : bt_status_t) (a : addr) (n : bt_node_t)
    (m : machine W) (r : bt_status_t) (m' : machine W) : Prop :=
  exists l c n',
    scan_trace rk adv a n
      (if is_running (status n) then current_child n else 0%N) l r c /\
    trace m' = trace m ++ enter_events a n (negb (is_running (status n)))
                 ++ l ++ exit_events a n r /\
    heap m' !! a = Some n' /\ static n' = static n /\
    status n' = r /\ current_child n' = c /\
    frame_post a m m'.

(** What one tick of an Inverter [a] with child [c] leaves behind; [cs] is
    what [tick_child] returned for [c], run after the entry step. *)
Definition inverter_post (tick_child : ptr -> M W bt_status_t) (a c : addr)
    (n : bt_node_t) (m : machine W) (r : bt_status_t) (m' : machine W) : Prop :=
  exists cs dc n',
    r = invert cs /\ below rk (rk a) dc /\
    (exists w m2,
       tick_child (Some c)
         (mk_machine (heap m) w
            (trace m ++ enter_events a n (negb (is_running (status n)))
               ++ [EvChild a 0]))
       = Done cs m2) /\
    trace m' = trace m ++ enter_events a n (negb (is_running (status n)))
                 ++ EvChild a 0 :: dc ++ EvRet a 0 cs :: exit_events a n r /\
    heap m' !! a = Some n' /\ static n' = static n /\
    status n' = r /\ current_child n' = current_child n /\
    frame_post a m m'.

End Contracts.

(** ** Episodes and the hook law (sections 4.6 and 8) *)

Section Episodes.

Context {W : Type}.
Variable tick_code :
  fn_ptr -> addr -> gmap addr bt_node_t * W -> bt_status_t * (gmap addr bt_node_t * W).
Variable hook_code :
  fn_ptr -> addr -> gmap addr bt_node_t * W -> gmap addr bt_node_t * W.

(** Consecutive ticks of node [a] and the results they return. *)
Inductive ticks_of (fuel : nat) (a : addr)
    : machine W -> list bt_status_t -> machine W -> Prop :=
| ticks_nil m : ticks_of fuel a m [] m
| ticks_cons m r m1 rs m2 :
    bt_tick tick_code hook_code fuel (Some a) m = Done r m1 ->
    ticks_of fuel a m1 rs m2 ->
    ticks_of fuel a m (r :: rs) m2.

Definition hooks_installed (n : bt_node_t) : Prop :=
  is_Some (on_enter n) /\ is_Some (on_exit n).

(** The hooks one tick fires, by the status [s0] the node had on entry and
    the result [r] of the tick. *)
Definition tick_hooks (a : addr) (s0 r : bt_status_t) : list event :=
  (if is_running s0 then [] else [EvEnter a]) ++
  (if is_terminal r then [EvExit a r] else []).

(** The hook law for node [a], for ticks and episodes that start in [m]:
    every tick fires [on_enter] exactly when it is a fresh entry and
    [on_exit] exactly when its result is terminal, the exit hook seeing the
    final status; and an episode of [k] Running ticks closed by a terminal
    result [t] fires each hook once. *)
Definition hook_law (fuel : nat) (a : addr) (m : machine W) : Prop :=
  (forall n r m' d,
     heap m !! a = Some n -> hooks_installed n ->
     bt_tick tick_code hook_code fuel (Some a) m = Done r m' ->
     trace m' = trace m ++ d ->
     hooks_of a d = tick_hooks a (status n) r) /\
  (forall n k t m' d,
     heap m !! a = Some n -> hooks_installed n -> status n <> BT_RUNNING ->
     ticks_of fuel a m (repeat BT_RUNNING k ++ [t]) m' ->
     is_terminal t = true ->
     trace m' = trace m ++ d ->
     hooks_of a d = [EvEnter a; EvExit a t]).

End Episodes.

(** The nodes the hook law is about. *)
Definition hooked_kind (n : bt_node_t) : Prop :=
  type n = BT_SEQUENCE \/ type n = BT_SELECTOR \/ type n = BT_INVERTER.

(** A Sequence, a Selector, or an Inverter that has its one child. *)
Definition hooked_valid (n : bt_node_t) : Prop :=
  type n = BT_SEQUENCE \/ type n = BT_SELECTOR \/
  (type n = BT_INVERTER /\ has_one_child n).

(** The nodes whose handler reaches its entry step: a Sequence, a
    Selector, or an Inverter whose count is one. *)
Definition has_entry_step (n : bt_node_t) : Prop :=
  type n = BT_SEQUENCE \/ type n = BT_SELECTOR \/
  (type n = BT_INVERTER /\ children_count n = UINT16_ONE).

(** "an initial non-terminal sentinel value": none of the four statuses. *)
Definition status_is_sentinel (s : bt_status_t) : Prop :=
  s <> BT_SUCCESS /\ s <> BT_FAILURE /\ s <> BT_ERROR /\ s <> BT_RUNNING.

(** ** A checker for [tree_ok] on a given store *)

Definition node_okb (n : bt_node_t) : bool :=
  (children_count n <? UINT16_MOD)%N &&
  match children n with
  | Some arr => N.to_nat (children_count n) <=? length arr
  | None => true
  end.

Definition slot_okb (rk : addr -> nat) (h : gmap addr bt_node_t) (a : addr)
    (p : ptr) : bool :=
  match p with
  | None => true
  | Some c => (rk c <? rk a) && bool_decide (is_Some (h !! c))
  end.

Definition slots_okb (rk : addr -> nat) (h : gmap addr bt_node_t) (a : addr)
    (n : bt_node_t) : bool :=
  match children n with
  | Some arr => forallb (slot_okb rk h a) (firstn (N.to_nat (children_count n)) arr)
  | None => true
  end.

Definition tree_okb (rk : addr -> nat) (h : gmap addr bt_node_t) : bool :=
  forallb (fun an => node_okb (snd an) && slots_okb rk h (fst an) (snd an))
          (map_to_list h).

Definition cursors_okb (h : gmap addr bt_node_t) : bool :=
  forallb (fun an => (current_child (snd an) <=? children_count (snd an))%N)
          (map_to_list h).

(** ** The macros of [bt.h] (lines 25 to 28 and 96 to 97) *)

Section Macros.

Context {W : Type}.

(** [BT_COUNT_OF(arr)]: the number of cells of a static array, cast to
    [uint16_t]. *)
Definition BT_COUNT_OF (arr : list ptr) : N := u16 (N.of_nat (length arr)).

(** [BT_INIT(nodePtr, typeVal, fn, arr, data)]. *)
Definition BT_INIT (node : ptr) (ty : bt_node_type_t) (fn : option fn_ptr)
    (arr : list ptr) (data : void_ptr) : M W unit :=
  bt_init node ty fn (Some arr) (BT_COUNT_OF arr) data.

End Macros.

(** ** Further observations on a log *)

(** The child results composite [a] received, in the order it received
    them: the pair [(i, cs)] for every [EvRet a i cs]. *)
Definition ret_of (a : addr) (e : event) : option (N * bt_status_t) :=
  match e with
  | EvRet b i cs => if bool_decide (b = a) then Some (i, cs) else None
  | _ => None
  end.

Definition rets_of (a : addr) (d : list event) : list (N * bt_status_t) :=
  omap (ret_of a) d.

(** The slots [i], [i + 1], ..., [j - 1]. *)
Definition slot_range (i j : N) : list N :=
  N.of_nat <$> seq (N.to_nat i) (N.to_nat j - N.to_nat i).

(** The slot at which a tick of a composite starts its scan. *)
Definition first_slot (n : bt_node_t) : N :=
  if is_running (status n) then current_child n else 0%N.

(** ** Trees whose leaves never report Running *)

(** No node of the store is in the middle of an episode. *)
Definition no_node_running (h : gmap addr bt_node_t) : Prop :=
  forall b n, h !! b = Some n -> status n <> BT_RUNNING.

Section Reactive.

Context {W : Type}.
Variable tick_code :
  fn_ptr -> addr -> gmap addr bt_node_t * W -> bt_status_t * (gmap addr bt_node_t * W).
Variable hook_code :
  fn_ptr -> addr -> gmap addr bt_node_t * W -> gmap addr bt_node_t * W.

(** What the callbacks return and do to the user state does not depend on
    the [status] and [current_child] fields of the store they are shown. *)
Definition callbacks_read_static : Prop :=
  (forall f a h h' w, heap_frame h h' ->
     fst (tick_code f a (h', w)) = fst (tick_code f a (h, w)) /\
     snd (snd (tick_code f a (h', w))) = snd (snd (tick_code f a (h, w)))) /\
  (forall f a h h' w, heap_frame h h' ->
     snd (hook_code f a (h', w)) = snd (hook_code f a (h, w))).

Definition callbacks_never_running : Prop :=
  forall f a h w, fst (tick_code f a (h, w)) <> BT_RUNNING.

(** The value of a tree in the store [h], as a function of the user state
    alone: a leaf is its callback; a Sequence is the first child result
    that is not Success, or Success; a Selector is the first child result
    that is not Failure, or Failure; an Inverter inverts.  A composite
    runs [on_enter] before and [on_exit] after its children.  [fuel]
    bounds the depth. *)
Variable h : gmap addr bt_node_t.

Definition hook_world (f : option fn_ptr) (a : addr) (w : W) : W :=
  match f with
  | Some g => snd (hook_code g a (h, w))
  | None => w
  end.

Fixpoint value_scan (value : addr -> W -> bt_status_t * W) (adv : bt_status_t)
    (n : bt_node_t) (todo : nat) (i : N) (w : W) : bt_status_t * W :=
  match todo with
  | O => (adv, w)
  | S todo' =>
      match child_ref n i with
      | None => (BT_ERROR, w)
      | Some c =>
          let cw := value c w in
          if decide (fst cw = adv)
          then value_scan value adv n todo' (i + 1) (snd cw)
          else cw
      end
  end.

Definition value_composite (value : addr -> W -> bt_status_t * W)
    (adv : bt_status_t) (a : addr) (n : bt_node_t) (w : W) : bt_status_t * W :=
  let rw := value_scan value adv n (N.to_nat (children_count n)) 0
              (hook_world (on_enter n) a w) in
  (fst rw, hook_world (on_exit n) a (snd rw)).

Fixpoint tree_value (fuel : nat) (a : addr) (w : W) : bt_status_t * W :=
  match fuel with
  | O => (BT_ERROR, w)
  | S fuel' =>
      match h !! a with
      | None => (BT_ERROR, w)
      | Some n =>
          match type n with
          | BT_ACTION | BT_CONDITION =>
              match tick n with
              | None => (BT_ERROR, w)
              | Some f =>
                  (fst (tick_code f a (h, w)), snd (snd (tick_code f a (h, w))))
              end
          | BT_SEQUENCE => value_composite (tree_value fuel') BT_SUCCESS a n w
          | BT_SELECTOR => value_composite (tree_value fuel') BT_FAILURE a n w
          | BT_INVERTER =>
              if (children_count n =? UINT16_ONE)%N then
                match child_ref n 0 with
                | None => (BT_ERROR, hook_world (on_enter n) a w)
                | Some c =>
                    let cw := tree_value fuel' c (hook_world (on_enter n) a w) in
                    (invert (fst cw), hook_world (on_exit n) a (snd cw))
                end
              else (BT_ERROR, w)
          | BT_TYPE_OTHER _ => (BT_ERROR, w)
          end
      end
  end.

(** What a tick of [c] that computes the value of [c] leaves behind, and
    a [tick_child] that does so on every node ranked below [bound]. *)
Definition value_post (fuel : nat) (c : addr) (m : machine W) (r : bt_status_t)
    (m' : machine W) : Prop :=
  (r, world m') = tree_value fuel c (world m) /\
  r <> BT_RUNNING /\ no_node_running (heap m').

Definition value_rec (rk : addr -> nat) (rec : ptr -> M W bt_status_t)
    (fuel bound : nat) : Prop :=
  forall c m,
    tree_ok rk (heap m) -> no_node_running (heap m) -> heap_frame h (heap m) ->
    is_Some (heap m !! c) -> rk c < bound ->
    exists r m',
      rec (Some c) m = Done r m' /\ frame_post rk c m m' /\ value_post fuel c m r m'.

End Reactive.

Definition no_node_runningb (h : gmap addr bt_node_t) : bool :=
  forallb (fun an => negb (is_running (status (snd an)))) (map_to_list h).

(** ** The programs of [examples/] *)

(** What the examples share: [int] arithmetic, [printf], and the
    assignment [node.blackboard = p]. *)
Module Example.

(** [int] has 32 bits; a sum outside its range is undefined in C. *)
Definition INT_MIN : Z := -2147483648.
Definition INT_MAX : Z := 2147483647.

Definition is_int (x : Z) : Prop := (INT_MIN <= x <= INT_MAX)%Z.

Definition int_add (x y : Z) : option Z :=
  if ((INT_MIN <=? x + y) && (x + y <=? INT_MAX))%Z then Some (x + y)%Z else None.

(** A call of [printf]: the format as the source spells it, and the
    integer arguments. *)
Record printf_call : Type := Printf {
  format : string;
  args : list Z
}.

(** The value of a [bt_status_t] passed to [%d]. *)
Definition status_code (s : bt_status_t) : Z :=
  match s with
  | BT_SUCCESS => 0
  | BT_FAILURE => 1
  | BT_RUNNING => 2
  | BT_ERROR => 255
  end.

Section Statements.

(** The user state is the object the blackboards point to and what was
    written to the standard output; [None] once the program has left the
    behaviour C defines. *)
Context {S : Type}.

Definition set_bb (a : addr) (p : void_ptr)
    : M (option (S * list printf_call)) unit :=
  do n <- load a; store a (set_blackboard n p).

Definition printf (fmt : string) (xs : list Z)
    : M (option (S * list printf_call)) unit :=
  fun m => Done tt (mk_machine (heap m)
                      (match world m with
                       | Some (s, out) => Some (s, out ++ [Printf fmt xs])
                       | None => None
                       end)
                      (trace m)).

(** [(T * )node->blackboard], for the one object of type [T] that lives at
    [loc]: the object and the output so far. *)
Definition deref_blackboard (loc : N) (h : gmap addr bt_node_t) (a : addr)
    (w : option (S * list printf_call)) : option (S * list printf_call) :=
  match h !! a with
  | Some n =>
      match blackboard n with
      | Some l => if (l =? loc)%N then w else None
      | None => None
      end
  | None => None
  end.

End Statements.

End Example.

(** [examples/simple_robot.c] *)
Module SimpleRobot.

Import Example.

Record RobotState : Type := mk_robot {
  battery : Z;
  position : Z;
  data_collected : Z
}.

Definition user_state : Type := option (RobotState * list printf_call).

(** Where [state] of [main] lives, and the code addresses of the three
    callbacks. *)
Definition state_loc : N := 0.
Definition fn_check_battery : fn_ptr := 0.
Definition fn_move_forward : fn_ptr := 1.
Definition fn_collect_data : fn_ptr := 2.

Definition check_battery (a : addr) (s : gmap addr bt_node_t * user_state)
    : bt_status_t * (gmap addr bt_node_t * user_state) :=
  match deref_blackboard state_loc (fst s) a (snd s) with
  | Some (state, out) =>
      ((if (20 <? battery state)%Z then BT_SUCCESS else BT_FAILURE),
       (fst s,
        Some (state, out ++ [Printf "[check_battery] battery=%d%%\n" [battery state]])))
  | None => (BT_ERROR, (fst s, None))
  end.

Definition move_forward (a : addr) (s : gmap addr bt_node_t * user_state)
    : bt_status_t * (gmap addr bt_node_t * user_state) :=
  match deref_blackboard state_loc (fst s) a (snd s) with
  | Some (state, out) =>
      match int_add (position state) 1, int_add (battery state) (-1) with
      | Some p, Some b =>
          (BT_SUCCESS,
           (fst s,
            Some (mk_robot b p (data_collected state),
                  out ++ [Printf "[move_forward] position=%d, battery=%d%%\n" [p; b]])))
      | _, _ => (BT_ERROR, (fst s, None))
      end
  | None => (BT_ERROR, (fst s, None))
  end.

Definition collect_data (a : addr) (s : gmap addr bt_node_t * user_state)
    : bt_status_t * (gmap addr bt_node_t * user_state) :=
  match deref_blackboard state_loc (fst s) a (snd s) with
  | Some (state, out) =>
      match int_add (data_collected state) 1, int_add (battery state) (-2) with
      | Some d, Some b =>
          (BT_SUCCESS,
           (fst s,
            Some (mk_robot b (position state) d,
                  out ++ [Printf "[collect_data] collected=%d, battery=%d%%\n" [d; b]])))
      | _, _ => (BT_ERROR, (fst s, None))
      end
  | None => (BT_ERROR, (fst s, None))
  end.

(** A call through a pointer to none of the three functions is
    undefined. *)
Definition tick_code (f : fn_ptr) (a : addr) (s : gmap addr bt_node_t * user_state)
    : bt_status_t * (gmap addr bt_node_t * user_state) :=
  match f with
  | 0 => check_battery a s
  | 1 => move_forward a s
  | 2 => collect_data a s
  | _ => (BT_ERROR, (fst s, None))
  end.

(** The example installs no hook: a call through a hook pointer would be
    a call to no function. *)
Definition hook_code (f : fn_ptr) (a : addr) (s : gmap addr bt_node_t * user_state)
    : gmap addr bt_node_t * user_state := (fst s, None).

(** The locals of [main]. *)
Definition check_node : addr := 1.
Definition move_node : addr := 2.
Definition collect_node : addr := 3.
Definition root_node : addr := 4.
Definition children : list ptr := [Some check_node; Some move_node; Some collect_node].

Definition rk (a : addr) : nat := a.

(** [main], lines 48 to 61: the tree and its blackboards. *)
Definition build : M user_state unit :=
  bt_init (Some check_node) BT_CONDITION (Some fn_check_battery) None 0 None ;;
  bt_init (Some move_node) BT_ACTION (Some fn_move_forward) None 0 None ;;
  bt_init (Some collect_node) BT_ACTION (Some fn_collect_data) None 0 None ;;
  BT_INIT (Some root_node) BT_SEQUENCE None children None ;;
  set_bb check_node (Some state_loc) ;;
  set_bb move_node (Some state_loc) ;;
  set_bb collect_node (Some state_loc) ;;
  set_bb root_node (Some state_loc).

(** [main], lines 63 to 72: one tick, the report, the exit code. *)
Definition main (fuel : nat) : M user_state Z :=
  build ;;
  printf "=== Simple Robot Example ===\n" [] ;;
  do status <- bt_tick tick_code hook_code fuel (Some root_node);
  printf "\n=== Result ===\n" [] ;;
  printf "Status: %d (0=SUCCESS, 1=FAILURE, 2=RUNNING)\n" [status_code status] ;;
  (fun m =>
     match world m with
     | Some (state, _) =>
         printf "Final state: position=%d, battery=%d%%, data=%d\n"
           [position state; battery state; data_collected state] m
     | None => Done tt m
     end) ;;
  ret (if decide (status = BT_SUCCESS) then 0%Z else 1%Z).

(** The machine [main] starts in, for a robot state [state]; [main] itself
    starts with [{100, 0, 0}]. *)
Definition boot (state : RobotState) : machine user_state :=
  mk_machine ∅ (Some (state, [])) [].

Definition initial_state : RobotState := mk_robot 100 0 0.

(** The machine in which [main] ticks the root, and its store. *)
Definition ready (state : RobotState) : machine user_state :=
  match build (boot state) with
  | Done _ m => m
  | _ => boot state
  end.

Definition tree : gmap addr bt_node_t := heap (ready initial_state).


End SimpleRobot.

(** [examples/state_machine.c] *)
Module StateMachine.

Import Example.

Inductive SystemState : Type :=
| STATE_IDLE
| STATE_RUNNING
| STATE_ERROR.

Record SystemContext : Type := mk_context {
  state : SystemState;
  counter : Z
}.

Definition user_state : Type := option (SystemContext * list printf_call).

Definition ctx_loc : N := 0.
Definition fn_is_idle : fn_ptr := 0.
Definition fn_idle_action : fn_ptr := 1.
Definition fn_is_running : fn_ptr := 2.
Definition fn_running_action : fn_ptr := 3.
Definition fn_is_error : fn_ptr := 4.
Definition fn_error_action : fn_ptr := 5.

(** The three conditions: [(ctx->state == s) ? BT_SUCCESS : BT_FAILURE]. *)
Definition state_is (s : SystemState) (a : addr) (x : gmap addr bt_node_t * user_state)
    : bt_status_t * (gmap addr bt_node_t * user_state) :=
  match deref_blackboard ctx_loc (fst x) a (snd x) with
  | Some (ctx, out) =>
      ((match s, state ctx with
        | STATE_IDLE, STATE_IDLE
        | STATE_RUNNING, STATE_RUNNING
        | STATE_ERROR, STATE_ERROR => BT_SUCCESS
        | _, _ => BT_FAILURE
        end),
       (fst x, Some (ctx, out)))
  | None => (BT_ERROR, (fst x, None))
  end.

Definition is_idle := state_is STATE_IDLE.
Definition is_running := state_is STATE_RUNNING.
Definition is_error := state_is STATE_ERROR.

Definition idle_action (a : addr) (x : gmap addr bt_node_t * user_state)
    : bt_status_t * (gmap addr bt_node_t * user_state) :=
  match deref_blackboard ctx_loc (fst x) a (snd x) with
  | Some (ctx, out) =>
      let out1 := out ++ [Printf "[IDLE] waiting...\n" []] in
      match int_add (counter ctx) 1 with
      | Some c =>
          if (3 <=? c)%Z
          then (BT_SUCCESS,
                (fst x,
                 Some (mk_context STATE_RUNNING c,
                       out1 ++ [Printf "[IDLE] transitioning to RUNNING\n" []])))
          else (BT_SUCCESS, (fst x, Some (mk_context (state ctx) c, out1)))
      | None => (BT_ERROR, (fst x, None))
      end
  | None => (BT_ERROR, (fst x, None))
  end.

Definition running_action (a : addr) (x : gmap addr bt_node_t * user_state)
    : bt_status_t * (gmap addr bt_node_t * user_state) :=
  match deref_blackboard ctx_loc (fst x) a (snd x) with
  | Some (ctx, out) =>
      let out1 := out ++ [Printf "[RUNNING] processing...\n" []] in
      match int_add (counter ctx) 1 with
      | Some c =>
          if (6 <=? c)%Z
          then (BT_SUCCESS,
                (fst x,
                 Some (mk_context STATE_IDLE 0,
                       out1 ++ [Printf "[RUNNING] done, back to IDLE\n" []])))
          else (BT_SUCCESS, (fst x, Some (mk_context (state ctx) c, out1)))
      | None => (BT_ERROR, (fst x, None))
      end
  | None => (BT_ERROR, (fst x, None))
  end.

Definition error_action (a : addr) (x : gmap addr bt_node_t * user_state)
    : bt_status_t * (gmap addr bt_node_t * user_state) :=
  match deref_blackboard ctx_loc (fst x) a (snd x) with
  | Some (ctx, out) =>
      (BT_SUCCESS,
       (fst x,
        Some (mk_context STATE_IDLE 0, out ++ [Printf "[ERROR] recovering...\n" []])))
  | None => (BT_ERROR, (fst x, None))
  end.

Definition tick_code (f : fn_ptr) (a : addr) (x : gmap addr bt_node_t * user_state)
    : bt_status_t * (gmap addr bt_node_t * user_state) :=
  match f with
  | 0 => is_idle a x
  | 1 => idle_action a x
  | 2 => is_running a x
  | 3 => running_action a x
  | 4 => is_error a x
  | 5 => error_action a x
  | _ => (BT_ERROR, (fst x, None))
  end.

(** The example installs no hook: a call through a hook pointer would be
    a call to no function. *)
Definition hook_code (f : fn_ptr) (a : addr) (x : gmap addr bt_node_t * user_state)
    : gmap addr bt_node_t * user_state := (fst x, None).

(** The locals of [main]. *)
Definition idle_check : addr := 1.
Definition idle_act : addr := 2.
Definition idle_seq : addr := 3.
Definition run_check : addr := 4.
Definition run_act : addr := 5.
Definition run_seq : addr := 6.
Definition err_check : addr := 7.
Definition err_act : addr := 8.
Definition err_seq : addr := 9.
Definition root : addr := 10.
Definition idle_children : list ptr := [Some idle_check; Some idle_act].
Definition run_children : list ptr := [Some run_check; Some run_act].
Definition err_children : list ptr := [Some err_check; Some err_act].
Definition root_children : list ptr := [Some idle_seq; Some run_seq; Some err_seq].

Definition rk (a : addr) : nat := a.

(** The records of a leaf and of a composite once [main] has initialised
    them and set their blackboards. *)
Definition leaf_record (ty : bt_node_type_t) (fn : fn_ptr) : bt_node_t :=
  set_blackboard (init_node ty (Some fn) None 0 None) (Some ctx_loc).

Definition branch_record (ty : bt_node_type_t) (arr : list ptr) : bt_node_t :=
  set_blackboard (init_node ty None (Some arr) (BT_COUNT_OF arr) None)
    (Some ctx_loc).

(** [main], lines 71 to 113. *)
Definition build : M user_state unit :=
  bt_init (Some idle_check) BT_CONDITION (Some fn_is_idle) None 0 None ;;
  bt_init (Some idle_act) BT_ACTION (Some fn_idle_action) None 0 None ;;
  BT_INIT (Some idle_seq) BT_SEQUENCE None idle_children None ;;
  bt_init (Some run_check) BT_CONDITION (Some fn_is_running) None 0 None ;;
  bt_init (Some run_act) BT_ACTION (Some fn_running_action) None 0 None ;;
  BT_INIT (Some run_seq) BT_SEQUENCE None run_children None ;;
  bt_init (Some err_check) BT_CONDITION (Some fn_is_error) None 0 None ;;
  bt_init (Some err_act) BT_ACTION (Some fn_error_action) None 0 None ;;
  BT_INIT (Some err_seq) BT_SEQUENCE None err_children None ;;
  BT_INIT (Some root) BT_SELECTOR None root_children None ;;
  set_bb idle_check (Some ctx_loc) ;;
  set_bb idle_act (Some ctx_loc) ;;
  set_bb idle_seq (Some ctx_loc) ;;
  set_bb run_check (Some ctx_loc) ;;
  set_bb run_act (Some ctx_loc) ;;
  set_bb run_seq (Some ctx_loc) ;;
  set_bb err_check (Some ctx_loc) ;;
  set_bb err_act (Some ctx_loc) ;;
  set_bb err_seq (Some ctx_loc) ;;
  set_bb root (Some ctx_loc).

(** [for (int i = ...; i < bound; i++)] with the body of lines 118 and 119;
    [main] runs it from [i = 0] with [bound = 10].  [k] bounds the number
    of iterations. *)
Fixpoint tick_loop (fuel : nat) (k : nat) (bound i : Z) : M user_state unit :=
  if (i <? bound)%Z then
    match k with
    | O => fun _ => OutOfFuel
    | S k' =>
        printf "\n[tick %d]\n" [i] ;;
        bt_tick tick_code hook_code fuel (Some root) ;;
        tick_loop fuel k' bound (i + 1)
    end
  else ret tt.

Definition main (fuel : nat) : M user_state Z :=
  build ;;
  printf "=== State Machine Example ===\n" [] ;;
  tick_loop fuel 10 10 0 ;;
  ret 0%Z.

Definition initial_context : SystemContext := mk_context STATE_IDLE 0.

Definition boot (ctx : SystemContext) : machine user_state :=
  mk_machine ∅ (Some (ctx, [])) [].

(** The machine in which [main] enters its loop, up to the banner it has
    printed, and its store. *)
Definition ready (ctx : SystemContext) : machine user_state :=
  match build (boot ctx) with
  | Done _ m => m
  | _ => boot ctx
  end.

Definition tree : gmap addr bt_node_t := heap (ready initial_context).

(** The transition the callbacks make in one tick of the root, read off
    [idle_action], [running_action] and [error_action]. *)
Definition step (ctx : SystemContext) : SystemContext :=
  match state ctx with
  | STATE_IDLE =>
      if (3 <=? counter ctx + 1)%Z then mk_context STATE_RUNNING (counter ctx + 1)
      else mk_context STATE_IDLE (counter ctx + 1)
  | STATE_RUNNING =>
      if (6 <=? counter ctx + 1)%Z then mk_context STATE_IDLE 0
      else mk_context STATE_RUNNING (counter ctx + 1)
  | STATE_ERROR => mk_context STATE_IDLE 0
  end.

(** What they print while making it. *)
Definition report (ctx : SystemContext) : list printf_call :=
  match state ctx with
  | STATE_IDLE =>
      Printf "[IDLE] waiting...\n" [] ::
      (if (3 <=? counter ctx + 1)%Z
       then [Printf "[IDLE] transitioning to RUNNING\n" []] else [])
  | STATE_RUNNING =>
      Printf "[RUNNING] processing...\n" [] ::
      (if (6 <=? counter ctx + 1)%Z
       then [Printf "[RUNNING] done, back to IDLE\n" []] else [])
  | STATE_ERROR => [Printf "[ERROR] recovering...\n" []]
  end.

(** The context after [j] ticks from [{STATE_IDLE, 0}]: three ticks idle,
    three ticks running, and again. *)
Definition phase (j : nat) : SystemContext :=
  mk_context (if j mod 6 <? 3 then STATE_IDLE else STATE_RUNNING)
    (Z.of_nat (j mod 6)).

End StateMachine.

(** ** A concrete program: the trees of the test suite and of section 8 *)

Module Demo.

(** The user state is a progress counter; the callbacks are those of
    [tests/test_c-behavior-tree.c]: [leaf_cond_true], [leaf_cond_false],
    [leaf_action_progress] (two Running ticks, then Success), and one that
    reports an error. *)
Definition cb_true : fn_ptr := 0.
Definition cb_false : fn_ptr := 1.
Definition cb_progress : fn_ptr := 2.
Definition cb_error : fn_ptr := 3.
Definition hk_enter : fn_ptr := 10.
Definition hk_exit : fn_ptr := 11.

Definition tick_code (f : fn_ptr) (a : addr) (s : gmap addr bt_node_t * nat)
    : bt_status_t * (gmap addr bt_node_t * nat) :=
  match f with
  | 0 => (BT_SUCCESS, s)
  | 1 => (BT_FAILURE, s)
  | 2 => if snd s <? 2 then (BT_RUNNING, (fst s, S (snd s))) else (BT_SUCCESS, s)
  | _ => (BT_ERROR, s)
  end.

Definition hook_code (f : fn_ptr) (a : addr) (s : gmap addr bt_node_t * nat)
    : gmap addr bt_node_t * nat := s.

(** Children sit at lower addresses than their parents. *)
Definition rk (a : addr) : nat := a.

Definition run (c : M nat unit) (m : machine nat) : machine nat :=
  match c m with
  | Done _ m' => m'
  | _ => m
  end.

(** Assign [on_enter] and [on_exit] of the node at [a]. *)
Definition wire (a : addr) (enter exit_ : option fn_ptr) : M nat unit :=
  do n <- load a; store a (wired n enter exit_ None).

Definition empty : machine nat := mk_machine ∅ 0 [].

(** 1: always Success.  2: the progress action.  3: always Failure.
    4: always Error.
    10: Sequence [1; 2], hooked (scenario A).
    11: Selector [3; 1], hooked (scenario B).
    12: Inverter [1], hooked.
    13: Inverter without children, hooked ([test_error_cases]).
    14: Sequence [1; 4; 2], hooked.
    15: Selector [3; 4; 1], hooked. *)
Definition leaves : machine nat :=
  run (bt_init (Some 4) BT_CONDITION (Some cb_error) None 0 None)
  (run (bt_init (Some 3) BT_CONDITION (Some cb_false) None 0 None)
  (run (bt_init (Some 2) BT_ACTION (Some cb_progress) None 0 None)
  (run (bt_init (Some 1) BT_CONDITION (Some cb_true) None 0 None) empty))).

Definition start : machine nat :=
  run (wire 15 (Some hk_enter) (Some hk_exit))
  (run (bt_init (Some 15) BT_SELECTOR None (Some [Some 3; Some 4; Some 1]) 3 None)
  (run (wire 14 (Some hk_enter) (Some hk_exit))
  (run (bt_init (Some 14) BT_SEQUENCE None (Some [Some 1; Some 4; Some 2]) 3 None)
  (run (wire 13 (Some hk_enter) (Some hk_exit))
  (run (bt_init (Some 13) BT_INVERTER None None 0 None)
  (run (wire 12 (Some hk_enter) (Some hk_exit))
  (run (bt_init (Some 12) BT_INVERTER None (Some [Some 1]) 1 None)
  (run (wire 11 (Some hk_enter) (Some hk_exit))
  (run (bt_init (Some 11) BT_SELECTOR None (Some [Some 3; Some 1]) 2 None)
  (run (wire 10 (Some hk_enter) (Some hk_exit))
  (run (bt_init (Some 10) BT_SEQUENCE None (Some [Some 1; Some 2]) 2 None)
     leaves))))))))))).

Definition tick_at (a : addr) (m : machine nat) : outcome nat bt_status_t :=
  bt_tick tick_code hook_code 20 (Some a) m.

(** The machine after one tick of [a]. *)
Definition after (a : addr) (m : machine nat) : machine nat :=
  match tick_at a m with
  | Done _ m' => m'
  | _ => m
  end.

(** The record of the node at [a]. *)
Definition node (a : addr) (m : machine nat) : bt_node_t :=
  default (init_node BT_ACTION None None 0 None) (heap m !! a).

(** What one tick of [a] returns, and what it adds to the log. *)
Definition result (a : addr) (m : machine nat) : bt_status_t :=
  match tick_at a m with
  | Done r _ => r
  | _ => BT_ERROR
  end.

Definition logged (a : addr) (m : machine nat) : list event :=
  drop (length (trace m)) (trace (after a m)).

End Demo.

(** Further stores, built on those of [Demo].
    [odd_nodes]: 5 is an Action without a callback, 6 a node whose type tag
    is none of the five.  [stacked]: 20 is an Inverter over the Inverter 12.
    [hooked_leaf]: the leaf 1 has both hooks installed. *)
Module Sample.

Definition odd_nodes : machine nat :=
  Demo.run (bt_init (Some 6) (BT_TYPE_OTHER 9) None None 0 None)
  (Demo.run (bt_init (Some 5) BT_ACTION None None 0 None) Demo.start).

Definition stacked : machine nat :=
  Demo.run (bt_init (Some 20) BT_INVERTER None (Some [Some 12]) 1 None) Demo.start.

Definition hooked_leaf : machine nat :=
  Demo.run (Demo.wire 1 (Some Demo.hk_enter) (Some Demo.hk_exit)) Demo.start.

End Sample.

(** * Proofs *)

(** ** Nodes and stores *)

Lemma static_fields n n' : static n' = static n <-> same_fields n n'.
Proof.
  destruct n, n'; unfold static, same_fields; cbn; split.
  - intros H; injection H; intros; subst; repeat split.
  - intros (-> & -> & -> & -> & -> & -> & -> & -> & ->); reflexivity.
Qed.

Lemma set_current_child_id n : set_current_child n (current_child n) = n.
Proof. destruct n; reflexivity. Qed.

Lemma static_children_count n n' :
  static n' = static n -> children_count n' = children_count n.
Proof. intros H; apply static_fields in H; unfold same_fields in H; tauto. Qed.

Lemma static_child_ref n n' i :
  static n' = static n -> child_ref n' i = child_ref n i.
Proof.
  intros H; apply static_fields in H.
  destruct H as (_ & _ & Hc & Hn & _); unfold child_ref; rewrite Hc, Hn; reflexivity.
Qed.

Lemma static_node_ok n n' : static n' = static n -> node_ok n -> node_ok n'.
Proof.
  intros H; apply static_fields in H.
  destruct H as (_ & _ & Hc & Hn & _); unfold node_ok; rewrite Hc, Hn.
  intros H; exact H.
Qed.

Lemma static_on_enter n n' : static n' = static n -> on_enter n' = on_enter n.
Proof. intros H; apply static_fields in H; unfold same_fields in H; tauto. Qed.

Lemma static_on_exit n n' : static n' = static n -> on_exit n' = on_exit n.
Proof. intros H; apply static_fields in H; unfold same_fields in H; tauto. Qed.

Lemma heap_frame_refl h : heap_frame h h.
Proof. intros b; reflexivity. Qed.

Lemma heap_frame_trans h1 h2 h3 :
  heap_frame h1 h2 -> heap_frame h2 h3 -> heap_frame h1 h3.
Proof. intros H12 H23 b; rewrite H23; apply H12. Qed.

Lemma heap_frame_sym h1 h2 : heap_frame h1 h2 -> heap_frame h2 h1.
Proof. intros H b; symmetry; apply H. Qed.

Lemma heap_frame_insert (h : gmap addr bt_node_t) a n n' :
  h !! a = Some n -> static n' = static n -> heap_frame h (<[a := n']> h).
Proof.
  intros Ha Hs b; destruct (decide (a = b)) as [<- | Hne].
  - rewrite lookup_insert_eq, Ha; cbn; f_equal; exact Hs.
  - rewrite lookup_insert_ne by exact Hne; reflexivity.
Qed.

Lemma heap_frame_lookup (h h' : gmap addr bt_node_t) b n :
  heap_frame h h' -> h !! b = Some n ->
  exists n', h' !! b = Some n' /\ static n' = static n.
Proof.
  intros H Hb; specialize (H b); rewrite Hb in H.
  destruct (h' !! b) as [n' |]; cbn in H; [| discriminate].
  exists n'; split; [reflexivity | congruence].
Qed.

Lemma heap_frame_is_Some (h h' : gmap addr bt_node_t) b :
  heap_frame h h' -> is_Some (h !! b) -> is_Some (h' !! b).
Proof.
  intros H [n Hb]; destruct (heap_frame_lookup _ _ _ _ H Hb) as (n' & Hn' & _); eauto.
Qed.

Lemma tree_ok_frame rk h h' : heap_frame h h' -> tree_ok rk h -> tree_ok rk h'.
Proof.
  intros Hf Hok a n' Ha.
  destruct (heap_frame_lookup _ _ _ _ (heap_frame_sym _ _ Hf) Ha) as (n & Hn & Hs).
  destruct (Hok a n Hn) as [Hnode Hch]; split.
  - apply (static_node_ok n); [symmetry; exact Hs | exact Hnode].
  - intros i c Hc; rewrite (static_child_ref n n') in Hc by (symmetry; exact Hs).
    destruct (Hch i c Hc) as [Hlt Hsome]; split; [exact Hlt |].
    eapply heap_frame_is_Some; eassumption.
Qed.

Lemma descendant_frame h h' a b :
  heap_frame h h' -> descendant h a b -> descendant h' a b.
Proof.
  intros Hf Hd; induction Hd as [a | a n i c b Ha Hc _ IH].
  - constructor.
  - destruct (heap_frame_lookup _ _ _ _ Hf Ha) as (n' & Hn' & Hs).
    eapply desc_child; [exact Hn' | | exact IH].
    rewrite (static_child_ref n n') by exact Hs; exact Hc.
Qed.

Lemma descendant_rank rk h a b :
  tree_ok rk h -> descendant h a b -> rk b <= rk a.
Proof.
  intros Hok Hd; induction Hd as [a | a n i c b Ha Hc _ IH]; [lia |].
  destruct (Hok a n Ha) as [_ Hch]; destruct (Hch i c Hc) as [Hlt _]; lia.
Qed.

Lemma u16_small x : (x < UINT16_MOD)%N -> u16 x = x.
Proof. intros H; unfold u16; apply N.mod_small; exact H. Qed.

Lemma below_app rk r d1 d2 : below rk r d1 -> below rk r d2 -> below rk r (d1 ++ d2).
Proof. unfold below; intros; apply Forall_app; split; assumption. Qed.

Lemma below_weaken rk r r' d : r <= r' -> below rk r d -> below rk r' d.
Proof.
  unfold below; intros Hle H; eapply Forall_impl; [exact H |].
  cbn; intros e He; lia.
Qed.

Lemma tree_okb_sound rk h : tree_okb rk h = true -> tree_ok rk h.
Proof.
  unfold tree_okb; rewrite List.forallb_forall; intros H a n Ha.
  assert (Hin : In (a, n) (map_to_list h)).
  { apply list_elem_of_In, elem_of_map_to_list; exact Ha. }
  specialize (H _ Hin); cbn [fst snd] in H.
  apply andb_prop in H as [Hnode Hslots].
  unfold node_okb in Hnode; apply andb_prop in Hnode as [Hcount Harr].
  apply N.ltb_lt in Hcount; split.
  - split; [exact Hcount |].
    intros arr Hchs; rewrite Hchs in Harr; apply Nat.leb_le; exact Harr.
  - intros i c Hc; unfold child_ref in Hc; unfold slots_okb in Hslots.
    destruct (children n) as [arr |]; [| discriminate].
    destruct (i <? children_count n)%N eqn:Hi; [| discriminate].
    apply N.ltb_lt in Hi; unfold read_slot in Hc.
    destruct (arr !! N.to_nat i) as [p |] eqn:Hp; [| discriminate]; subst p.
    rewrite List.forallb_forall in Hslots.
    assert (Hin' : In (Some c) (firstn (N.to_nat (children_count n)) arr)).
    { apply list_elem_of_In, (list_elem_of_lookup_2 _ (N.to_nat i)).
      rewrite lookup_take_lt by lia; exact Hp. }
    specialize (Hslots _ Hin'); cbn in Hslots.
    apply andb_prop in Hslots as [Hrk Hsome].
    apply Nat.ltb_lt in Hrk; apply bool_decide_eq_true_1 in Hsome; split; assumption.
Qed.

Lemma cursors_okb_sound h : cursors_okb h = true -> cursors_ok h.
Proof.
  unfold cursors_okb; rewrite List.forallb_forall; intros H b n Hb.
  assert (Hin : In (b, n) (map_to_list h)).
  { apply list_elem_of_In, elem_of_map_to_list; exact Hb. }
  specialize (H _ Hin); cbn [snd] in H; apply N.leb_le; exact H.
Qed.

(** ** Running the monad *)

Section Ticking.

Context {W : Type}.
Variable tick_code :
  fn_ptr -> addr -> gmap addr bt_node_t * W -> bt_status_t * (gmap addr bt_node_t * W).
Variable hook_code :
  fn_ptr -> addr -> gmap addr bt_node_t * W -> gmap addr bt_node_t * W.
Variable rk : addr -> nat.
Hypothesis Hcb : callbacks_keep_nodes tick_code hook_code.

Implicit Types (m : machine W) (a c : addr) (n : bt_node_t).

Lemma bind_done {A B} (c : M W A) (k : A -> M W B) m x m1 :
  c m = Done x m1 -> bind c k m = k x m1.
Proof. intros H; unfold bind; rewrite H; reflexivity. Qed.

Lemma load_done a n m : heap m !! a = Some n -> load a m = Done n m.
Proof. intros H; unfold load; rewrite H; reflexivity. Qed.

Lemma write_status_done a n s m :
  heap m !! a = Some n ->
  write_status a s m
  = Done tt (mk_machine (<[a := set_status n s]> (heap m)) (world m) (trace m)).
Proof. intros H; unfold write_status; rewrite (bind_done _ _ _ _ _ (load_done _ _ _ H)); reflexivity. Qed.

Lemma write_current_child_done a n i m :
  heap m !! a = Some n ->
  write_current_child a i m
  = Done tt (mk_machine (<[a := set_current_child n i]> (heap m)) (world m) (trace m)).
Proof. intros H; unfold write_current_child; rewrite (bind_done _ _ _ _ _ (load_done _ _ _ H)); reflexivity. Qed.

Lemma write_current_child_same a n m :
  heap m !! a = Some n ->
  write_current_child a (current_child n) m = Done tt m.
Proof.
  intros H; rewrite (write_current_child_done _ _ _ _ H).
  rewrite set_current_child_id, insert_id by exact H.
  destruct m; reflexivity.
Qed.

Lemma call_hook_done f a m :
  call_hook hook_code f a m
  = Done tt (mk_machine (heap m) (snd (hook_code f a (heap m, world m))) (trace m)).
Proof.
  unfold call_hook. destruct Hcb as [_ Hh]. specialize (Hh f a (heap m) (world m)).
  destruct (hook_code f a (heap m, world m)) as [h' w']; cbn in *; subst; reflexivity.
Qed.

Lemma call_tick_done f a m :
  call_tick tick_code f a m
  = Done (fst (tick_code f a (heap m, world m)))
      (mk_machine (heap m) (snd (snd (tick_code f a (heap m, world m))))
         (trace m ++ [EvLeaf a (fst (tick_code f a (heap m, world m)))])).
Proof.
  unfold call_tick. destruct Hcb as [Ht _]. specialize (Ht f a (heap m) (world m)).
  destruct (tick_code f a (heap m, world m)) as [r [h' w']]; cbn in *; subst; reflexivity.
Qed.

Lemma bt_call_enter_done a n m :
  heap m !! a = Some n ->
  exists w, bt_call_enter hook_code (Some a) m
            = Done tt (mk_machine (heap m) w (trace m ++ enter_events a n true)).
Proof.
  intros H; unfold bt_call_enter, enter_events.
  rewrite (bind_done _ _ _ _ _ (load_done _ _ _ H)).
  destruct (on_enter n) as [f |].
  - unfold bind, log; rewrite call_hook_done; cbn; eauto.
  - exists (world m); unfold ret; rewrite app_nil_r; destruct m; reflexivity.
Qed.

Lemma bt_call_exit_done a n m :
  heap m !! a = Some n ->
  exists w, bt_call_exit hook_code (Some a) m
            = Done tt (mk_machine (heap m) w
                         (trace m ++ match on_exit n with
                                     | Some _ => [EvExit a (status n)]
                                     | None => []
                                     end)).
Proof.
  intros H; unfold bt_call_exit.
  rewrite (bind_done _ _ _ _ _ (load_done _ _ _ H)).
  destruct (on_exit n) as [f |].
  - unfold bind, log; rewrite call_hook_done; cbn; eauto.
  - exists (world m); unfold ret; rewrite app_nil_r; destruct m; reflexivity.
Qed.

Lemma bt_child_at_done a n i m :
  heap m !! a = Some n -> node_ok n ->
  bt_child_at (Some a) i m = Done (child_ref n i) m.
Proof.
  intros H [_ Harr]; unfold bt_child_at, child_ref.
  rewrite (bind_done _ _ _ _ _ (load_done _ _ _ H)).
  destruct (children n) as [arr |]; [| reflexivity].
  destruct (i <? children_count n)%N eqn:Hi; [| reflexivity].
  apply N.ltb_lt in Hi.
  unfold read_slot; destruct (arr !! N.to_nat i) as [p |] eqn:Hp; [reflexivity |].
  apply lookup_ge_None in Hp; specialize (Harr arr eq_refl); lia.
Qed.

Lemma for_children_unfold (body : N -> bt_status_t -> M W loop_exit) a k i result :
  for_children body a k i result
  = (do n <- load a;
     if (i <? children_count n)%N then
       match k with
       | O => fun _ => OutOfFuel
       | S k' =>
           do e <- body i result;
           match e with
           | Break result' => ret result'
           | Next result' => for_children body a k' (u16 (i + 1)) result'
           end
       end
     else ret result).
Proof. destruct k; reflexivity. Qed.

(** A child's tick leaves its parent's cell alone. *)
Lemma child_keeps_parent a c m m' n :
  tree_ok rk (heap m) -> rk c < rk a -> frame_post rk c m m' ->
  heap m !! a = Some n -> heap m' !! a = Some n.
Proof.
  intros Hok Hlt (_ & Hout & _) Ha; rewrite Hout; [exact Ha |].
  intros Hd; apply (descendant_rank rk _ _ _ Hok) in Hd; lia.
Qed.

Lemma tree_ok_insert h a n n' :
  tree_ok rk h -> h !! a = Some n -> static n' = static n ->
  tree_ok rk (<[a := n']> h).
Proof.
  intros Hok Ha Hs; eapply tree_ok_frame; [| exact Hok].
  eapply heap_frame_insert; eassumption.
Qed.

Ltac mrun :=
  repeat (cbv beta iota delta [bind ret load store write_status write_current_child log];
          cbn [heap world trace]).

(** Steps shared by the two loops. *)
Ltac run_at Ha :=
  mrun; rewrite Ha; mrun; rewrite ?lookup_insert_eq; mrun;
  rewrite ?lookup_insert_eq; mrun;
  cbn [children_count current_child set_status set_current_child
       is_running is_terminal negb andb].

Ltac loop_exhausted Ha Hlt Hle :=
  rewrite for_children_unfold;
  cbn [spec_sequence_from spec_selector_from]; unfold spec_exhausted;
  mrun; rewrite Ha; mrun; rewrite Hlt; mrun; rewrite Ha; mrun;
  rewrite Hle; cbn [is_running negb andb]; mrun; rewrite Ha; mrun;
  reflexivity.

Ltac loop_enter_body Ha Hlt :=
  rewrite for_children_unfold;
  cbn [spec_sequence_from spec_selector_from];
  unfold sequence_body, selector_body;
  mrun; rewrite Ha; mrun; rewrite Hlt; mrun.

Lemma sequence_loop_refines rec a n :
  rec_ok rk rec (rk a) ->
  forall todo k i m na,
    tree_ok rk (heap m) -> heap m !! a = Some na -> static na = static n ->
    current_child na = i -> todo = N.to_nat (children_count n - i) -> todo <= k ->
    (do result <- for_children (sequence_body rec a) a k i BT_SUCCESS;
     do n0 <- load a;
     do result0 <-
       (if negb (is_running result) && (children_count n0 <=? current_child n0)%N
        then write_status a BT_SUCCESS ;; ret BT_SUCCESS
        else ret result);
     (if is_terminal result0 then bt_call_exit hook_code (Some a) else ret tt) ;;
     ret result0) m
    = spec_sequence_from hook_code rec a n todo i m.
Proof.
  intros Hrec todo; induction todo as [| todo IH]; intros k i m na Hok Ha Hs Hi Htodo Hk.
  - assert (Hlt : (i <? children_count na)%N = false).
    { rewrite (static_children_count _ _ Hs); apply N.ltb_ge; lia. }
    assert (Hle : (children_count na <=? current_child na)%N = true).
    { rewrite (static_children_count _ _ Hs), Hi; apply N.leb_le; lia. }
    loop_exhausted Ha Hlt Hle.
  - destruct (Hok a na Ha) as [Hnode Hch].
    assert (Hcount : children_count na = children_count n)
      by (apply static_children_count; exact Hs).
    assert (Hlt : (i <? children_count na)%N = true) by (apply N.ltb_lt; lia).
    assert (Hi1 : u16 (i + 1) = (i + 1)%N).
    { apply u16_small; destruct Hnode as [Hn _]; unfold UINT16_MOD in *; lia. }
    assert (Hnle : (children_count na <=? i)%N = false) by (apply N.leb_gt; lia).
    destruct k as [| k]; [lia |].
    loop_enter_body Ha Hlt.
    rewrite (bt_child_at_done a na i m Ha Hnode).
    rewrite <- (static_child_ref n na i Hs).
    destruct (child_ref na i) as [c |] eqn:Hc.
    + destruct (Hch i c Hc) as [Hrk Hsome].
      destruct (Hrec c (mk_machine (heap m) (world m) (trace m ++ [EvChild a i])))
        as (cs & m2 & Hrun & Hpost); [exact Hok | exact Hsome | exact Hrk |].
      pose proof (child_keeps_parent a c (mk_machine _ _ _) m2 na Hok Hrk Hpost Ha) as Ha2.
      assert (Hok2 : tree_ok rk (heap m2)).
      { destruct Hpost as [Hf _]; exact (tree_ok_frame _ _ _ Hf Hok). }
      rewrite Hrun; mrun.
      destruct cs; unfold spec_stop; run_at Ha2; rewrite ?Hnle; mrun; try reflexivity.
      unfold UINT16_ONE; rewrite Hi1.
      erewrite <- (IH k (i + 1)%N _ (set_current_child na (i + 1)));
        [reflexivity | | | | | |]; cbn [heap].
      * eapply tree_ok_insert; [exact Hok2 | exact Ha2 | reflexivity].
      * apply lookup_insert_eq.
      * exact Hs.
      * reflexivity.
      * lia.
      * lia.
    + unfold spec_stop; subst i.
      rewrite (bind_done _ _ _ _ _ (write_current_child_same a na m Ha)).
      run_at Ha; rewrite ?Hnle; mrun; reflexivity.
Qed.

Lemma selector_loop_refines rec a n :
  rec_ok rk rec (rk a) ->
  forall todo k i m na,
    tree_ok rk (heap m) -> heap m !! a = Some na -> static na = static n ->
    current_child na = i -> todo = N.to_nat (children_count n - i) -> todo <= k ->
    (do result <- for_children (selector_body rec a) a k i BT_FAILURE;
     do n0 <- load a;
     do result0 <-
       (if negb (is_running result) && (children_count n0 <=? current_child n0)%N
        then write_status a BT_FAILURE ;; ret BT_FAILURE
        else ret result);
     (if is_terminal result0 then bt_call_exit hook_code (Some a) else ret tt) ;;
     ret result0) m
    = spec_selector_from hook_code rec a n todo i m.
Proof.
  intros Hrec todo; induction todo as [| todo IH]; intros k i m na Hok Ha Hs Hi Htodo Hk.
  - assert (Hlt : (i <? children_count na)%N = false).
    { rewrite (static_children_count _ _ Hs); apply N.ltb_ge; lia. }
    assert (Hle : (children_count na <=? current_child na)%N = true).
    { rewrite (static_children_count _ _ Hs), Hi; apply N.leb_le; lia. }
    loop_exhausted Ha Hlt Hle.
  - destruct (Hok a na Ha) as [Hnode Hch].
    assert (Hcount : children_count na = children_count n)
      by (apply static_children_count; exact Hs).
    assert (Hlt : (i <? children_count na)%N = true) by (apply N.ltb_lt; lia).
    assert (Hi1 : u16 (i + 1) = (i + 1)%N).
    { apply u16_small; destruct Hnode as [Hn _]; unfold UINT16_MOD in *; lia. }
    assert (Hnle : (children_count na <=? i)%N = false) by (apply N.leb_gt; lia).
    destruct k as [| k]; [lia |].
    loop_enter_body Ha Hlt.
    rewrite (bt_child_at_done a na i m Ha Hnode).
    rewrite <- (static_child_ref n na i Hs).
    destruct (child_ref na i) as [c |] eqn:Hc.
    + destruct (Hch i c Hc) as [Hrk Hsome].
      destruct (Hrec c (mk_machine (heap m) (world m) (trace m ++ [EvChild a i])))
        as (cs & m2 & Hrun & Hpost); [exact Hok | exact Hsome | exact Hrk |].
      pose proof (child_keeps_parent a c (mk_machine _ _ _) m2 na Hok Hrk Hpost Ha) as Ha2.
      assert (Hok2 : tree_ok rk (heap m2)).
      { destruct Hpost as [Hf _]; exact (tree_ok_frame _ _ _ Hf Hok). }
      rewrite Hrun; mrun.
      destruct cs; unfold spec_stop; run_at Ha2; rewrite ?Hnle; mrun; try reflexivity.
      unfold UINT16_ONE; rewrite Hi1.
      erewrite <- (IH k (i + 1)%N _ (set_current_child na (i + 1)));
        [reflexivity | | | | | |]; cbn [heap].
      * eapply tree_ok_insert; [exact Hok2 | exact Ha2 | reflexivity].
      * apply lookup_insert_eq.
      * exact Hs.
      * reflexivity.
      * lia.
      * lia.
    + unfold spec_stop; subst i.
      rewrite (bind_done _ _ _ _ _ (write_current_child_same a na m Ha)).
      run_at Ha; rewrite ?Hnle; mrun; reflexivity.
Qed.

(** The node a composite works on after its entry step. *)
Lemma code_entry_done a n m :
  heap m !! a = Some n ->
  exists w,
    (if is_running (status n) then ret tt
     else write_current_child a UINT16_ZERO ;; bt_call_enter hook_code (Some a)) m
    = Done tt (mk_machine
                 (<[a := if is_running (status n) then n else set_current_child n 0]> (heap m))
                 w (trace m ++ enter_events a n (negb (is_running (status n))))).
Proof.
  intros Ha; destruct (is_running (status n)) eqn:Hr; cbn [negb enter_events].
  - exists (world m); unfold ret; rewrite app_nil_r, insert_id by exact Ha.
    destruct m; reflexivity.
  - rewrite (bind_done _ _ _ _ _ (write_current_child_done a n _ m Ha)).
    destruct (bt_call_enter_done a (set_current_child n 0)
                (mk_machine (<[a:=set_current_child n UINT16_ZERO]> (heap m)) (world m) (trace m)))
      as [w Hw]; [apply lookup_insert_eq |].
    exists w; rewrite Hw; reflexivity.
Qed.

Lemma spec_entry_code a n m :
  heap m !! a = Some n ->
  spec_entry hook_code a m
  = (if is_running (status n) then ret tt
     else write_current_child a UINT16_ZERO ;; bt_call_enter hook_code (Some a)) m.
Proof.
  intros Ha; unfold spec_entry; rewrite (bind_done _ _ _ _ _ (load_done _ _ _ Ha)).
  destruct (status n); reflexivity.
Qed.

Lemma loop_budget_enough n i :
  node_ok n -> N.to_nat (children_count n - i) <= loop_budget.
Proof. intros [Hn _]; unfold loop_budget, UINT16_MOD in *; lia. Qed.

Lemma bt_tick_sequence_refines rec a n m :
  rec_ok rk rec (rk a) -> tree_ok rk (heap m) -> heap m !! a = Some n ->
  bt_tick_sequence hook_code rec (Some a) m = spec_sequence hook_code rec a m.
Proof.
  intros Hrec Hok Ha; unfold bt_tick_sequence, spec_sequence.
  rewrite (bind_done _ _ _ _ _ (load_done _ _ _ Ha)).
  destruct (code_entry_done a n m Ha) as [w Hw].
  pose proof (spec_entry_code a n m Ha) as He; rewrite Hw in He.
  rewrite (bind_done _ _ _ _ _ Hw), (bind_done _ _ _ _ _ He); clear Hw He.
  set (n1 := if is_running (status n) then n else set_current_child n 0) in *.
  set (m1 := mk_machine _ w _).
  assert (Hs : static n1 = static n) by (subst n1; destruct (is_running (status n)); reflexivity).
  assert (Ha1 : heap m1 !! a = Some n1) by apply lookup_insert_eq.
  assert (Hok1 : tree_ok rk (heap m1)) by (eapply tree_ok_insert; eassumption).
  rewrite !(bind_done _ _ _ _ _ (load_done _ _ _ Ha1)).
  apply (sequence_loop_refines rec a n1 Hrec _ _ _ m1 n1 Hok1 Ha1 eq_refl eq_refl eq_refl).
  apply loop_budget_enough, (Hok1 a n1 Ha1).
Qed.

Lemma bt_tick_selector_refines rec a n m :
  rec_ok rk rec (rk a) -> tree_ok rk (heap m) -> heap m !! a = Some n ->
  bt_tick_selector hook_code rec (Some a) m = spec_selector hook_code rec a m.
Proof.
  intros Hrec Hok Ha; unfold bt_tick_selector, spec_selector.
  rewrite (bind_done _ _ _ _ _ (load_done _ _ _ Ha)).
  destruct (code_entry_done a n m Ha) as [w Hw].
  pose proof (spec_entry_code a n m Ha) as He; rewrite Hw in He.
  rewrite (bind_done _ _ _ _ _ Hw), (bind_done _ _ _ _ _ He); clear Hw He.
  set (n1 := if is_running (status n) then n else set_current_child n 0) in *.
  set (m1 := mk_machine _ w _).
  assert (Hs : static n1 = static n) by (subst n1; destruct (is_running (status n)); reflexivity).
  assert (Ha1 : heap m1 !! a = Some n1) by apply lookup_insert_eq.
  assert (Hok1 : tree_ok rk (heap m1)) by (eapply tree_ok_insert; eassumption).
  rewrite !(bind_done _ _ _ _ _ (load_done _ _ _ Ha1)).
  apply (selector_loop_refines rec a n1 Hrec _ _ _ m1 n1 Hok1 Ha1 eq_refl eq_refl eq_refl).
  apply loop_budget_enough, (Hok1 a n1 Ha1).
Qed.

Lemma spec_sequence_from_scan rec a n todo i m :
  spec_sequence_from hook_code rec a n todo i m
  = spec_scan hook_code rec BT_SUCCESS a n todo i m.
Proof.
  revert i m; induction todo as [| todo IH]; intros i m; cbn [spec_sequence_from spec_scan];
    [reflexivity |].
  destruct (child_ref n i) as [c |]; [| reflexivity].
  unfold bind, log; destruct (rec (Some c) _) as [cs m2 | |]; try reflexivity.
  destruct cs; case_decide; try congruence; try reflexivity;
    (destruct (write_current_child _ _ _) as [[] m3 | |];
     [apply IH | reflexivity | reflexivity]).
Qed.

Lemma spec_selector_from_scan rec a n todo i m :
  spec_selector_from hook_code rec a n todo i m
  = spec_scan hook_code rec BT_FAILURE a n todo i m.
Proof.
  revert i m; induction todo as [| todo IH]; intros i m; cbn [spec_selector_from spec_scan];
    [reflexivity |].
  destruct (child_ref n i) as [c |]; [| reflexivity].
  unfold bind, log; destruct (rec (Some c) _) as [cs m2 | |]; try reflexivity.
  destruct cs; case_decide; try congruence; try reflexivity;
    (destruct (write_current_child _ _ _) as [[] m3 | |];
     [apply IH | reflexivity | reflexivity]).
Qed.

Lemma spec_sequence_composite rec a m :
  spec_sequence hook_code rec a m = spec_composite hook_code rec BT_SUCCESS a m.
Proof.
  unfold spec_sequence, spec_composite, bind.
  destruct (spec_entry hook_code a m) as [[] m1 | |]; try reflexivity.
  destruct (load a m1) as [n1 m1' | |]; try reflexivity.
  apply spec_sequence_from_scan.
Qed.

Lemma spec_selector_composite rec a m :
  spec_selector hook_code rec a m = spec_composite hook_code rec BT_FAILURE a m.
Proof.
  unfold spec_selector, spec_composite, bind.
  destruct (spec_entry hook_code a m) as [[] m1 | |]; try reflexivity.
  destruct (load a m1) as [n1 m1' | |]; try reflexivity.
  apply spec_selector_from_scan.
Qed.

Lemma log_done e m :
  log e m = Done tt (mk_machine (heap m) (world m) (trace m ++ [e])).
Proof. reflexivity. Qed.

Lemma exit_events_static a n n' r :
  static n' = static n -> exit_events a n' r = exit_events a n r.
Proof. intros H; unfold exit_events; rewrite (static_on_exit _ _ H); reflexivity. Qed.

Lemma spec_stop_done a n i st m :
  heap m !! a = Some n ->
  exists w,
    spec_stop hook_code a i st m
    = Done st (mk_machine (<[a := set_status (set_current_child n i) st]> (heap m)) w
                 (trace m ++ exit_events a n st)).
Proof.
  intros Ha; unfold spec_stop.
  rewrite (bind_done _ _ _ _ _ (write_current_child_done a n i m Ha)).
  erewrite bind_done; [| apply write_status_done; apply lookup_insert_eq].
  cbn [heap world trace]; rewrite insert_insert_eq.
  unfold exit_events; destruct (is_terminal st) eqn:Ht.
  - destruct (bt_call_exit_done a (set_status (set_current_child n i) st)
                (mk_machine (<[a := set_status (set_current_child n i) st]> (heap m))
                   (world m) (trace m))) as [w Hw]; [apply lookup_insert_eq |].
    exists w; erewrite bind_done by exact Hw; reflexivity.
  - exists (world m); unfold bind, ret; rewrite app_nil_r; reflexivity.
Qed.

Lemma spec_exhausted_done a n st m :
  heap m !! a = Some n -> is_terminal st = true ->
  exists w,
    spec_exhausted hook_code a st m
    = Done st (mk_machine (<[a := set_status n st]> (heap m)) w
                 (trace m ++ exit_events a n st)).
Proof.
  intros Ha Ht; unfold spec_exhausted.
  rewrite (bind_done _ _ _ _ _ (write_status_done a n st m Ha)).
  destruct (bt_call_exit_done a (set_status n st)
              (mk_machine (<[a := set_status n st]> (heap m)) (world m) (trace m)))
    as [w Hw]; [apply lookup_insert_eq |].
  exists w; erewrite bind_done by exact Hw.
  unfold exit_events; rewrite Ht; reflexivity.
Qed.

Lemma cursors_ok_insert (h : gmap addr bt_node_t) a n' :
  cursors_ok h -> (current_child n' <= children_count n')%N ->
  cursors_ok (<[a := n']> h).
Proof.
  intros Hc Hn b nb Hb; destruct (decide (a = b)) as [<- | Hne].
  - rewrite lookup_insert_eq in Hb; injection Hb as <-; exact Hn.
  - rewrite lookup_insert_ne in Hb by exact Hne; exact (Hc b nb Hb).
Qed.

Lemma outside_insert (h : gmap addr bt_node_t) a n' b :
  ~ descendant h a b -> <[a := n']> h !! b = h !! b.
Proof.
  intros Hd; apply lookup_insert_ne; intros ->; apply Hd; constructor.
Qed.

Ltac norm_app := repeat (rewrite <- app_assoc || (progress (cbn [app]))).

Lemma spec_scan_post adv rec a n :
  rec_ok rk rec (rk a) -> is_terminal adv = true ->
  forall todo i m na,
    tree_ok rk (heap m) -> heap m !! a = Some na -> static na = static n ->
    current_child na = i -> todo = N.to_nat (children_count n - i) ->
    exists r m',
      spec_scan hook_code rec adv a n todo i m = Done r m' /\
      scan_post rk adv a n i m r m'.
Proof.
  intros Hrec Hadv todo; induction todo as [| todo IH];
    intros i m na Hok Ha Hs Hi Htodo; cbn [spec_scan].
  - destruct (spec_exhausted_done a na adv m Ha Hadv) as [w Hw].
    eexists _, _; split; [exact Hw |].
    exists [], i, (set_status na adv); cbn [heap trace].
    split; [apply scan_exhausted; lia |].
    split; [rewrite (exit_events_static a n na) by exact Hs; reflexivity |].
    split; [apply lookup_insert_eq |].
    split; [exact Hs |].
    split; [reflexivity |].
    split; [exact Hi |].
    split; [eapply heap_frame_insert; [exact Ha | reflexivity] |].
    split; [intros b Hb; apply outside_insert; exact Hb |].
    intros Hc; apply cursors_ok_insert; [exact Hc | exact (Hc a na Ha)].
  - destruct (Hok a na Ha) as [Hnode Hch].
    assert (Hcount : children_count na = children_count n)
      by (apply static_children_count; exact Hs).
    assert (Hlt : (i < children_count n)%N) by lia.
    rewrite <- (static_child_ref n na i Hs).
    destruct (child_ref na i) as [c |] eqn:Hc.
    + destruct (Hch i c Hc) as [Hrk Hsome].
      destruct (Hrec c (mk_machine (heap m) (world m) (trace m ++ [EvChild a i])))
        as (cs & m2 & Hrun & Hpost); [exact Hok | exact Hsome | exact Hrk |].
      pose proof (child_keeps_parent a c (mk_machine _ _ _) m2 na Hok Hrk Hpost Ha) as Ha2.
      destruct Hpost as (Hf2 & Hout2 & Hcur2 & dc & Htr2 & Hbel2); cbn [heap trace] in *.
      assert (Hok2 : tree_ok rk (heap m2)) by exact (tree_ok_frame _ _ _ Hf2 Hok).
      assert (Hdc : below rk (rk a) dc) by (eapply below_weaken; [| exact Hbel2]; lia).
      assert (Hout2' : forall b, ~ descendant (heap m) a b -> heap m2 !! b = heap m !! b).
      { intros b Hb; apply Hout2; intros Hd; apply Hb.
        eapply desc_child; [exact Ha | exact Hc | exact Hd]. }
      rewrite (bind_done _ _ _ _ _ (log_done _ _)), (bind_done _ _ _ _ _ Hrun),
        (bind_done _ _ _ _ _ (log_done _ _)).
      destruct (decide (cs = adv)) as [-> | Hne].
      * erewrite bind_done by (apply write_current_child_done; exact Ha2).
        edestruct (IH (i + 1)%N) as (r & m' & Hrun' & Hpost');
          [| | | | | rewrite Hrun'].
        -- cbn [heap]; eapply tree_ok_insert; [exact Hok2 | exact Ha2 | reflexivity].
        -- cbn [heap]; apply lookup_insert_eq.
        -- exact Hs.
        -- reflexivity.
        -- lia.
        -- eexists _, _; split; [reflexivity |].
           destruct Hpost' as (l & c' & n' & Hscan & Htr & Ha' & Hs' & Hst & Hcc & Hf & Hout & Hcur).
           cbn [heap trace] in *.
           exists (EvChild a i :: dc ++ EvRet a i adv :: l), c', n'.
           split; [eapply scan_advance; [assumption | rewrite <- Hc; symmetry; apply static_child_ref; exact Hs | assumption | assumption] |].
           split; [rewrite Htr, Htr2; norm_app; reflexivity |].
           split; [exact Ha' |].
           split; [exact Hs' |].
           split; [exact Hst |].
           split; [exact Hcc |].
           assert (Hf3 : heap_frame (heap m) (<[a := set_current_child na (i + 1)]> (heap m2))).
           { eapply heap_frame_trans; [exact Hf2 |].
             eapply heap_frame_insert; [exact Ha2 | reflexivity]. }
           split; [eapply heap_frame_trans; [exact Hf3 | exact Hf] |].
           split.
           ++ intros b Hb; rewrite Hout.
              ** rewrite outside_insert; [apply Hout2'; exact Hb |].
                 intros Hd; apply Hb; eapply descendant_frame; [| exact Hd].
                 apply heap_frame_sym; exact Hf2.
              ** intros Hd; apply Hb; eapply descendant_frame; [| exact Hd].
                 apply heap_frame_sym; exact Hf3.
           ++ intros Hc0; apply Hcur, cursors_ok_insert; [exact (Hcur2 Hc0) |].
              cbn; lia.
      * destruct (spec_stop_done a na i cs
                    (mk_machine (heap m2) (world m2) (trace m2 ++ [EvRet a i cs])) Ha2)
          as [w Hw].
        eexists _, _; split; [exact Hw |].
        exists (EvChild a i :: dc ++ [EvRet a i cs]), i, (set_status (set_current_child na i) cs).
        cbn [heap trace].
        split; [eapply scan_stop; [assumption | rewrite <- Hc; symmetry; apply static_child_ref; exact Hs | assumption | assumption] |].
        split; [rewrite (exit_events_static a n na) by exact Hs;
                rewrite Htr2; norm_app; reflexivity |].
        split; [apply lookup_insert_eq |].
        split; [exact Hs |].
        split; [reflexivity |].
        split; [reflexivity |].
        split; [eapply heap_frame_trans; [exact Hf2 |];
                eapply heap_frame_insert; [exact Ha2 | reflexivity] |].
        split.
        -- intros b Hb; rewrite outside_insert; [apply Hout2'; exact Hb |].
           intros Hd; apply Hb; eapply descendant_frame; [| exact Hd].
           apply heap_frame_sym; exact Hf2.
        -- intros Hc0; apply cursors_ok_insert; [exact (Hcur2 Hc0) |]; cbn; lia.
    + destruct (spec_stop_done a na i BT_ERROR m Ha) as [w Hw].
      eexists _, _; split; [exact Hw |].
      exists [], i, (set_status (set_current_child na i) BT_ERROR).
      cbn [heap trace].
      split; [apply scan_missing; [assumption | rewrite <- Hc; symmetry; apply static_child_ref; exact Hs] |].
      split; [rewrite (exit_events_static a n na) by exact Hs; reflexivity |].
      split; [apply lookup_insert_eq |].
      split; [exact Hs |].
      split; [reflexivity |].
      split; [reflexivity |].
      split; [eapply heap_frame_insert; [exact Ha | reflexivity] |].
      split; [intros b Hb; apply outside_insert; exact Hb |].
      intros Hc0; apply cursors_ok_insert; [exact Hc0 |]; cbn; lia.
Qed.

Lemma below_own a d :
  Forall (fun e => ev_node e = a) d -> below rk (S (rk a)) d.
Proof.
  unfold below; intros H; eapply Forall_impl; [exact H |].
  cbn; intros e ->; lia.
Qed.

Lemma below_enter a n b : below rk (S (rk a)) (enter_events a n b).
Proof.
  apply below_own; unfold enter_events.
  destruct b; [destruct (on_enter n) |]; repeat constructor.
Qed.

Lemma below_exit a n r : below rk (S (rk a)) (exit_events a n r).
Proof.
  apply below_own; unfold exit_events.
  destruct (is_terminal r); [destruct (on_exit n) |]; repeat constructor.
Qed.

Lemma scan_trace_below adv a n i l r (cur : N) :
  scan_trace rk adv a n i l r cur -> below rk (S (rk a)) l.
Proof.
  induction 1 as [i _ | i _ _ | i c dc cs _ _ _ Hdc | i c dc l r cur _ _ Hdc _ IH].
  - constructor.
  - constructor.
  - constructor; [cbn; lia |].
    apply below_app; [eapply below_weaken; [| exact Hdc]; lia |].
    constructor; [cbn; lia | constructor].
  - constructor; [cbn; lia |].
    apply below_app; [eapply below_weaken; [| exact Hdc]; lia |].
    constructor; [cbn; lia | exact IH].
Qed.

Lemma scan_trace_static adv a n n' i l r (cur : N) :
  static n' = static n ->
  scan_trace rk adv a n i l r cur -> scan_trace rk adv a n' i l r cur.
Proof.
  intros Hs; pose proof (static_children_count _ _ Hs) as Hn.
  induction 1 as [i Hi | i Hi Hc | i c dc cs Hi Hc Hcs Hdc | i c dc l r cur Hi Hc Hdc _ IH].
  - apply scan_exhausted; lia.
  - apply scan_missing; [lia | rewrite (static_child_ref _ _ i Hs); exact Hc].
  - eapply scan_stop; [lia | rewrite (static_child_ref _ _ i Hs); exact Hc | exact Hcs | exact Hdc].
  - eapply scan_advance; [lia | rewrite (static_child_ref _ _ i Hs); exact Hc | exact Hdc | exact IH].
Qed.

Lemma spec_composite_post adv rec a n m :
  rec_ok rk rec (rk a) -> is_terminal adv = true ->
  tree_ok rk (heap m) -> heap m !! a = Some n ->
  exists r m',
    spec_composite hook_code rec adv a m = Done r m' /\
    composite_post rk adv a n m r m'.
Proof.
  intros Hrec Hadv Hok Ha; unfold spec_composite.
  destruct (code_entry_done a n m Ha) as [w Hw].
  pose proof (spec_entry_code a n m Ha) as He; rewrite Hw in He; clear Hw.
  rewrite (bind_done _ _ _ _ _ He); clear He.
  set (n1 := if is_running (status n) then n else set_current_child n 0) in *.
  set (m1 := mk_machine _ w _).
  assert (Hs : static n1 = static n) by (subst n1; destruct (is_running (status n)); reflexivity).
  assert (Ha1 : heap m1 !! a = Some n1) by apply lookup_insert_eq.
  assert (Hf1 : heap_frame (heap m) (heap m1)) by (eapply heap_frame_insert; eassumption).
  assert (Hok1 : tree_ok rk (heap m1)) by (eapply tree_ok_insert; eassumption).
  assert (Hcur1 : current_child n1 = if is_running (status n) then current_child n else 0%N)
    by (subst n1; destruct (is_running (status n)); reflexivity).
  rewrite (bind_done _ _ _ _ _ (load_done _ _ _ Ha1)).
  destruct (spec_scan_post adv rec a n1 Hrec Hadv _ _ m1 n1 Hok1 Ha1 eq_refl eq_refl eq_refl)
    as (r & m' & Hrun & l & c & n' & Hscan & Htr & Ha' & Hs' & Hst & Hcc & Hf & Hout & Hcur).
  exists r, m'; split; [exact Hrun |].
  rewrite Hcur1 in Hscan; apply (scan_trace_static adv a n1 n) in Hscan;
    [| symmetry; exact Hs].
  rewrite (exit_events_static a n n1 r Hs) in Htr.
  exists l, c, n'.
  split; [exact Hscan |].
  split; [rewrite Htr; subst m1; cbn [trace]; norm_app; reflexivity |].
  split; [exact Ha' |].
  split; [congruence |].
  split; [exact Hst |].
  split; [exact Hcc |].
  split; [eapply heap_frame_trans; eassumption |].
  split.
  { intros b Hb; rewrite Hout.
    - subst m1; cbn [heap]; apply outside_insert; exact Hb.
    - intros Hd; apply Hb; eapply descendant_frame; [| exact Hd].
      apply heap_frame_sym; exact Hf1. }
  split.
  { intros Hc0; apply Hcur; subst m1; cbn [heap].
    apply cursors_ok_insert; [exact Hc0 |].
    specialize (Hc0 a n Ha); subst n1; destruct (is_running (status n)); cbn; lia. }
  eexists; split; [rewrite Htr; subst m1; cbn [trace]; norm_app; reflexivity |].
  apply below_app; [apply below_enter |].
  apply below_app; [eapply scan_trace_below; exact Hscan | apply below_exit].
Qed.

Lemma frame_post_refl a m : frame_post rk a m m.
Proof.
  split; [apply heap_frame_refl |]; split; [reflexivity |]; split; [tauto |].
  exists []; split; [rewrite app_nil_r; reflexivity | constructor].
Qed.

(** A tick that only rewrites the status of its own node. *)
Lemma frame_post_status a n s m w t d :
  heap m !! a = Some n -> t = trace m ++ d -> below rk (S (rk a)) d ->
  frame_post rk a m (mk_machine (<[a := set_status n s]> (heap m)) w t).
Proof.
  intros Ha -> Hd; unfold frame_post; cbn [heap trace].
  split; [eapply heap_frame_insert; [exact Ha | reflexivity] |].
  split; [intros b Hb; apply outside_insert; exact Hb |].
  split; [intros Hc; apply cursors_ok_insert; [exact Hc | exact (Hc a n Ha)] |].
  exists d; split; [reflexivity | exact Hd].
Qed.

(** A tick that leaves the store as it is. *)
Lemma frame_post_trace a m w t d :
  t = trace m ++ d -> below rk (S (rk a)) d ->
  frame_post rk a m (mk_machine (heap m) w t).
Proof.
  intros -> Hd; unfold frame_post; cbn [heap trace].
  split; [apply heap_frame_refl |]; split; [reflexivity |]; split; [tauto |].
  exists d; split; [reflexivity | exact Hd].
Qed.

Lemma bt_tick_leaf_done a n m :
  heap m !! a = Some n ->
  exists r w,
    bt_tick_leaf tick_code (Some a) m
    = Done r (mk_machine (<[a := set_status n r]> (heap m)) w
                (trace m ++ match tick n with Some _ => [EvLeaf a r] | None => [] end)) /\
    (tick n = None -> r = BT_ERROR).
Proof.
  intros Ha; unfold bt_tick_leaf.
  rewrite (bind_done _ _ _ _ _ (load_done _ _ _ Ha)).
  destruct (tick n) as [f |].
  - rewrite (bind_done _ _ _ _ _ (call_tick_done f a m)).
    erewrite bind_done by (apply write_status_done; exact Ha).
    eexists _, _; split; [reflexivity | discriminate].
  - erewrite bind_done by (apply write_status_done; exact Ha).
    exists BT_ERROR, (world m); rewrite app_nil_r; split; reflexivity.
Qed.

Lemma bt_tick_inverter_invalid rec a n m :
  heap m !! a = Some n -> children_count n <> UINT16_ONE ->
  bt_tick_inverter hook_code rec (Some a) m = Done BT_ERROR m.
Proof.
  intros Ha Hn; unfold bt_tick_inverter.
  rewrite (bind_done _ _ _ _ _ (load_done _ _ _ Ha)).
  apply N.eqb_neq in Hn; rewrite Hn; reflexivity.
Qed.

Lemma inverter_entry_done a n m :
  heap m !! a = Some n ->
  exists w,
    (if is_running (status n) then ret tt else bt_call_enter hook_code (Some a)) m
    = Done tt (mk_machine (heap m) w
                 (trace m ++ enter_events a n (negb (is_running (status n))))).
Proof.
  intros Ha; destruct (is_running (status n)); cbn [negb].
  - exists (world m); unfold ret, enter_events; rewrite app_nil_r; destruct m; reflexivity.
  - apply bt_call_enter_done; exact Ha.
Qed.

Lemma bt_tick_inverter_missing rec a n m :
  heap m !! a = Some n -> node_ok n ->
  children_count n = UINT16_ONE -> child_ref n 0 = None ->
  exists w,
    bt_tick_inverter hook_code rec (Some a) m
    = Done BT_ERROR (mk_machine (heap m) w
                       (trace m ++ enter_events a n (negb (is_running (status n))))).
Proof.
  intros Ha Hnode Hn Hc; unfold bt_tick_inverter.
  rewrite (bind_done _ _ _ _ _ (load_done _ _ _ Ha)).
  rewrite Hn; cbn [N.eqb Pos.eqb UINT16_ONE negb].
  rewrite (bind_done _ _ _ _ _ (bt_child_at_done a n _ m Ha Hnode)).
  unfold UINT16_ZERO; rewrite Hc.
  destruct (inverter_entry_done a n m Ha) as [w Hw].
  exists w; rewrite (bind_done _ _ _ _ _ Hw); reflexivity.
Qed.

Lemma bt_tick_inverter_valid rec a n c m :
  rec_ok rk rec (rk a) -> tree_ok rk (heap m) -> heap m !! a = Some n ->
  children_count n = UINT16_ONE -> child_ref n 0 = Some c ->
  exists r m',
    bt_tick_inverter hook_code rec (Some a) m = Done r m' /\
    inverter_post rk rec a c n m r m'.
Proof.
  intros Hrec Hok Ha Hn Hc; unfold bt_tick_inverter.
  destruct (Hok a n Ha) as [Hnode Hch]; destruct (Hch 0%N c Hc) as [Hrk Hsome].
  rewrite (bind_done _ _ _ _ _ (load_done _ _ _ Ha)).
  rewrite Hn; cbn [N.eqb Pos.eqb UINT16_ONE negb].
  rewrite (bind_done _ _ _ _ _ (bt_child_at_done a n _ m Ha Hnode)).
  unfold UINT16_ZERO; rewrite Hc.
  destruct (inverter_entry_done a n m Ha) as [w Hw].
  rewrite (bind_done _ _ _ _ _ Hw), (bind_done _ _ _ _ _ (log_done _ _)); clear Hw.
  cbn [heap world trace].
  set (m1 := mk_machine (heap m) w _).
  destruct (Hrec c m1) as (cs & m2 & Hrun & Hpost); [exact Hok | exact Hsome | exact Hrk |].
  pose proof (child_keeps_parent a c m1 m2 n Hok Hrk Hpost Ha) as Ha2.
  destruct Hpost as (Hf2 & Hout2 & Hcur2 & dc & Htr2 & Hbel2); cbn [heap trace] in *.
  rewrite (bind_done _ _ _ _ _ Hrun), (bind_done _ _ _ _ _ (log_done _ _)).
  set (r := match cs with BT_SUCCESS => BT_FAILURE | BT_FAILURE => BT_SUCCESS | _ => cs end).
  assert (Hr : r = invert cs) by (destruct cs; reflexivity).
  erewrite bind_done by (apply write_status_done; exact Ha2).
  cbn [heap world trace].
  assert (Hexit : exists w',
    (if is_terminal r then bt_call_exit hook_code (Some a) else ret tt)
      (mk_machine (<[a := set_status n r]> (heap m2)) (world m2) (trace m2 ++ [EvRet a 0 cs]))
    = Done tt (mk_machine (<[a := set_status n r]> (heap m2)) w'
                 ((trace m2 ++ [EvRet a 0 cs]) ++ exit_events a n r))).
  { unfold exit_events; destruct (is_terminal r).
    - destruct (bt_call_exit_done a (set_status n r)
                  (mk_machine (<[a := set_status n r]> (heap m2)) (world m2)
                     (trace m2 ++ [EvRet a 0 cs]))) as [w' Hw']; [apply lookup_insert_eq |].
      exists w'; exact Hw'.
    - exists (world m2); unfold ret; rewrite app_nil_r; reflexivity. }
  destruct Hexit as [w' Hw']; rewrite (bind_done _ _ _ _ _ Hw'); clear Hw'.
  eexists _, _; split; [reflexivity |].
  assert (Hdc : below rk (rk a) dc) by (eapply below_weaken; [| exact Hbel2]; lia).
  exists cs, dc, (set_status n r); cbn [heap trace].
  split; [exact Hr |].
  split; [exact Hdc |].
  split; [exists w, m2; rewrite <- Hrun; subst m1; norm_app; reflexivity |].
  split; [rewrite Htr2; subst m1; cbn [trace]; norm_app; reflexivity |].
  split; [apply lookup_insert_eq |].
  split; [reflexivity |].
  split; [reflexivity |].
  split; [reflexivity |].
  unfold frame_post; cbn [heap trace].
  split; [eapply heap_frame_trans; [exact Hf2 |];
          eapply heap_frame_insert; [exact Ha2 | reflexivity] |].
  split.
  { intros b Hb; rewrite outside_insert.
    - apply Hout2; intros Hd; apply Hb.
      eapply desc_child; [exact Ha | exact Hc | exact Hd].
    - intros Hd; apply Hb; eapply descendant_frame; [| exact Hd].
      apply heap_frame_sym; exact Hf2. }
  split.
  { intros Hc0; apply cursors_ok_insert; [exact (Hcur2 Hc0) | exact (Hc0 a n Ha)]. }
  eexists; split; [rewrite Htr2; subst m1; cbn [trace]; norm_app; reflexivity |].
  apply below_app; [apply below_enter |].
  constructor; [cbn; lia |].
  apply below_app; [eapply below_weaken; [| exact Hdc]; lia |].
  constructor; [cbn; lia | apply below_exit].
Qed.

Lemma rec_ok_weaken (rec : ptr -> M W bt_status_t) b b' : b' <= b -> rec_ok rk rec b -> rec_ok rk rec b'.
Proof. intros Hle H c m Hok Hc Hlt; apply H; [exact Hok | exact Hc | lia]. Qed.

Lemma bt_tick_internal_body_frame rec a n m :
  rec_ok rk rec (rk a) -> tree_ok rk (heap m) -> heap m !! a = Some n ->
  exists r m',
    bt_tick_internal_body tick_code hook_code rec (Some a) m = Done r m' /\ frame_post rk a m m'.
Proof.
  intros Hrec Hok Ha; unfold bt_tick_internal_body.
  rewrite (bind_done _ _ _ _ _ (load_done _ _ _ Ha)).
  assert (Hleaf : exists r m',
            bt_tick_leaf tick_code (Some a) m = Done r m' /\ frame_post rk a m m').
  { destruct (bt_tick_leaf_done a n m Ha) as (r & w & Hrun & _).
    eexists _, _; split; [exact Hrun |].
    eapply frame_post_status; [exact Ha | reflexivity |].
    apply below_own; destruct (tick n); repeat constructor. }
  destruct (type n) eqn:Hty.
  - exact Hleaf.
  - exact Hleaf.
  - rewrite (bt_tick_sequence_refines rec a n m Hrec Hok Ha), spec_sequence_composite.
    destruct (spec_composite_post BT_SUCCESS rec a n m Hrec eq_refl Hok Ha)
      as (r & m' & Hrun & l & cur & n' & _ & _ & _ & _ & _ & _ & Hpost).
    eauto.
  - rewrite (bt_tick_selector_refines rec a n m Hrec Hok Ha), spec_selector_composite.
    destruct (spec_composite_post BT_FAILURE rec a n m Hrec eq_refl Hok Ha)
      as (r & m' & Hrun & l & cur & n' & _ & _ & _ & _ & _ & _ & Hpost).
    eauto.
  - destruct (decide (children_count n = UINT16_ONE)) as [Hn | Hn].
    + destruct (child_ref n 0) as [c |] eqn:Hc.
      * destruct (bt_tick_inverter_valid rec a n c m Hrec Hok Ha Hn Hc)
          as (r & m' & Hrun & cs & dc & n' & _ & _ & _ & _ & _ & _ & _ & _ & Hpost).
        eauto.
      * destruct (bt_tick_inverter_missing rec a n m Ha (proj1 (Hok a n Ha)) Hn Hc)
          as [w Hw].
        eexists _, _; split; [exact Hw |].
        eapply frame_post_trace; [reflexivity | apply below_enter].
    + rewrite (bt_tick_inverter_invalid rec a n m Ha Hn).
      eexists _, _; split; [reflexivity | apply frame_post_refl].
  - erewrite bind_done by (apply write_status_done; exact Ha).
    eexists _, _; split; [reflexivity |].
    eapply frame_post_status; [exact Ha | symmetry; apply app_nil_r | constructor].
Qed.

(** Every tick on a node of a well-formed store returns, given fuel above
    the node's rank. *)
Lemma bt_tick_internal_ok fuel :
  rec_ok rk (bt_tick_internal tick_code hook_code fuel) fuel.
Proof.
  induction fuel as [| fuel IH]; intros c m Hok [n Hn] Hlt; [lia |].
  cbn [bt_tick_internal]; apply bt_tick_internal_body_frame with n; [| exact Hok | exact Hn].
  eapply rec_ok_weaken; [| exact IH]; lia.
Qed.

(** ** Reading the log of a scan *)

Lemma below_not_own a dc e : below rk (rk a) dc -> In e dc -> ev_node e <> a.
Proof.
  intros Hb He Heq; unfold below in Hb; rewrite List.Forall_forall in Hb.
  specialize (Hb e He); rewrite Heq in Hb; lia.
Qed.

(** Slots are visited in increasing order from the starting slot. *)
Lemma scan_trace_indices adv a n i l r (cur : N) :
  scan_trace rk adv a n i l r cur ->
  (forall j, In (EvChild a j) l -> (i <= j)%N) /\
  (forall j cs, In (EvRet a j cs) l -> (i <= j)%N) /\
  (i <= cur)%N.
Proof.
  induction 1 as [i Hi | i Hi Hc | i c dc cs Hi Hc Hcs Hdc
                 | i c dc l r cur Hi Hc Hdc _ (IH1 & IH2 & IH3)].
  - repeat split; [intros j [] | intros j cs [] | lia].
  - repeat split; [intros j [] | intros j cs [] | lia].
  - repeat split; [| | lia].
    + intros j [Hj | Hj]; [injection Hj as <-; lia |].
      apply in_app_or in Hj as [Hj | [Hj | []]]; [| discriminate].
      exfalso; exact (below_not_own a dc _ Hdc Hj eq_refl).
    + intros j cs' [Hj | Hj]; [discriminate |].
      apply in_app_or in Hj as [Hj | [Hj | []]]; [| injection Hj as <- _; lia].
      exfalso; exact (below_not_own a dc _ Hdc Hj eq_refl).
  - repeat split; [| | lia].
    + intros j [Hj | Hj]; [injection Hj as <-; lia |].
      apply in_app_or in Hj as [Hj | [Hj | Hj]]; [| discriminate |].
      * exfalso; exact (below_not_own a dc _ Hdc Hj eq_refl).
      * specialize (IH1 j Hj); lia.
    + intros j cs' [Hj | Hj]; [discriminate |].
      apply in_app_or in Hj as [Hj | [Hj | Hj]]; [| injection Hj as <- _; lia |].
      * exfalso; exact (below_not_own a dc _ Hdc Hj eq_refl).
      * specialize (IH2 j cs' Hj); lia.
Qed.

(** A child result other than the advancing one ends the scan: it is the
    composite's result, the cursor stays on that slot, and no later slot
    is ticked. *)
Lemma scan_trace_stop_at adv a n i l r (cur : N) k cs0 :
  scan_trace rk adv a n i l r cur -> cs0 <> adv -> In (EvRet a k cs0) l ->
  r = cs0 /\ cur = k /\ (k < children_count n)%N /\ is_Some (child_ref n k) /\
  forall j, In (EvChild a j) l -> (j <= k)%N.
Proof.
  intros Hscan Hne; induction Hscan as [i Hi | i Hi Hc | i c dc cs Hi Hc Hcs Hdc
                                       | i c dc l r cur Hi Hc Hdc Hscan IH]; intros Hin.
  - destruct Hin.
  - destruct Hin.
  - destruct Hin as [Hin | Hin]; [discriminate |].
    apply in_app_or in Hin as [Hin | [Hin | []]].
    { exfalso; exact (below_not_own a dc _ Hdc Hin eq_refl). }
    injection Hin as -> ->.
    repeat split; [exact Hi | eauto |].
    intros j [Hj | Hj]; [injection Hj as <-; lia |].
    apply in_app_or in Hj as [Hj | [Hj | []]]; [| discriminate].
    exfalso; exact (below_not_own a dc _ Hdc Hj eq_refl).
  - destruct Hin as [Hin | Hin]; [discriminate |].
    apply in_app_or in Hin as [Hin | [Hin | Hin]].
    { exfalso; exact (below_not_own a dc _ Hdc Hin eq_refl). }
    { injection Hin as _ Heq; congruence. }
    destruct (IH Hin) as (Hr & Hcur & Hk & Hck & Hle).
    repeat split; [exact Hr | exact Hcur | exact Hk | exact Hck |].
    destruct (scan_trace_indices _ _ _ _ _ _ _ Hscan) as (_ & Hge & _).
    specialize (Hge k cs0 Hin).
    intros j [Hj | Hj]; [injection Hj as <-; lia |].
    apply in_app_or in Hj as [Hj | [Hj | Hj]]; [| discriminate |].
    + exfalso; exact (below_not_own a dc _ Hdc Hj eq_refl).
    + exact (Hle j Hj).
Qed.

(** A scan that starts on a slot holding a child begins by ticking it. *)
Lemma scan_trace_head adv a n i l r (cur : N) :
  scan_trace rk adv a n i l r cur ->
  (i < children_count n)%N -> is_Some (child_ref n i) ->
  exists rest, l = EvChild a i :: rest.
Proof.
  intros Hscan Hi [c Hc]; destruct Hscan; try lia; try congruence; eauto.
Qed.

(** A scan fires no hook of its own node. *)
Lemma hooks_of_below a dc : below rk (rk a) dc -> hooks_of a dc = [].
Proof.
  unfold below, hooks_of; induction 1 as [| e dc He _ IH]; [reflexivity |].
  cbn [List.filter]; rewrite IH.
  destruct e; cbn in *; try reflexivity;
    rewrite bool_decide_eq_false_2 by (intros ->; lia); reflexivity.
Qed.

Lemma hooks_of_app a d1 d2 : hooks_of a (d1 ++ d2) = hooks_of a d1 ++ hooks_of a d2.
Proof. apply List.filter_app. Qed.

Lemma scan_trace_hooks adv a n i l r (cur : N) :
  scan_trace rk adv a n i l r cur -> hooks_of a l = [].
Proof.
  induction 1 as [i Hi | i Hi Hc | i c dc cs Hi Hc Hcs Hdc
                 | i c dc l r cur Hi Hc Hdc _ IH]; try reflexivity.
  - change (hooks_of a (dc ++ [EvRet a i cs]) = []).
    rewrite hooks_of_app, (hooks_of_below a dc Hdc); reflexivity.
  - change (hooks_of a (dc ++ EvRet a i adv :: l) = []).
    rewrite hooks_of_app, (hooks_of_below a dc Hdc); exact IH.
Qed.

(** The cursor ends within the count, and on the count exactly when the
    scan ran out of children. *)
Lemma scan_trace_cursor adv a n i l r (cur : N) :
  scan_trace rk adv a n i l r cur -> adv <> BT_ERROR ->
  (i <= children_count n)%N ->
  (cur <= children_count n)%N /\ (cur = children_count n <-> r = adv).
Proof.
  intros Hscan Hadv; induction Hscan as [i Hi | i Hi Hc | i c dc cs Hi Hc Hcs Hdc
                                        | i c dc l r cur Hi Hc Hdc _ IH]; intros Hle.
  - split; [lia |]; split; [reflexivity | lia].
  - split; [lia |]; split; [lia | congruence].
  - split; [lia |]; split; [lia | congruence].
  - apply IH; lia.
Qed.

Lemma scan_trace_no_children adv a n i l r (cur : N) :
  scan_trace rk adv a n i l r cur -> children_count n = 0%N ->
  r = adv /\ l = [].
Proof. intros Hscan Hn; destruct Hscan; try lia; split; reflexivity. Qed.

Lemma hooks_of_enter a n b : hooks_of a (enter_events a n b) = enter_events a n b.
Proof.
  unfold enter_events; destruct b; [destruct (on_enter n) |]; try reflexivity.
  cbn; rewrite bool_decide_eq_true_2; reflexivity.
Qed.

Lemma hooks_of_exit a n r : hooks_of a (exit_events a n r) = exit_events a n r.
Proof.
  unfold exit_events; destruct (is_terminal r); [destruct (on_exit n) |]; try reflexivity.
  cbn; rewrite bool_decide_eq_true_2; reflexivity.
Qed.

(** ** One tick of each kind of node, through the public entry point *)

Lemma bt_tick_composite fuel a n m adv :
  tree_ok rk (heap m) -> heap m !! a = Some n ->
  (type n = BT_SEQUENCE /\ adv = BT_SUCCESS \/
   type n = BT_SELECTOR /\ adv = BT_FAILURE) ->
  rk a < fuel ->
  exists r m',
    bt_tick tick_code hook_code fuel (Some a) m = Done r m' /\
    spec_composite hook_code (bt_tick_internal tick_code hook_code (pred fuel)) adv a m
    = Done r m' /\
    composite_post rk adv a n m r m'.
Proof.
  intros Hok Ha Hty Hfuel; destruct fuel as [| fuel]; [lia |].
  assert (Hrec : rec_ok rk (bt_tick_internal tick_code hook_code fuel) (rk a)).
  { eapply rec_ok_weaken; [| apply bt_tick_internal_ok]; lia. }
  cbn [bt_tick bt_tick_internal pred]; unfold bt_tick_internal_body.
  rewrite (bind_done _ _ _ _ _ (load_done _ _ _ Ha)).
  destruct Hty as [[Hty ->] | [Hty ->]]; rewrite Hty.
  - rewrite (bt_tick_sequence_refines _ a n m Hrec Hok Ha), spec_sequence_composite.
    destruct (spec_composite_post BT_SUCCESS _ a n m Hrec eq_refl Hok Ha)
      as (r & m' & Hrun & Hpost); eauto.
  - rewrite (bt_tick_selector_refines _ a n m Hrec Hok Ha), spec_selector_composite.
    destruct (spec_composite_post BT_FAILURE _ a n m Hrec eq_refl Hok Ha)
      as (r & m' & Hrun & Hpost); eauto.
Qed.

Lemma bt_tick_inverter_child fuel a n c m :
  tree_ok rk (heap m) -> heap m !! a = Some n -> type n = BT_INVERTER ->
  children_count n = UINT16_ONE -> child_ref n 0 = Some c -> rk a < fuel ->
  exists r m',
    bt_tick tick_code hook_code fuel (Some a) m = Done r m' /\
    inverter_post rk (bt_tick_internal tick_code hook_code (pred fuel)) a c n m r m'.
Proof.
  intros Hok Ha Hty Hn Hc Hfuel; destruct fuel as [| fuel]; [lia |].
  assert (Hrec : rec_ok rk (bt_tick_internal tick_code hook_code fuel) (rk a)).
  { eapply rec_ok_weaken; [| apply bt_tick_internal_ok]; lia. }
  cbn [bt_tick bt_tick_internal pred]; unfold bt_tick_internal_body.
  rewrite (bind_done _ _ _ _ _ (load_done _ _ _ Ha)), Hty.
  exact (bt_tick_inverter_valid _ a n c m Hrec Hok Ha Hn Hc).
Qed.

Lemma bt_tick_inverter_no_child fuel a n m :
  tree_ok rk (heap m) -> heap m !! a = Some n -> type n = BT_INVERTER ->
  ~ has_one_child n -> 0 < fuel ->
  exists w d,
    bt_tick tick_code hook_code fuel (Some a) m
    = Done BT_ERROR (mk_machine (heap m) w (trace m ++ d)) /\
    (forall e, In e d -> e = EvEnter a) /\
    (children_count n <> UINT16_ONE -> d = [] /\ w = world m).
Proof.
  intros Hok Ha Hty Hno Hfuel; destruct fuel as [| fuel]; [lia |].
  cbn [bt_tick bt_tick_internal]; unfold bt_tick_internal_body.
  rewrite (bind_done _ _ _ _ _ (load_done _ _ _ Ha)), Hty.
  destruct (decide (children_count n = UINT16_ONE)) as [Hn | Hn].
  - destruct (child_ref n 0) as [c |] eqn:Hc.
    { exfalso; apply Hno; split; eauto. }
    destruct (bt_tick_inverter_missing (bt_tick_internal tick_code hook_code fuel)
                a n m Ha (proj1 (Hok a n Ha)) Hn Hc) as [w Hw].
    eexists _, _; split; [exact Hw |]; split; [| contradiction].
    intros e He; unfold enter_events in He.
    destruct (negb _); [destruct (on_enter n) |]; cbn in He; intuition.
  - rewrite (bt_tick_inverter_invalid _ a n m Ha Hn).
    exists (world m), []; rewrite app_nil_r; split; [destruct m; reflexivity |].
    split; [intros e [] | split; reflexivity].
Qed.

Lemma bt_tick_inverter_null_slot fuel a n m :
  tree_ok rk (heap m) -> heap m !! a = Some n -> type n = BT_INVERTER ->
  children_count n = UINT16_ONE -> child_ref n 0 = None -> 0 < fuel ->
  exists w,
    bt_tick tick_code hook_code fuel (Some a) m
    = Done BT_ERROR
        (mk_machine (heap m) w
           (trace m ++ enter_events a n (negb (is_running (status n))))).
Proof.
  intros Hok Ha Hty Hn Hc Hfuel; destruct fuel as [| fuel]; [lia |].
  cbn [bt_tick bt_tick_internal]; unfold bt_tick_internal_body.
  rewrite (bind_done _ _ _ _ _ (load_done _ _ _ Ha)), Hty.
  exact (bt_tick_inverter_missing _ a n m Ha (proj1 (Hok a n Ha)) Hn Hc).
Qed.

(** Every tick through the public entry point returns and keeps the frame. *)
Lemma bt_tick_frame fuel a m :
  tree_ok rk (heap m) -> is_Some (heap m !! a) -> rk a < fuel ->
  exists r m',
    bt_tick tick_code hook_code fuel (Some a) m = Done r m' /\ frame_post rk a m m'.
Proof. intros Hok Ha Hfuel; exact (bt_tick_internal_ok fuel a m Hok Ha Hfuel). Qed.

(** ** Sequence, Selector and Inverter (sections 4.3 to 4.5) *)

(** C2. One tick of a Sequence node returns, and is the tick of section
    4.3: a fresh entry (status not Running) resets the cursor to 0 and
    fires on_enter; the children are then ticked in increasing slot order
    from the cursor; a child's Running, Failure or Error, and a missing
    child (Error), stop the scan with that result, with the cursor on that
    slot and the status equal to the result; a child's Success moves the
    cursor to the next slot; running out of children gives status and
    result Success, so a Sequence without children returns Success. *)
Theorem sequence_tick_spec fuel a n m :
  tree_ok rk (heap m) -> heap m !! a = Some n -> type n = BT_SEQUENCE ->
  rk a < fuel ->
  exists r m',
    bt_tick tick_code hook_code fuel (Some a) m = Done r m' /\
    spec_sequence hook_code (bt_tick_internal tick_code hook_code (pred fuel)) a m
    = Done r m' /\
    composite_post rk BT_SUCCESS a n m r m' /\
    (children_count n = 0%N -> r = BT_SUCCESS).
Proof.
  intros Hok Ha Hty Hfuel.
  destruct (bt_tick_composite fuel a n m BT_SUCCESS Hok Ha (or_introl (conj Hty eq_refl)) Hfuel)
    as (r & m' & Hrun & Hspec & Hpost).
  exists r, m'; split; [exact Hrun |].
  split; [rewrite spec_sequence_composite; exact Hspec |].
  split; [exact Hpost |].
  intros Hn; destruct Hpost as (l & cur & n' & Hscan & _).
  exact (proj1 (scan_trace_no_children _ _ _ _ _ _ _ Hscan Hn)).
Qed.

(** C3. One tick of a Selector node returns, and is the tick of section
    4.4, the Sequence's with the roles of Success and Failure swapped: a
    child's Running, Success or Error (and a missing child, Error) stop the
    scan with that result; a child's Failure moves the cursor to the next
    slot; running out of children gives status and result Failure, so a
    Selector without children returns Failure. *)
Theorem selector_tick_spec fuel a n m :
  tree_ok rk (heap m) -> heap m !! a = Some n -> type n = BT_SELECTOR ->
  rk a < fuel ->
  exists r m',
    bt_tick tick_code hook_code fuel (Some a) m = Done r m' /\
    spec_selector hook_code (bt_tick_internal tick_code hook_code (pred fuel)) a m
    = Done r m' /\
    composite_post rk BT_FAILURE a n m r m' /\
    (children_count n = 0%N -> r = BT_FAILURE).
Proof.
  intros Hok Ha Hty Hfuel.
  destruct (bt_tick_composite fuel a n m BT_FAILURE Hok Ha (or_intror (conj Hty eq_refl)) Hfuel)
    as (r & m' & Hrun & Hspec & Hpost).
  exists r, m'; split; [exact Hrun |].
  split; [rewrite spec_selector_composite; exact Hspec |].
  split; [exact Hpost |].
  intros Hn; destruct Hpost as (l & cur & n' & Hscan & _).
  exact (proj1 (scan_trace_no_children _ _ _ _ _ _ _ Hscan Hn)).
Qed.

(** C4. One tick of an Inverter node returns.  Without exactly one child
    reference the result is Error, the store is untouched and no child is
    ticked (the log gains at most the node's own on_enter).  With its one
    child [c], the result is the child's result with Success and Failure
    swapped and Running and Error passed through, and it is stored in the
    node's status. *)
Theorem inverter_tick_spec fuel a n m :
  tree_ok rk (heap m) -> heap m !! a = Some n -> type n = BT_INVERTER ->
  rk a < fuel ->
  exists r m',
    bt_tick tick_code hook_code fuel (Some a) m = Done r m' /\
    (~ has_one_child n ->
       r = BT_ERROR /\ heap m' = heap m /\
       exists d, trace m' = trace m ++ d /\ forall e, In e d -> e = EvEnter a) /\
    (forall c, children_count n = UINT16_ONE -> child_ref n 0 = Some c ->
       inverter_post rk (bt_tick_internal tick_code hook_code (pred fuel)) a c n m r m').
Proof.
  intros Hok Ha Hty Hfuel.
  destruct (decide (children_count n = UINT16_ONE)) as [Hn | Hn];
    [destruct (child_ref n 0) as [c |] eqn:Hc |].
  - destruct (bt_tick_inverter_child fuel a n c m Hok Ha Hty Hn Hc Hfuel)
      as (r & m' & Hrun & Hpost).
    exists r, m'; split; [exact Hrun |]; split.
    + intros Hno; exfalso; apply Hno; split; eauto.
    + intros c' _ Hc'; injection Hc' as <-; exact Hpost.
  - assert (Hno : ~ has_one_child n) by (intros [_ [c Hc']]; congruence).
    destruct (bt_tick_inverter_no_child fuel a n m Hok Ha Hty Hno ltac:(lia))
      as (w & d & Hrun & Hd & _).
    eexists _, _; split; [exact Hrun |]; split.
    + intros _; cbn [heap trace]; repeat split; eauto.
    + intros c _ Hc'; congruence.
  - assert (Hno : ~ has_one_child n) by (intros [Hn' _]; contradiction).
    destruct (bt_tick_inverter_no_child fuel a n m Hok Ha Hty Hno ltac:(lia))
      as (w & d & Hrun & Hd & _).
    eexists _, _; split; [exact Hrun |]; split.
    + intros _; cbn [heap trace]; repeat split; eauto.
    + intros c Hn' _; contradiction.
Qed.

(** ** Resumption, errors and the cursor (sections 3, 7 and 8) *)

Lemma in_enter_events a n b e : In e (enter_events a n b) -> e = EvEnter a.
Proof.
  unfold enter_events; destruct b; [destruct (on_enter n) |]; cbn; intuition.
Qed.

Lemma in_exit_events a n r e : In e (exit_events a n r) -> e = EvExit a r.
Proof.
  unfold exit_events; destruct (is_terminal r); [destruct (on_exit n) |]; cbn; intuition.
Qed.

(** In the log of a composite's tick, the child events of the composite
    are those of its scan. *)
Lemma in_composite_log a n b l r e :
  In e (enter_events a n b ++ l ++ exit_events a n r) ->
  (forall s, e <> EvEnter s) -> (forall s t, e <> EvExit s t) -> In e l.
Proof.
  intros Hin Hne Hnx.
  apply in_app_or in Hin as [Hin | Hin]; [apply in_enter_events in Hin; congruence |].
  apply in_app_or in Hin as [Hin | Hin]; [exact Hin |].
  apply in_exit_events in Hin; congruence.
Qed.

(** C5. Resumption law.  If during a tick of a Sequence or Selector the
    child in slot [k] returns Running, the composite returns Running with
    its status Running and its cursor on [k]; the next tick of the
    composite returns, begins by ticking the child in slot [k], and ticks
    no child in a slot before [k]. *)
Theorem resumption_law fuel a n m r m1 d k :
  tree_ok rk (heap m) -> heap m !! a = Some n ->
  type n = BT_SEQUENCE \/ type n = BT_SELECTOR -> rk a < fuel ->
  bt_tick tick_code hook_code fuel (Some a) m = Done r m1 ->
  trace m1 = trace m ++ d -> In (EvRet a k BT_RUNNING) d ->
  r = BT_RUNNING /\
  (exists n1, heap m1 !! a = Some n1 /\ status n1 = BT_RUNNING /\
              current_child n1 = k) /\
  exists r2 m2 rest,
    bt_tick tick_code hook_code fuel (Some a) m1 = Done r2 m2 /\
    trace m2 = trace m1 ++ EvChild a k :: rest /\
    forall j, In (EvChild a j) (EvChild a k :: rest) -> (k <= j)%N.
Proof.
  intros Hok Ha Hty Hfuel Hrun Htr Hin.
  assert (Hadv : exists adv,
            (type n = BT_SEQUENCE /\ adv = BT_SUCCESS \/
             type n = BT_SELECTOR /\ adv = BT_FAILURE) /\ BT_RUNNING <> adv).
  { destruct Hty as [Hty | Hty]; [exists BT_SUCCESS | exists BT_FAILURE];
      split; auto; discriminate. }
  destruct Hadv as (adv & Hkind & Hne).
  destruct (bt_tick_composite fuel a n m adv Hok Ha Hkind Hfuel)
    as (r' & m' & Hrun' & _ & l & cur & n1 & Hscan & Htr' & Ha1 & Hs1 & Hst & Hcur & Hpost).
  rewrite Hrun in Hrun'; injection Hrun' as <- <-.
  rewrite Htr in Htr'; apply app_inv_head in Htr'; subst d.
  apply in_composite_log in Hin; [| discriminate | discriminate].
  destruct (scan_trace_stop_at _ _ _ _ _ _ _ k BT_RUNNING Hscan Hne Hin)
    as (Hr & -> & Hk & Hck & _).
  rewrite Hr in Hst.
  split; [exact Hr |].
  split; [exists n1; auto |].
  assert (Hok1 : tree_ok rk (heap m1)).
  { destruct Hpost as [Hf _]; exact (tree_ok_frame _ _ _ Hf Hok). }
  assert (Hkind1 : type n1 = BT_SEQUENCE /\ adv = BT_SUCCESS \/
                   type n1 = BT_SELECTOR /\ adv = BT_FAILURE).
  { apply static_fields in Hs1; destruct Hs1 as (Hty1 & _); rewrite Hty1; exact Hkind. }
  destruct (bt_tick_composite fuel a n1 m1 adv Hok1 Ha1 Hkind1 Hfuel)
    as (r2 & m2 & Hrun2 & _ & l2 & cur2 & n2 & Hscan2 & Htr2 & _).
  rewrite Hst in Hscan2, Htr2; cbn [is_running negb enter_events] in Hscan2, Htr2.
  rewrite Hcur in Hscan2.
  destruct (scan_trace_head _ _ _ _ _ _ _ Hscan2) as [rest Hrest].
  { rewrite (static_children_count _ _ Hs1); exact Hk. }
  { rewrite (static_child_ref _ _ _ Hs1); exact Hck. }
  exists r2, m2, (rest ++ exit_events a n1 r2).
  split; [exact Hrun2 |].
  split; [rewrite Htr2, Hrest; reflexivity |].
  intros j Hj.
  destruct (scan_trace_indices _ _ _ _ _ _ _ Hscan2) as (Hge & _).
  apply Hge; rewrite Hrest.
  destruct Hj as [Hj | Hj]; [left; exact Hj | right].
  apply in_app_or in Hj as [Hj | Hj]; [exact Hj |].
  apply in_exit_events in Hj; discriminate.
Qed.

(** C8. A child's Error ends the scan of a Sequence and of a Selector
    alike: the tick returns, and if the child in slot [i] returned Error
    during it, the composite's result and status are Error, its cursor is
    on [i], and no child in a later slot was ticked. *)
Theorem child_error_stops_scan fuel a n m :
  tree_ok rk (heap m) -> heap m !! a = Some n ->
  type n = BT_SEQUENCE \/ type n = BT_SELECTOR -> rk a < fuel ->
  exists r m' d,
    bt_tick tick_code hook_code fuel (Some a) m = Done r m' /\
    trace m' = trace m ++ d /\
    forall i, In (EvRet a i BT_ERROR) d ->
      r = BT_ERROR /\
      (exists n', heap m' !! a = Some n' /\ status n' = BT_ERROR /\
                  current_child n' = i) /\
      forall j, In (EvChild a j) d -> (j <= i)%N.
Proof.
  intros Hok Ha Hty Hfuel.
  assert (Hadv : exists adv,
            (type n = BT_SEQUENCE /\ adv = BT_SUCCESS \/
             type n = BT_SELECTOR /\ adv = BT_FAILURE) /\ BT_ERROR <> adv).
  { destruct Hty as [Hty | Hty]; [exists BT_SUCCESS | exists BT_FAILURE];
      split; auto; discriminate. }
  destruct Hadv as (adv & Hkind & Hne).
  destruct (bt_tick_composite fuel a n m adv Hok Ha Hkind Hfuel)
    as (r & m' & Hrun & _ & l & cur & n1 & Hscan & Htr & Ha1 & Hs1 & Hst & Hcur & Hpost).
  exists r, m', (enter_events a n (negb (is_running (status n))) ++ l ++ exit_events a n r).
  split; [exact Hrun |]; split; [exact Htr |].
  intros i Hin.
  apply in_composite_log in Hin; [| discriminate | discriminate].
  destruct (scan_trace_stop_at _ _ _ _ _ _ _ i BT_ERROR Hscan Hne Hin)
    as (-> & -> & _ & _ & Hle).
  split; [reflexivity |].
  split; [exists n1; auto |].
  intros j Hj; apply Hle.
  apply in_composite_log in Hj; [exact Hj | discriminate | discriminate].
Qed.

Lemma bt_init_done a ty tick_fn chs count udata (m0 : machine W) :
  bt_init (Some a) ty tick_fn chs count udata m0
  = Done tt (mk_machine (<[a := init_node ty tick_fn chs count udata]> (heap m0))
               (world m0) (trace m0)).
Proof. reflexivity. Qed.

(** C9. Cursor invariant.  [bt_init] leaves the cursor at 0, within the
    count; a tick returns and keeps every cursor of the store within its
    node's count; and after a tick of a Sequence or Selector the cursor
    equals the count exactly when the scan ran out of children, which is
    when the Sequence returns Success and the Selector returns Failure. *)
Theorem cursor_invariant :
  (forall a ty tick_fn chs count udata (m0 : machine W),
     exists m1 n,
       bt_init (Some a) ty tick_fn chs count udata m0 = Done tt m1 /\
       heap m1 !! a = Some n /\ current_child n = 0%N /\
       (0 <= current_child n <= children_count n)%N /\
       (cursors_ok (heap m0) -> cursors_ok (heap m1))) /\
  (forall fuel a n m,
     tree_ok rk (heap m) -> cursors_ok (heap m) -> heap m !! a = Some n ->
     rk a < fuel ->
     exists r m' n',
       bt_tick tick_code hook_code fuel (Some a) m = Done r m' /\
       cursors_ok (heap m') /\
       heap m' !! a = Some n' /\
       (0 <= current_child n' <= children_count n')%N /\
       (type n = BT_SEQUENCE ->
          (current_child n' = children_count n' <-> r = BT_SUCCESS)) /\
       (type n = BT_SELECTOR ->
          (current_child n' = children_count n' <-> r = BT_FAILURE))).
Proof.
  split.
  - intros a ty tick_fn chs count udata m0.
    eexists _, _; split; [apply bt_init_done |]; cbn [heap].
    split; [apply lookup_insert_eq |].
    split; [reflexivity |].
    split; [cbn; unfold UINT16_ZERO; lia |].
    intros Hc; apply cursors_ok_insert; [exact Hc | cbn; unfold UINT16_ZERO; lia].
  - intros fuel a n m Hok Hcur Ha Hfuel.
    destruct (bt_tick_frame fuel a m Hok (ex_intro _ n Ha) Hfuel)
      as (r & m' & Hrun & Hf & _ & Hcur' & _).
    destruct (heap_frame_lookup _ _ _ _ Hf Ha) as (n' & Ha' & Hs').
    specialize (Hcur' Hcur).
    exists r, m', n'; split; [exact Hrun |]; split; [exact Hcur' |].
    split; [exact Ha' |].
    split; [pose proof (Hcur' a n' Ha'); lia |].
    assert (Hcomp : forall adv,
              type n = BT_SEQUENCE /\ adv = BT_SUCCESS \/
              type n = BT_SELECTOR /\ adv = BT_FAILURE ->
              adv <> BT_ERROR ->
              (current_child n' = children_count n' <-> r = adv)).
    { intros adv Hkind Hne.
      destruct (bt_tick_composite fuel a n m adv Hok Ha Hkind Hfuel)
        as (r0 & m0 & Hrun0 & _ & l & cur & n0 & Hscan & _ & Ha0 & Hs0 & _ & Hc0 & _).
      rewrite Hrun in Hrun0; injection Hrun0 as <- <-.
      rewrite Ha' in Ha0; injection Ha0 as <-.
      rewrite (static_children_count _ _ Hs'), Hc0.
      apply (scan_trace_cursor _ _ _ _ _ _ _ Hscan Hne).
      specialize (Hcur a n Ha); destruct (is_running (status n)); lia. }
    split; intros Hty; apply Hcomp; auto; discriminate.
Qed.

(** ** Status, hooks and frame (sections 3, 4.1, 4.6 and 6) *)

Lemma hooked_valid_static n n' :
  static n' = static n -> hooked_valid n -> hooked_valid n'.
Proof.
  intros Hs; pose proof (static_children_count _ _ Hs) as Hn.
  pose proof (static_child_ref _ _ 0%N Hs) as Hc.
  apply static_fields in Hs; destruct Hs as (Hty & _).
  unfold hooked_valid, has_one_child; rewrite Hty, Hn, Hc; tauto.
Qed.

Lemma hooks_installed_static n n' :
  static n' = static n -> hooks_installed n -> hooks_installed n'.
Proof.
  intros Hs; unfold hooks_installed.
  rewrite (static_on_enter _ _ Hs), (static_on_exit _ _ Hs); tauto.
Qed.

Lemma hooks_installed_events a n s r :
  hooks_installed n ->
  enter_events a n (negb (is_running s)) ++ exit_events a n r = tick_hooks a s r.
Proof.
  intros [[fe He] [fx Hx]]; unfold enter_events, exit_events, tick_hooks.
  rewrite He, Hx; destruct (is_running s), (is_terminal r); reflexivity.
Qed.

(** One tick of a Sequence, a Selector or an Inverter with its child: the
    hooks it fires and the status it stores. *)
Lemma hooked_tick fuel a n m :
  tree_ok rk (heap m) -> heap m !! a = Some n -> hooked_valid n -> rk a < fuel ->
  exists r m' d n',
    bt_tick tick_code hook_code fuel (Some a) m = Done r m' /\
    trace m' = trace m ++ d /\
    hooks_of a d
    = enter_events a n (negb (is_running (status n))) ++ exit_events a n r /\
    heap m' !! a = Some n' /\ static n' = static n /\ status n' = r /\
    tree_ok rk (heap m').
Proof.
  intros Hok Ha Hkind Hfuel.
  assert (Hcomp : forall adv,
            type n = BT_SEQUENCE /\ adv = BT_SUCCESS \/
            type n = BT_SELECTOR /\ adv = BT_FAILURE ->
            exists r m' d n',
              bt_tick tick_code hook_code fuel (Some a) m = Done r m' /\
              trace m' = trace m ++ d /\
              hooks_of a d
              = enter_events a n (negb (is_running (status n))) ++ exit_events a n r /\
              heap m' !! a = Some n' /\ static n' = static n /\ status n' = r /\
              tree_ok rk (heap m')).
  { intros adv Hadv.
    destruct (bt_tick_composite fuel a n m adv Hok Ha Hadv Hfuel)
      as (r & m' & Hrun & _ & l & cur & n' & Hscan & Htr & Ha' & Hs' & Hst & _ & Hf & _).
    exists r, m', (enter_events a n (negb (is_running (status n))) ++ l ++ exit_events a n r), n'.
    split; [exact Hrun |]; split; [exact Htr |].
    split; [rewrite !hooks_of_app, hooks_of_enter, hooks_of_exit,
              (scan_trace_hooks _ _ _ _ _ _ _ Hscan); reflexivity |].
    split; [exact Ha' |]; split; [exact Hs' |]; split; [exact Hst |].
    exact (tree_ok_frame _ _ _ Hf Hok). }
  destruct Hkind as [Hty | [Hty | [Hty [Hn [c Hc]]]]]; [eauto | eauto |].
  destruct (bt_tick_inverter_child fuel a n c m Hok Ha Hty Hn Hc Hfuel)
    as (r & m' & Hrun & cs & dc & n' & _ & Hdc & _ & Htr & Ha' & Hs' & Hst & _ & Hf & _).
  eexists r, m', _, n'.
  split; [exact Hrun |]; split; [exact Htr |].
  split.
  { rewrite hooks_of_app, hooks_of_enter; f_equal.
    change (hooks_of a (dc ++ EvRet a 0 cs :: exit_events a n r) = exit_events a n r).
    rewrite hooks_of_app, (hooks_of_below a dc Hdc).
    change (hooks_of a (exit_events a n r) = exit_events a n r).
    apply hooks_of_exit. }
  split; [exact Ha' |]; split; [exact Hs' |]; split; [exact Hst |].
  exact (tree_ok_frame _ _ _ Hf Hok).
Qed.

(** An episode: [k] ticks that return Running, then one that returns the
    terminal [t]. *)
Lemma episode_hooks fuel a k :
  forall n m t m',
    tree_ok rk (heap m) -> heap m !! a = Some n -> hooked_valid n ->
    hooks_installed n -> rk a < fuel ->
    ticks_of tick_code hook_code fuel a m (repeat BT_RUNNING k ++ [t]) m' ->
    is_terminal t = true ->
    exists d,
      trace m' = trace m ++ d /\
      hooks_of a d
      = (if is_running (status n) then [] else [EvEnter a]) ++ [EvExit a t].
Proof.
  induction k as [| k IH]; intros n m t m' Hok Ha Hkind Hinst Hfuel Hticks Ht;
    destruct (hooked_tick fuel a n m Hok Ha Hkind Hfuel)
      as (r & m1 & d1 & n1 & Hrun & Htr & Hhooks & Ha1 & Hs1 & Hst & Hok1);
    rewrite (hooks_installed_events a n (status n) r Hinst) in Hhooks;
    cbn [repeat app] in Hticks;
    inversion Hticks as [| m0 r0 m1' rs m2 Hrun' Hrest]; subst m0 r0 rs m2;
    rewrite Hrun in Hrun'; injection Hrun' as Hr Hm; subst m1'; rewrite Hr in *; clear Hr.
  - inversion Hrest; subst.
    exists d1; split; [exact Htr |].
    rewrite Hhooks; unfold tick_hooks; rewrite Ht; reflexivity.
  - destruct (IH n1 m1 t m' Hok1 Ha1 (hooked_valid_static _ _ Hs1 Hkind)
                (hooks_installed_static _ _ Hs1 Hinst) Hfuel Hrest Ht)
      as (d2 & Htr2 & Hhooks2).
    exists (d1 ++ d2); split; [rewrite Htr2, Htr, app_assoc; reflexivity |].
    rewrite hooks_of_app, Hhooks, Hhooks2, Hst; cbn [is_running].
    unfold tick_hooks; cbn [is_terminal]; rewrite app_nil_r; reflexivity.
Qed.

(** C6, as the code has it.  Hook law for a Sequence, a Selector, and an
    Inverter that has its one child: a tick fires on_enter exactly when
    the node's status was not Running on entry, and on_exit exactly when
    its result is terminal, the exit hook seeing the final status, so a
    tick from Running to Running fires no hook; and over an episode, from a
    fresh entry through any number of Running ticks to a terminal result,
    on_enter fires once and on_exit fires once. *)
Theorem hook_law_holds fuel a n m :
  tree_ok rk (heap m) -> heap m !! a = Some n -> hooked_valid n -> rk a < fuel ->
  hook_law tick_code hook_code fuel a m /\
  exists r m', bt_tick tick_code hook_code fuel (Some a) m = Done r m'.
Proof.
  intros Hok Ha Hkind Hfuel; split; [split |].
  - intros n0 r m' d Ha0 Hinst Hrun Htr.
    rewrite Ha in Ha0; injection Ha0 as <-.
    destruct (hooked_tick fuel a n m Hok Ha Hkind Hfuel)
      as (r1 & m1 & d1 & n1 & Hrun1 & Htr1 & Hhooks & _).
    rewrite Hrun in Hrun1; injection Hrun1 as <- <-.
    rewrite Htr in Htr1; apply app_inv_head in Htr1; subst d1.
    rewrite Hhooks; apply hooks_installed_events; exact Hinst.
  - intros n0 k t m' d Ha0 Hinst Hfresh Hticks Ht Htr.
    rewrite Ha in Ha0; injection Ha0 as <-.
    destruct (episode_hooks fuel a k n m t m' Hok Ha Hkind Hinst Hfuel Hticks Ht)
      as (d' & Htr' & Hhooks).
    rewrite Htr in Htr'; apply app_inv_head in Htr'; subst d'.
    rewrite Hhooks; destruct (status n); try reflexivity; congruence.
  - destruct (hooked_tick fuel a n m Hok Ha Hkind Hfuel) as (r & m' & _ & _ & Hrun & _).
    eauto.
Qed.

(** C7, as the code has it.  [bt_init] stores [BT_FAILURE] as the status,
    a terminal value that is not Running, and 0 as the cursor; so, once
    the caller has wired hooks and blackboard, the first tick of a
    Sequence, of a Selector, and of an Inverter whose count is one is a
    fresh entry: it returns, its log starts with the on_enter event when a
    hook is installed, and a composite scans from slot 0. *)
Theorem init_then_first_tick a ty tick_fn chs count udata (m0 : machine W) :
  exists m1,
    bt_init (Some a) ty tick_fn chs count udata m0 = Done tt m1 /\
    heap m1 !! a = Some (init_node ty tick_fn chs count udata) /\
    status (init_node ty tick_fn chs count udata) = BT_FAILURE /\
    status (init_node ty tick_fn chs count udata) <> BT_RUNNING /\
    current_child (init_node ty tick_fn chs count udata) = 0%N /\
    forall fuel m enter exit_ bb,
      let n := wired (init_node ty tick_fn chs count udata) enter exit_ bb in
      tree_ok rk (heap m) -> heap m !! a = Some n -> has_entry_step n ->
      rk a < fuel ->
      exists r m' rest,
        bt_tick tick_code hook_code fuel (Some a) m = Done r m' /\
        trace m' = trace m ++ enter_events a n true ++ rest /\
        (forall adv,
           ty = BT_SEQUENCE /\ adv = BT_SUCCESS \/
           ty = BT_SELECTOR /\ adv = BT_FAILURE ->
           exists l cur,
             rest = l ++ exit_events a n r /\ scan_trace rk adv a n 0 l r cur).
Proof.
  eexists; split; [apply bt_init_done |]; cbn [heap].
  split; [apply lookup_insert_eq |].
  split; [reflexivity |]; split; [discriminate |]; split; [reflexivity |].
  intros fuel m enter exit_ bb.
  set (n := wired (init_node ty tick_fn chs count udata) enter exit_ bb).
  intros Hok Ha Hkind Hfuel.
  assert (Hcomp : forall adv,
            type n = BT_SEQUENCE /\ adv = BT_SUCCESS \/
            type n = BT_SELECTOR /\ adv = BT_FAILURE ->
            exists r m' l cur,
              bt_tick tick_code hook_code fuel (Some a) m = Done r m' /\
              trace m' = trace m ++ enter_events a n true ++ l ++ exit_events a n r /\
              scan_trace rk adv a n 0 l r cur).
  { intros adv Hadv.
    destruct (bt_tick_composite fuel a n m adv Hok Ha Hadv Hfuel)
      as (r & m' & Hrun & _ & l & cur & n' & Hscan & Htr & _).
    exists r, m', l, cur; auto. }
  destruct Hkind as [Hty | [Hty | [Hty Hn]]].
  - destruct (Hcomp BT_SUCCESS (or_introl (conj Hty eq_refl)))
      as (r & m' & l & cur & Hrun & Htr & Hscan).
    exists r, m', (l ++ exit_events a n r); split; [exact Hrun |]; split; [exact Htr |].
    intros adv [[_ ->] | [Hty' _]]; [eauto |].
    cbn in Hty; congruence.
  - destruct (Hcomp BT_FAILURE (or_intror (conj Hty eq_refl)))
      as (r & m' & l & cur & Hrun & Htr & Hscan).
    exists r, m', (l ++ exit_events a n r); split; [exact Hrun |]; split; [exact Htr |].
    intros adv [[Hty' _] | [_ ->]]; [| eauto].
    cbn in Hty; congruence.
  - destruct (child_ref n 0) as [c |] eqn:Hc.
    + destruct (bt_tick_inverter_child fuel a n c m Hok Ha Hty Hn Hc Hfuel)
        as (r & m' & Hrun & cs & dc & n' & _ & _ & _ & Htr & _).
      eexists r, m', _; split; [exact Hrun |]; split; [exact Htr |].
      intros adv [[Hty' _] | [Hty' _]]; cbn in Hty; congruence.
    + destruct (bt_tick_inverter_null_slot fuel a n m Hok Ha Hty Hn Hc ltac:(lia))
        as [w Hrun].
      eexists _, _, []; split; [exact Hrun |]; cbn [trace].
      split; [rewrite app_nil_r; reflexivity |].
      intros adv [[Hty' _] | [Hty' _]]; cbn in Hty; congruence.
Qed.

(** C10. Frame property.  With callbacks that leave the nodes alone, a
    tick returns; every cell of the store is still there with its type,
    tick, children, children_count, on_enter, on_exit, time_anchor_ms,
    user_data and blackboard unchanged; and the cells of nodes that are
    neither the ticked node nor one of its descendants are unchanged
    altogether. *)
Theorem tick_frame_property fuel a m :
  tree_ok rk (heap m) -> is_Some (heap m !! a) -> rk a < fuel ->
  exists r m',
    bt_tick tick_code hook_code fuel (Some a) m = Done r m' /\
    (forall b,
       match heap m !! b, heap m' !! b with
       | Some nb, Some nb' => same_fields nb nb'
       | None, None => True
       | _, _ => False
       end) /\
    (forall b, ~ descendant (heap m) a b -> heap m' !! b = heap m !! b).
Proof.
  intros Hok Ha Hfuel.
  destruct (bt_tick_frame fuel a m Hok Ha Hfuel) as (r & m' & Hrun & Hf & Hout & _).
  exists r, m'; split; [exact Hrun |]; split; [| exact Hout].
  intros b; specialize (Hf b).
  destruct (heap m !! b) as [nb |], (heap m' !! b) as [nb' |]; cbn in Hf;
    try discriminate; [| exact I].
  apply static_fields; congruence.
Qed.

(** The dispatcher stores its result in the node's status for every node
    but an Inverter without exactly one child. *)
Lemma tick_status_is_result fuel a n m :
  tree_ok rk (heap m) -> heap m !! a = Some n ->
  (type n = BT_INVERTER -> has_one_child n) -> rk a < fuel ->
  exists r m' n',
    bt_tick tick_code hook_code fuel (Some a) m = Done r m' /\
    heap m' !! a = Some n' /\ status n' = r.
Proof.
  intros Hok Ha Hinv Hfuel.
  assert (Hhooked : hooked_valid n ->
            exists r m' n',
              bt_tick tick_code hook_code fuel (Some a) m = Done r m' /\
              heap m' !! a = Some n' /\ status n' = r).
  { intros Hkind.
    destruct (hooked_tick fuel a n m Hok Ha Hkind Hfuel)
      as (r & m' & d & n' & Hrun & _ & _ & Ha' & _ & Hst & _).
    exists r, m', n'; auto. }
  destruct (type n) eqn:Hty;
    try (apply Hhooked; unfold hooked_valid; rewrite Hty; auto; fail).
  - destruct fuel as [| fuel]; [lia |].
    cbn [bt_tick bt_tick_internal]; unfold bt_tick_internal_body.
    rewrite (bind_done _ _ _ _ _ (load_done _ _ _ Ha)), Hty.
    destruct (bt_tick_leaf_done a n m Ha) as (r & w & Hrun & _).
    eexists _, _, _; split; [exact Hrun |]; cbn [heap].
    split; [apply lookup_insert_eq | reflexivity].
  - destruct fuel as [| fuel]; [lia |].
    cbn [bt_tick bt_tick_internal]; unfold bt_tick_internal_body.
    rewrite (bind_done _ _ _ _ _ (load_done _ _ _ Ha)), Hty.
    destruct (bt_tick_leaf_done a n m Ha) as (r & w & Hrun & _).
    eexists _, _, _; split; [exact Hrun |]; cbn [heap].
    split; [apply lookup_insert_eq | reflexivity].
  - destruct fuel as [| fuel]; [lia |].
    cbn [bt_tick bt_tick_internal]; unfold bt_tick_internal_body.
    rewrite (bind_done _ _ _ _ _ (load_done _ _ _ Ha)), Hty.
    erewrite bind_done by (apply write_status_done; exact Ha).
    eexists _, _, _; split; [reflexivity |]; cbn [heap].
    split; [apply lookup_insert_eq | reflexivity].
Qed.

(** ** Leaves, unknown nodes, and the guarded child fetch *)

Lemma dispatch_done fuel a n m :
  heap m !! a = Some n ->
  bt_tick tick_code hook_code (S fuel) (Some a) m
  = match type n with
    | BT_ACTION | BT_CONDITION => bt_tick_leaf tick_code (Some a) m
    | BT_SEQUENCE =>
        bt_tick_sequence hook_code (bt_tick_internal tick_code hook_code fuel) (Some a) m
    | BT_SELECTOR =>
        bt_tick_selector hook_code (bt_tick_internal tick_code hook_code fuel) (Some a) m
    | BT_INVERTER =>
        bt_tick_inverter hook_code (bt_tick_internal tick_code hook_code fuel) (Some a) m
    | BT_TYPE_OTHER _ => (write_status a BT_ERROR ;; ret BT_ERROR) m
    end.
Proof.
  intros Ha; cbn [bt_tick bt_tick_internal]; unfold bt_tick_internal_body.
  rewrite (bind_done _ _ _ _ _ (load_done _ _ _ Ha)).
  destruct (type n); reflexivity.
Qed.

Lemma bt_tick_leaf_exact a n f m :
  heap m !! a = Some n -> tick n = Some f ->
  bt_tick_leaf tick_code (Some a) m
  = Done (fst (tick_code f a (heap m, world m)))
      (mk_machine
         (<[a := set_status n (fst (tick_code f a (heap m, world m)))]> (heap m))
         (snd (snd (tick_code f a (heap m, world m))))
         (trace m ++ [EvLeaf a (fst (tick_code f a (heap m, world m)))])).
Proof.
  intros Ha Hf; unfold bt_tick_leaf.
  rewrite (bind_done _ _ _ _ _ (load_done _ _ _ Ha)), Hf.
  rewrite (bind_done _ _ _ _ _ (call_tick_done f a m)).
  erewrite bind_done by (apply write_status_done; exact Ha).
  reflexivity.
Qed.

Lemma write_error_done a n m :
  heap m !! a = Some n ->
  (write_status a BT_ERROR ;; ret BT_ERROR) m
  = Done BT_ERROR
      (mk_machine (<[a := set_status n BT_ERROR]> (heap m)) (world m) (trace m)).
Proof.
  intros Ha; erewrite bind_done by (apply write_status_done; exact Ha); reflexivity.
Qed.

Lemma bt_tick_leaf_null a n m :
  heap m !! a = Some n -> tick n = None ->
  bt_tick_leaf tick_code (Some a) m
  = Done BT_ERROR
      (mk_machine (<[a := set_status n BT_ERROR]> (heap m)) (world m) (trace m)).
Proof.
  intros Ha Hf; unfold bt_tick_leaf.
  rewrite (bind_done _ _ _ _ _ (load_done _ _ _ Ha)), Hf.
  apply write_error_done; exact Ha.
Qed.

(** X1.  A tick of an Action or Condition node that has a callback calls
    the callback exactly once and does nothing else: the result is what
    the callback returned, it is stored in the node's status, the user
    state is the one the callback left, and the log gains the one event of
    the call.  No hook fires, even when the leaf has hooks installed, and
    the cursor, the other fields and the other nodes stay as they were. *)
Theorem leaf_tick_exact fuel a n f m :
  heap m !! a = Some n -> type n = BT_ACTION \/ type n = BT_CONDITION ->
  tick n = Some f -> 0 < fuel ->
  bt_tick tick_code hook_code fuel (Some a) m
  = Done (fst (tick_code f a (heap m, world m)))
      (mk_machine
         (<[a := set_status n (fst (tick_code f a (heap m, world m)))]> (heap m))
         (snd (snd (tick_code f a (heap m, world m))))
         (trace m ++ [EvLeaf a (fst (tick_code f a (heap m, world m)))])).
Proof.
  intros Ha Hty Hf Hfuel; destruct fuel as [| fuel]; [lia |].
  rewrite (dispatch_done fuel a n m Ha).
  destruct Hty as [-> | ->]; apply bt_tick_leaf_exact; assumption.
Qed.

(** X2.  A node the engine has no code for, a leaf whose callback pointer is
    null or a node whose type tag is none of the five, ticks to Error: the
    Error is stored in the node's status, nothing is called, and the user
    state and the log stay as they were. *)
Theorem node_without_code_ticks_to_error fuel a n m :
  heap m !! a = Some n -> 0 < fuel ->
  ((type n = BT_ACTION \/ type n = BT_CONDITION) /\ tick n = None) \/
  (exists tag, type n = BT_TYPE_OTHER tag) ->
  bt_tick tick_code hook_code fuel (Some a) m
  = Done BT_ERROR
      (mk_machine (<[a := set_status n BT_ERROR]> (heap m)) (world m) (trace m)).
Proof.
  intros Ha Hfuel Hkind; destruct fuel as [| fuel]; [lia |].
  rewrite (dispatch_done fuel a n m Ha).
  destruct Hkind as [[Hty Hf] | [tag Hty]].
  - destruct Hty as [-> | ->]; apply bt_tick_leaf_null; assumption.
  - rewrite Hty; apply write_error_done; exact Ha.
Qed.

(** X3.  [bt_child_at] never changes the machine and never reads a cell at
    or beyond [children_count]: such an index, and a null array pointer,
    give the null pointer.  With an array, the fetch is defined for every
    index exactly when the array has at least [children_count] cells. *)
Theorem bt_child_at_bounds a n m :
  heap m !! a = Some n ->
  (forall i, (children_count n <= i)%N -> bt_child_at (Some a) i m = Done None m) /\
  (children n = None -> forall i, bt_child_at (Some a) i m = Done None m) /\
  (forall i r m', bt_child_at (Some a) i m = Done r m' -> m' = m /\ r = child_ref n i) /\
  (forall arr, children n = Some arr ->
     (forall i, exists r, bt_child_at (Some a) i m = Done r m) <->
     N.to_nat (children_count n) <= length arr).
Proof.
  intros Ha.
  assert (Hrun : forall i,
            bt_child_at (Some a) i m
            = match children n with
              | None => Done None m
              | Some arr =>
                  if (i <? children_count n)%N
                  then match read_slot arr i with
                       | Some child => Done child m
                       | None => Undefined
                       end
                  else Done None m
              end).
  { intros i; unfold bt_child_at.
    rewrite (bind_done _ _ _ _ _ (load_done _ _ _ Ha)).
    destruct (children n) as [arr |]; [| reflexivity].
    destruct (i <? children_count n)%N; [| reflexivity].
    destruct (read_slot arr i); reflexivity. }
  split; [| split; [| split]].
  - intros i Hi; rewrite Hrun.
    destruct (children n) as [arr |]; [| reflexivity].
    apply N.ltb_ge in Hi; rewrite Hi; reflexivity.
  - intros Hnull i; rewrite Hrun, Hnull; reflexivity.
  - intros i r m'; rewrite Hrun; unfold child_ref.
    destruct (children n) as [arr |].
    + destruct (i <? children_count n)%N.
      * destruct (read_slot arr i); [| discriminate].
        intros H; injection H; intros; subst; split; reflexivity.
      * intros H; injection H; intros; subst; split; reflexivity.
    + intros H; injection H; intros; subst; split; reflexivity.
  - intros arr Harr; split.
    + intros Hall.
      destruct (le_lt_dec (N.to_nat (children_count n)) (length arr)) as [Hle | Hgt];
        [exact Hle | exfalso].
      destruct (Hall (N.of_nat (length arr))) as [r Hr].
      rewrite Hrun, Harr in Hr.
      assert (Hlt : (N.of_nat (length arr) <? children_count n)%N = true)
        by (apply N.ltb_lt; lia).
      rewrite Hlt in Hr; unfold read_slot in Hr.
      rewrite Nat2N.id in Hr.
      rewrite (proj2 (lookup_ge_None arr (length arr))) in Hr by lia.
      discriminate.
    + intros Hle i; rewrite Hrun, Harr.
      destruct (i <? children_count n)%N eqn:Hi; [| eexists; reflexivity].
      apply N.ltb_lt in Hi; unfold read_slot.
      destruct (arr !! N.to_nat i) as [p |] eqn:Hp; [eexists; reflexivity |].
      apply lookup_ge_None in Hp; lia.
Qed.

(** ** Building a store with [bt_init] *)

Lemma init_node_ok ty fn chs count udata :
  (count < UINT16_MOD)%N ->
  (forall arr, chs = Some arr -> N.to_nat count <= length arr) ->
  node_ok (init_node ty fn chs count udata).
Proof.
  intros Hcount Harr; split; [exact Hcount |].
  unfold init_node; cbn [children children_count].
  intros arr; destruct (UINT16_ZERO <? count)%N; [apply Harr | discriminate].
Qed.

Lemma init_node_child_ref ty fn chs count udata i c :
  child_ref (init_node ty fn chs count udata) i = Some c ->
  exists arr, chs = Some arr /\ (i < count)%N /\ arr !! N.to_nat i = Some (Some c).
Proof.
  unfold child_ref, init_node; cbn [children children_count].
  destruct (UINT16_ZERO <? count)%N; [| discriminate].
  destruct chs as [arr |]; [| discriminate].
  destruct (i <? count)%N eqn:Hi; [| discriminate].
  apply N.ltb_lt in Hi; unfold read_slot.
  destruct (arr !! N.to_nat i) as [p |] eqn:Hp; [| discriminate].
  intros ->; exists arr; auto.
Qed.

Lemma tree_ok_init (h : gmap addr bt_node_t) a ty fn chs count udata :
  tree_ok rk h -> (count < UINT16_MOD)%N ->
  (forall arr, chs = Some arr ->
     N.to_nat count <= length arr /\
     forall i c, i < N.to_nat count -> arr !! i = Some (Some c) ->
       rk c < rk a /\ is_Some (h !! c)) ->
  tree_ok rk (<[a := init_node ty fn chs count udata]> h).
Proof.
  intros Hok Hcount Harr b nb Hb.
  assert (Hkeep : forall c, is_Some (h !! c) ->
            is_Some (<[a := init_node ty fn chs count udata]> h !! c)).
  { intros c Hc; destruct (decide (a = c)) as [<- | Hne].
    - rewrite lookup_insert_eq; eauto.
    - rewrite lookup_insert_ne by exact Hne; exact Hc. }
  destruct (decide (a = b)) as [<- | Hne].
  - rewrite lookup_insert_eq in Hb; injection Hb; intros <-; split.
    + apply init_node_ok; [exact Hcount |].
      intros arr Hchs; exact (proj1 (Harr arr Hchs)).
    + intros i c Hc.
      destruct (init_node_child_ref _ _ _ _ _ _ _ Hc) as (arr & Hchs & Hi & Hslot).
      destruct (Harr arr Hchs) as [_ Hslots].
      destruct (Hslots (N.to_nat i) c) as [Hrk Hsome]; [lia | exact Hslot |].
      split; [exact Hrk | apply Hkeep; exact Hsome].
  - rewrite lookup_insert_ne in Hb by exact Hne.
    destruct (Hok b nb Hb) as [Hnode Hch]; split; [exact Hnode |].
    intros i c Hc; destruct (Hch i c Hc) as [Hrk Hsome].
    split; [exact Hrk | apply Hkeep; exact Hsome].
Qed.

(** X4.  [bt_init] keeps a store well formed when it is given what [bt.h]
    asks for: a count below [2^16], an array with at least that many cells,
    and in the cells below the count null pointers or pointers to nodes
    that are already in the store and rank below the new node.  It writes
    the one cell, leaves user state and log alone, and the node it wrote
    can be ticked: the tick returns. *)
Theorem bt_init_keeps_tree_ok a ty fn chs count udata m :
  tree_ok rk (heap m) -> (count < UINT16_MOD)%N ->
  (forall arr, chs = Some arr ->
     N.to_nat count <= length arr /\
     forall i c, i < N.to_nat count -> arr !! i = Some (Some c) ->
       rk c < rk a /\ is_Some (heap m !! c)) ->
  exists m',
    bt_init (Some a) ty fn chs count udata m = Done tt m' /\
    tree_ok rk (heap m') /\
    (forall b, b <> a -> heap m' !! b = heap m !! b) /\
    world m' = world m /\ trace m' = trace m /\
    forall fuel, rk a < fuel ->
      exists r m'', bt_tick tick_code hook_code fuel (Some a) m' = Done r m''.
Proof.
  intros Hok Hcount Harr.
  eexists; split; [apply bt_init_done |]; cbn [heap world trace].
  assert (Hok' : tree_ok rk (<[a := init_node ty fn chs count udata]> (heap m)))
    by (apply tree_ok_init; assumption).
  split; [exact Hok' |].
  split; [intros b Hb; apply lookup_insert_ne; congruence |].
  split; [reflexivity |]; split; [reflexivity |].
  intros fuel Hfuel.
  destruct (bt_tick_frame fuel a
              (mk_machine (<[a := init_node ty fn chs count udata]> (heap m))
                 (world m) (trace m)))
    as (r & m'' & Hrun & _); [exact Hok' | | exact Hfuel | eauto].
  cbn [heap]; rewrite lookup_insert_eq; eauto.
Qed.

(** X5.  [BT_INIT] takes the count from the array, so the node it writes
    always has a count below [2^16] that the array covers: the store stays
    well formed as soon as the array's non-null cells point to nodes of
    the store that rank below the new node.  The count is the array's
    length cut to 16 bits: the length itself for fewer than [2^16] cells. *)
Theorem BT_INIT_keeps_tree_ok a ty fn (arr : list ptr) udata m :
  tree_ok rk (heap m) ->
  (forall c, In (Some c) arr -> rk c < rk a /\ is_Some (heap m !! c)) ->
  exists m' n',
    BT_INIT (Some a) ty fn arr udata m = Done tt m' /\
    heap m' !! a = Some n' /\ tree_ok rk (heap m') /\
    children_count n' = u16 (N.of_nat (length arr)) /\
    ((N.of_nat (length arr) < UINT16_MOD)%N ->
     children_count n' = N.of_nat (length arr) /\
     forall i, i < length arr -> Some (child_ref n' (N.of_nat i)) = arr !! i).
Proof.
  intros Hok Harr; unfold BT_INIT.
  assert (Hmod : (BT_COUNT_OF arr < UINT16_MOD)%N)
    by (unfold BT_COUNT_OF, u16; apply N.mod_lt; discriminate).
  assert (Hle : N.to_nat (BT_COUNT_OF arr) <= length arr).
  { unfold BT_COUNT_OF, u16.
    pose proof (N.Div0.mod_le (N.of_nat (length arr)) UINT16_MOD) as Hq.
    remember (N.of_nat (length arr) mod UINT16_MOD)%N as q.
    assert (Hn : N.to_nat q <= length arr) by lia.
    subst q; exact Hn. }
  eexists _, _; split; [apply bt_init_done |]; cbn [heap].
  split; [apply lookup_insert_eq |].
  split.
  - apply tree_ok_init; [exact Hok | exact Hmod |].
    intros arr0 Heq; injection Heq; intros <-; split; [exact Hle |].
    intros i c Hi Hslot; apply Harr.
    apply list_elem_of_In, (list_elem_of_lookup_2 _ i); exact Hslot.
  - split; [reflexivity |].
    intros Hlen.
    assert (Hcount : BT_COUNT_OF arr = N.of_nat (length arr)).
    { unfold BT_COUNT_OF; apply u16_small; exact Hlen. }
    split; [exact Hcount |].
    intros i Hi; unfold child_ref, init_node; cbn [children children_count].
    rewrite Hcount.
    assert (H0 : (UINT16_ZERO <? N.of_nat (length arr))%N = true)
      by (apply N.ltb_lt; unfold UINT16_ZERO; lia).
    assert (H1 : (N.of_nat i <? N.of_nat (length arr))%N = true)
      by (apply N.ltb_lt; lia).
    rewrite H0, H1; unfold read_slot; rewrite Nat2N.id.
    destruct (arr !! i) as [p |] eqn:Hp; [reflexivity |].
    apply lookup_ge_None in Hp; lia.
Qed.

(** ** Ticking again and again *)

(** X6.  A driver may tick a node of a well-formed store as often as it
    likes: any number of consecutive ticks return, each with a result, and
    they leave a well-formed store that differs from the first in nothing
    but the status and cursor fields of the node's descendants, with every
    cursor still within its count. *)
Theorem ticks_never_get_stuck fuel a k :
  forall m,
    tree_ok rk (heap m) -> is_Some (heap m !! a) -> rk a < fuel ->
    exists rs m',
      ticks_of tick_code hook_code fuel a m rs m' /\ length rs = k /\
      tree_ok rk (heap m') /\ heap_frame (heap m) (heap m') /\
      (forall b, ~ descendant (heap m) a b -> heap m' !! b = heap m !! b) /\
      (cursors_ok (heap m) -> cursors_ok (heap m')).
Proof.
  induction k as [| k IH]; intros m Hok Ha Hfuel.
  - exists [], m; split; [constructor |]; split; [reflexivity |].
    split; [exact Hok |]; split; [apply heap_frame_refl |].
    split; [reflexivity | auto].
  - destruct (bt_tick_frame fuel a m Hok Ha Hfuel)
      as (r & m1 & Hrun & Hf & Hout & Hcur & _).
    assert (Hok1 : tree_ok rk (heap m1)) by exact (tree_ok_frame _ _ _ Hf Hok).
    assert (Ha1 : is_Some (heap m1 !! a)) by (eapply heap_frame_is_Some; eassumption).
    destruct (IH m1 Hok1 Ha1 Hfuel) as (rs & m' & Hticks & Hlen & Hok' & Hf' & Hout' & Hcur').
    exists (r :: rs), m'.
    split; [econstructor; eassumption |].
    split; [cbn; lia |].
    split; [exact Hok' |].
    split; [eapply heap_frame_trans; eassumption |].
    split; [| auto].
    intros b Hb; rewrite Hout'; [apply Hout; exact Hb |].
    intros Hd; apply Hb; eapply descendant_frame; [| exact Hd].
    apply heap_frame_sym; exact Hf.
Qed.

Lemma enter_events_static a n n' b :
  static n' = static n -> enter_events a n' b = enter_events a n b.
Proof.
  intros Hs; unfold enter_events; rewrite (static_on_enter n n' Hs); reflexivity.
Qed.

(** X7.  Once a tick of a Sequence or Selector has returned a terminal
    result, Success, Failure or Error, the next tick of the node starts
    over: it fires [on_enter] again and scans from slot 0, whatever slot
    the earlier tick stopped at. *)
Theorem terminal_result_restarts fuel a n m adv r m1 :
  tree_ok rk (heap m) -> heap m !! a = Some n ->
  (type n = BT_SEQUENCE /\ adv = BT_SUCCESS \/
   type n = BT_SELECTOR /\ adv = BT_FAILURE) ->
  rk a < fuel ->
  bt_tick tick_code hook_code fuel (Some a) m = Done r m1 ->
  r <> BT_RUNNING ->
  exists r2 m2 l cur,
    bt_tick tick_code hook_code fuel (Some a) m1 = Done r2 m2 /\
    trace m2 = trace m1 ++ enter_events a n true ++ l ++ exit_events a n r2 /\
    scan_trace rk adv a n 0 l r2 cur /\
    (forall c, child_ref n 0 = Some c -> (0 < children_count n)%N ->
       exists rest, l = EvChild a 0 :: rest).
Proof.
  intros Hok Ha Hkind Hfuel Hrun Hr.
  destruct (bt_tick_composite fuel a n m adv Hok Ha Hkind Hfuel)
    as (r' & m1' & Hrun' & _ & Hpost).
  rewrite Hrun in Hrun'; injection Hrun'; intros <- <-.
  destruct Hpost as (l1 & c1 & n1 & _ & _ & Ha1 & Hs1 & Hst1 & _ & Hf1 & _).
  assert (Hok1 : tree_ok rk (heap m1)) by exact (tree_ok_frame _ _ _ Hf1 Hok).
  assert (Hkind1 : type n1 = BT_SEQUENCE /\ adv = BT_SUCCESS \/
                   type n1 = BT_SELECTOR /\ adv = BT_FAILURE).
  { apply static_fields in Hs1; unfold same_fields in Hs1.
    destruct Hs1 as (Hty & _); rewrite Hty; exact Hkind. }
  destruct (bt_tick_composite fuel a n1 m1 adv Hok1 Ha1 Hkind1 Hfuel)
    as (r2 & m2 & Hrun2 & _ & Hpost2).
  destruct Hpost2 as (l & cur & n2 & Hscan & Htr & _).
  assert (Hfresh : is_running (status n1) = false)
    by (rewrite Hst1; destruct r; [reflexivity | reflexivity | congruence | reflexivity]).
  rewrite Hfresh in Hscan, Htr; cbn [negb] in Htr.
  apply (scan_trace_static adv a n1 n) in Hscan; [| symmetry; exact Hs1].
  rewrite (enter_events_static a n n1 true Hs1),
    (exit_events_static a n n1 r2 Hs1) in Htr.
  exists r2, m2, l, cur.
  split; [exact Hrun2 |]; split; [exact Htr |]; split; [exact Hscan |].
  intros c Hc Hpos; eapply scan_trace_head; [exact Hscan | exact Hpos | eauto].
Qed.

(** ** The child results a composite receives *)

Lemma slot_range_nil i j : (j <= i)%N -> slot_range i j = [].
Proof.
  intros H; unfold slot_range.
  replace (N.to_nat j - N.to_nat i) with 0 by lia; reflexivity.
Qed.

Lemma slot_range_cons i j : (i < j)%N -> slot_range i j = i :: slot_range (i + 1) j.
Proof.
  intros H; unfold slot_range.
  replace (N.to_nat j - N.to_nat i) with (S (N.to_nat j - N.to_nat (i + 1))) by lia.
  cbn [seq]; rewrite fmap_cons, N2Nat.id.
  replace (N.to_nat (i + 1)) with (S (N.to_nat i)) by lia; reflexivity.
Qed.

Lemma rets_of_app a d1 d2 : rets_of a (d1 ++ d2) = rets_of a d1 ++ rets_of a d2.
Proof. apply omap_app. Qed.

Lemma rets_of_below a dc : below rk (rk a) dc -> rets_of a dc = [].
Proof.
  unfold below, rets_of; induction 1 as [| e d He _ IH]; [reflexivity |].
  cbn; rewrite IH; destruct e as [b | b s | b s | b i | b i cs]; try reflexivity.
  cbn in He |- *; rewrite bool_decide_eq_false_2 by (intros ->; lia); reflexivity.
Qed.

Lemma rets_of_enter a n b : rets_of a (enter_events a n b) = [].
Proof. unfold enter_events; destruct b, (on_enter n); reflexivity. Qed.

Lemma rets_of_exit a n r : rets_of a (exit_events a n r) = [].
Proof. unfold exit_events; destruct (is_terminal r), (on_exit n); reflexivity. Qed.

Lemma rets_of_own a i cs d : rets_of a (EvRet a i cs :: d) = (i, cs) :: rets_of a d.
Proof. unfold rets_of; cbn; rewrite bool_decide_eq_true_2 by reflexivity; reflexivity. Qed.

Lemma scan_trace_rets adv a n i l r (cur : N) :
  scan_trace rk adv a n i l r cur -> adv <> BT_ERROR ->
  (i <= cur)%N /\
  rets_of a l
  = ((fun j => (j, adv)) <$> slot_range i cur) ++
    (if decide (r = adv) then []
     else match child_ref n cur with Some _ => [(cur, r)] | None => [] end) /\
  (r = adv -> (children_count n <= cur)%N) /\
  (r <> adv -> (cur < children_count n)%N /\ (child_ref n cur = None -> r = BT_ERROR)).
Proof.
  intros H Hadv; induction H as [i Hi | i Hi Hc | i c dc cs Hi Hc Hcs Hdc
                                | i c dc l r cur Hi Hc Hdc Hscan IH].
  - split; [lia |]; rewrite slot_range_nil by lia.
    destruct (decide (adv = adv)) as [_ | Hne]; [| congruence].
    split; [reflexivity |]; split; [intros _; exact Hi | congruence].
  - split; [lia |]; rewrite slot_range_nil by lia.
    destruct (decide (BT_ERROR = adv)) as [He | _]; [congruence |].
    rewrite Hc; split; [reflexivity |].
    split; [congruence | intros _; split; [exact Hi | reflexivity]].
  - split; [lia |]; rewrite slot_range_nil by lia.
    destruct (decide (cs = adv)) as [He | _]; [congruence |].
    rewrite Hc; split.
    + change (EvChild a i :: dc ++ [EvRet a i cs])
        with ([EvChild a i] ++ dc ++ [EvRet a i cs]).
      rewrite !rets_of_app, (rets_of_below a dc Hdc), rets_of_own; reflexivity.
    + split; [congruence | intros _; split; [exact Hi | discriminate]].
  - destruct IH as (Hle & Hrets & Hadv' & Hne').
    split; [lia |]; split; [| split; assumption].
    rewrite (slot_range_cons i cur) by lia; rewrite fmap_cons.
    change (EvChild a i :: dc ++ EvRet a i adv :: l)
      with ([EvChild a i] ++ dc ++ EvRet a i adv :: l).
    rewrite !rets_of_app, (rets_of_below a dc Hdc), rets_of_own, Hrets; reflexivity.
Qed.

(** X8.  During one tick a Sequence (Selector) receives results from
    consecutive slots only, beginning at the slot it starts from, one
    result per slot: Success (Failure) from every slot before the one its
    cursor is left at, and after these at most one other result, which is
    the result of the tick.  The tick returns Success (Failure) exactly
    when no such other result came and the cursor is at the count; when
    the scan stops without one, the slot under the cursor is null and the
    result is Error. *)
Theorem composite_child_results fuel a n m adv :
  tree_ok rk (heap m) -> heap m !! a = Some n ->
  (type n = BT_SEQUENCE /\ adv = BT_SUCCESS \/
   type n = BT_SELECTOR /\ adv = BT_FAILURE) ->
  rk a < fuel ->
  exists r m' d n',
    bt_tick tick_code hook_code fuel (Some a) m = Done r m' /\
    trace m' = trace m ++ d /\ heap m' !! a = Some n' /\
    (first_slot n <= current_child n')%N /\
    (r = adv ->
       rets_of a d
       = (fun j => (j, adv)) <$> slot_range (first_slot n) (current_child n') /\
       (children_count n <= current_child n')%N) /\
    (r <> adv ->
       (current_child n' < children_count n)%N /\
       (rets_of a d
        = ((fun j => (j, adv)) <$> slot_range (first_slot n) (current_child n'))
            ++ [(current_child n', r)] /\
        is_Some (child_ref n (current_child n')) \/
        rets_of a d
        = (fun j => (j, adv)) <$> slot_range (first_slot n) (current_child n') /\
        r = BT_ERROR /\ child_ref n (current_child n') = None)).
Proof.
  intros Hok Ha Hkind Hfuel.
  destruct (bt_tick_composite fuel a n m adv Hok Ha Hkind Hfuel)
    as (r & m' & Hrun & _ & Hpost).
  destruct Hpost as (l & cur & n' & Hscan & Htr & Ha' & _ & _ & Hcur & _).
  assert (Hadv : adv <> BT_ERROR) by (destruct Hkind as [[_ ->] | [_ ->]]; discriminate).
  destruct (scan_trace_rets adv a n _ l r cur Hscan Hadv) as (Hle & Hrets & Hr & Hnr).
  fold (first_slot n) in Hle, Hrets.
  assert (Hd : rets_of a (enter_events a n (negb (is_running (status n)))
                            ++ l ++ exit_events a n r) = rets_of a l).
  { rewrite !rets_of_app, rets_of_enter, rets_of_exit, app_nil_r; reflexivity. }
  exists r, m', (enter_events a n (negb (is_running (status n)))
                   ++ l ++ exit_events a n r), n'.
  split; [exact Hrun |]; split; [exact Htr |].
  split; [exact Ha' |]; rewrite Hd, Hcur.
  split; [exact Hle |]; split.
  - intros He; split; [| apply Hr; exact He].
    rewrite Hrets; destruct (decide (r = adv)); [apply app_nil_r | contradiction].
  - intros Hne; destruct (Hnr Hne) as [Hlt Hnull]; split; [exact Hlt |].
    rewrite Hrets; destruct (decide (r = adv)); [contradiction |].
    destruct (child_ref n cur) as [c |] eqn:Hc.
    + left; split; [reflexivity | eauto].
    + right; split; [apply app_nil_r | split; [apply Hnull; reflexivity | reflexivity]].
Qed.

(** ** The status a tick leaves in the node *)

Lemma has_one_child_dec n : has_one_child n \/ ~ has_one_child n.
Proof.
  unfold has_one_child.
  destruct (N.eq_dec (children_count n) UINT16_ONE) as [Hn | Hn];
    [| right; tauto].
  destruct (child_ref n 0) as [c |]; [left; eauto | right].
  intros [_ [c Hc]]; discriminate.
Qed.

(** X15.  After a tick the node's status is the result the tick returned,
    for every node but one kind: an Inverter that lacks its one child.
    Its tick returns Error and leaves the node's record, status included,
    exactly as it was. *)
Theorem stored_status_after_tick fuel a n m :
  tree_ok rk (heap m) -> heap m !! a = Some n -> rk a < fuel ->
  exists r m' n',
    bt_tick tick_code hook_code fuel (Some a) m = Done r m' /\
    heap m' !! a = Some n' /\
    ((type n = BT_INVERTER -> has_one_child n) -> status n' = r) /\
    (type n = BT_INVERTER -> ~ has_one_child n -> r = BT_ERROR /\ n' = n).
Proof.
  intros Hok Ha Hfuel.
  destruct (decide (type n = BT_INVERTER)) as [Hty | Hty].
  - destruct (has_one_child_dec n) as [Hone | Hnone].
    + destruct (tick_status_is_result fuel a n m Hok Ha (fun _ => Hone) Hfuel)
        as (r & m' & n' & Hrun & Ha' & Hst).
      exists r, m', n'; split; [exact Hrun |]; split; [exact Ha' |].
      split; [intros _; exact Hst | intros _ Hno; contradiction].
    + destruct (bt_tick_inverter_no_child fuel a n m Hok Ha Hty Hnone)
        as (w & d & Hrun & _); [lia |].
      eexists _, _, n; split; [exact Hrun |]; cbn [heap].
      split; [exact Ha |].
      split; [intros Hone; exfalso; apply Hnone, Hone, Hty | auto].
  - destruct (tick_status_is_result fuel a n m Hok Ha) as
      (r & m' & n' & Hrun & Ha' & Hst); [intros H; contradiction | exact Hfuel |].
    exists r, m', n'; split; [exact Hrun |]; split; [exact Ha' |].
    split; [intros _; exact Hst | intros H; contradiction].
Qed.

(** ** The user state along a tick *)

Lemma bt_call_enter_exact a n m :
  heap m !! a = Some n ->
  bt_call_enter hook_code (Some a) m
  = Done tt (mk_machine (heap m)
               (hook_world hook_code (heap m) (on_enter n) a (world m))
               (trace m ++ enter_events a n true)).
Proof.
  intros Ha; unfold bt_call_enter, enter_events, hook_world.
  rewrite (bind_done _ _ _ _ _ (load_done _ _ _ Ha)).
  destruct (on_enter n) as [f |].
  - rewrite (bind_done _ _ _ _ _ (log_done _ _)), call_hook_done; reflexivity.
  - unfold ret; rewrite app_nil_r; destruct m; reflexivity.
Qed.

Lemma bt_call_exit_exact a n m :
  heap m !! a = Some n ->
  bt_call_exit hook_code (Some a) m
  = Done tt (mk_machine (heap m)
               (hook_world hook_code (heap m) (on_exit n) a (world m))
               (trace m ++ match on_exit n with
                           | Some _ => [EvExit a (status n)]
                           | None => []
                           end)).
Proof.
  intros Ha; unfold bt_call_exit, hook_world.
  rewrite (bind_done _ _ _ _ _ (load_done _ _ _ Ha)).
  destruct (on_exit n) as [f |].
  - rewrite (bind_done _ _ _ _ _ (log_done _ _)), call_hook_done; reflexivity.
  - unfold ret; rewrite app_nil_r; destruct m; reflexivity.
Qed.

Lemma inverter_entry_exact a n m :
  heap m !! a = Some n ->
  (if is_running (status n) then ret tt else bt_call_enter hook_code (Some a)) m
  = Done tt (mk_machine (heap m)
               (if is_running (status n) then world m
                else hook_world hook_code (heap m) (on_enter n) a (world m))
               (trace m ++ enter_events a n (negb (is_running (status n))))).
Proof.
  intros Ha; destruct (is_running (status n)); cbn [negb].
  - unfold ret, enter_events; rewrite app_nil_r; destruct m; reflexivity.
  - apply bt_call_enter_exact; exact Ha.
Qed.

Lemma bt_tick_inverter_missing_exact rec a n m :
  heap m !! a = Some n -> node_ok n ->
  children_count n = UINT16_ONE -> child_ref n 0 = None ->
  bt_tick_inverter hook_code rec (Some a) m
  = Done BT_ERROR
      (mk_machine (heap m)
         (if is_running (status n) then world m
          else hook_world hook_code (heap m) (on_enter n) a (world m))
         (trace m ++ enter_events a n (negb (is_running (status n))))).
Proof.
  intros Ha Hnode Hn Hc; unfold bt_tick_inverter.
  rewrite (bind_done _ _ _ _ _ (load_done _ _ _ Ha)).
  rewrite Hn; cbn [N.eqb Pos.eqb UINT16_ONE negb].
  rewrite (bind_done _ _ _ _ _ (bt_child_at_done a n _ m Ha Hnode)).
  unfold UINT16_ZERO; rewrite Hc.
  rewrite (bind_done _ _ _ _ _ (inverter_entry_exact a n m Ha)); reflexivity.
Qed.

(** The machine in which an Inverter ticks its child. *)
Lemma bt_tick_inverter_exact rec a n c m :
  rec_ok rk rec (rk a) -> tree_ok rk (heap m) -> heap m !! a = Some n ->
  children_count n = UINT16_ONE -> child_ref n 0 = Some c ->
  exists cs m2,
    rec (Some c)
      (mk_machine (heap m)
         (if is_running (status n) then world m
          else hook_world hook_code (heap m) (on_enter n) a (world m))
         ((trace m ++ enter_events a n (negb (is_running (status n))))
            ++ [EvChild a 0]))
    = Done cs m2 /\
    heap m2 !! a = Some n /\
    frame_post rk c
      (mk_machine (heap m)
         (if is_running (status n) then world m
          else hook_world hook_code (heap m) (on_enter n) a (world m))
         ((trace m ++ enter_events a n (negb (is_running (status n))))
            ++ [EvChild a 0])) m2 /\
    bt_tick_inverter hook_code rec (Some a) m
    = Done (invert cs)
        (mk_machine (<[a := set_status n (invert cs)]> (heap m2))
           (if is_terminal (invert cs)
            then hook_world hook_code (<[a := set_status n (invert cs)]> (heap m2))
                   (on_exit n) a (world m2)
            else world m2)
           (trace m2 ++ EvRet a 0 cs :: exit_events a n (invert cs))).
Proof.
  intros Hrec Hok Ha Hn Hc.
  destruct (Hok a n Ha) as [Hnode Hch]; destruct (Hch 0%N c Hc) as [Hrk Hsome].
  set (m1 := mk_machine (heap m) _ _).
  destruct (Hrec c m1) as (cs & m2 & Hrun & Hpost); [exact Hok | exact Hsome | exact Hrk |].
  pose proof (child_keeps_parent a c m1 m2 n Hok Hrk Hpost Ha) as Ha2.
  exists cs, m2; split; [exact Hrun |]; split; [exact Ha2 |]; split; [exact Hpost |].
  unfold bt_tick_inverter.
  rewrite (bind_done _ _ _ _ _ (load_done _ _ _ Ha)).
  rewrite Hn; cbn [N.eqb Pos.eqb UINT16_ONE negb].
  rewrite (bind_done _ _ _ _ _ (bt_child_at_done a n _ m Ha Hnode)).
  unfold UINT16_ZERO; rewrite Hc.
  rewrite (bind_done _ _ _ _ _ (inverter_entry_exact a n m Ha)),
    (bind_done _ _ _ _ _ (log_done _ _)).
  cbn [heap world trace]; fold m1.
  rewrite (bind_done _ _ _ _ _ Hrun), (bind_done _ _ _ _ _ (log_done _ _)).
  replace (match cs with
           | BT_SUCCESS => BT_FAILURE
           | BT_FAILURE => BT_SUCCESS
           | _ => cs
           end) with (invert cs) by (destruct cs; reflexivity).
  cbv zeta.
  erewrite bind_done by (apply write_status_done; exact Ha2).
  cbn [heap world trace]; unfold exit_events.
  destruct (is_terminal (invert cs)).
  - erewrite bind_done by (apply bt_call_exit_exact; apply lookup_insert_eq).
    unfold ret; cbn [heap world trace on_exit status set_status].
    rewrite <- app_assoc; reflexivity.
  - reflexivity.
Qed.

(** X9.  Two Inverters stacked on a node cancel: a tick of the outer one
    returns, and stores in its status, exactly the result the inner
    Inverter received from its child, whichever of the four it is. *)
Theorem double_inversion fuel a n b nb c m :
  tree_ok rk (heap m) ->
  heap m !! a = Some n -> type n = BT_INVERTER ->
  children_count n = UINT16_ONE -> child_ref n 0 = Some b ->
  heap m !! b = Some nb -> type nb = BT_INVERTER ->
  children_count nb = UINT16_ONE -> child_ref nb 0 = Some c ->
  rk a < fuel ->
  exists r m' d n',
    bt_tick tick_code hook_code fuel (Some a) m = Done r m' /\
    trace m' = trace m ++ d /\
    In (EvRet b 0 r) d /\ In (EvRet a 0 (invert r)) d /\
    heap m' !! a = Some n' /\ status n' = r.
Proof.
  intros Hok Ha Hty Hn Hb Hnb Htyb Hnb1 Hc Hfuel.
  destruct (Hok a n Ha) as [_ Hch]; destruct (Hch 0%N b Hb) as [Hrk _].
  destruct fuel as [| [| fuel]]; [lia | lia |].
  rewrite (dispatch_done _ a n m Ha), Hty.
  assert (Hrec : rec_ok rk (bt_tick_internal tick_code hook_code (S fuel)) (rk a)).
  { eapply rec_ok_weaken; [| apply bt_tick_internal_ok]; lia. }
  assert (Hrecb : rec_ok rk (bt_tick_internal tick_code hook_code fuel) (rk b)).
  { eapply rec_ok_weaken; [| apply bt_tick_internal_ok]; lia. }
  destruct (bt_tick_inverter_exact _ a n b m Hrec Hok Ha Hn Hb)
    as (cs & m2 & Hrun & Ha2 & _ & Hrun_a).
  rewrite Hrun_a; clear Hrun_a.
  set (m1 := mk_machine (heap m) _ _) in Hrun.
  change (bt_tick_internal tick_code hook_code (S fuel) (Some b) m1)
    with (bt_tick tick_code hook_code (S fuel) (Some b) m1) in Hrun.
  rewrite (dispatch_done _ b nb m1 Hnb), Htyb in Hrun.
  destruct (bt_tick_inverter_exact _ b nb c m1 Hrecb Hok Hnb Hnb1 Hc)
    as (cs' & m3 & _ & _ & Hpost & Hrun_b).
  rewrite Hrun_b in Hrun; injection Hrun; intros Hm2 Hcs; clear Hrun_b Hrun.
  destruct Hpost as (_ & _ & _ & dc & Htr3 & _).
  assert (Hinv : invert cs = cs') by (rewrite <- Hcs; destruct cs'; reflexivity).
  rewrite Hinv.
  eexists cs', _, _, _; split; [reflexivity |]; cbn [heap trace].
  rewrite <- Hm2; cbn [trace]; rewrite Htr3; subst m1; cbn [trace].
  split; [repeat rewrite <- app_assoc; reflexivity |].
  split; [rewrite ?in_app_iff; cbn; rewrite ?in_app_iff; cbn; auto 12 |].
  split; [rewrite ?in_app_iff; cbn; rewrite ?in_app_iff; cbn; rewrite <- Hcs; auto 12 |].
  split; [apply lookup_insert_eq | reflexivity].
Qed.

Lemma spec_stop_exact a n i st m :
  heap m !! a = Some n ->
  spec_stop hook_code a i st m
  = Done st
      (mk_machine (<[a := set_status (set_current_child n i) st]> (heap m))
         (if is_terminal st
          then hook_world hook_code
                 (<[a := set_status (set_current_child n i) st]> (heap m))
                 (on_exit n) a (world m)
          else world m)
         (trace m ++ exit_events a n st)).
Proof.
  intros Ha; unfold spec_stop.
  rewrite (bind_done _ _ _ _ _ (write_current_child_done a n i m Ha)).
  erewrite bind_done; [| apply write_status_done; apply lookup_insert_eq].
  cbn [heap world trace]; rewrite insert_insert_eq.
  unfold exit_events; destruct (is_terminal st).
  - erewrite bind_done by (apply bt_call_exit_exact; apply lookup_insert_eq).
    reflexivity.
  - unfold bind, ret; rewrite app_nil_r; reflexivity.
Qed.

Lemma spec_exhausted_exact a n st m :
  heap m !! a = Some n -> is_terminal st = true ->
  spec_exhausted hook_code a st m
  = Done st
      (mk_machine (<[a := set_status n st]> (heap m))
         (hook_world hook_code (<[a := set_status n st]> (heap m))
            (on_exit n) a (world m))
         (trace m ++ exit_events a n st)).
Proof.
  intros Ha Ht; unfold spec_exhausted.
  rewrite (bind_done _ _ _ _ _ (write_status_done a n st m Ha)).
  erewrite bind_done by (apply bt_call_exit_exact; apply lookup_insert_eq).
  unfold exit_events; rewrite Ht; reflexivity.
Qed.

Lemma spec_entry_exact a n m :
  heap m !! a = Some n -> status n <> BT_RUNNING ->
  spec_entry hook_code a m
  = Done tt
      (mk_machine (<[a := set_current_child n 0]> (heap m))
         (hook_world hook_code (<[a := set_current_child n 0]> (heap m))
            (on_enter n) a (world m))
         (trace m ++ enter_events a n true)).
Proof.
  intros Ha Hst; unfold spec_entry.
  rewrite (bind_done _ _ _ _ _ (load_done _ _ _ Ha)).
  destruct (decide (status n = BT_RUNNING)) as [Hrun | _]; [contradiction |].
  erewrite bind_done by (apply write_current_child_done; exact Ha).
  exact (bt_call_enter_exact a (set_current_child n 0)
           (mk_machine (<[a := set_current_child n 0]> (heap m)) (world m) (trace m))
           (lookup_insert_eq _ _ _)).
Qed.

Lemma no_node_running_insert (h : gmap addr bt_node_t) a n :
  no_node_running h -> status n <> BT_RUNNING -> no_node_running (<[a := n]> h).
Proof.
  intros Hh Hn b nb Hb; destruct (decide (a = b)) as [<- | Hne].
  - rewrite lookup_insert_eq in Hb; injection Hb as <-; exact Hn.
  - rewrite lookup_insert_ne in Hb by exact Hne; exact (Hh b nb Hb).
Qed.

Lemma value_scan_static (v : addr -> W -> bt_status_t * W) adv n n' todo :
  static n' = static n ->
  forall i w, value_scan v adv n' todo i w = value_scan v adv n todo i w.
Proof.
  intros Hs; induction todo as [| todo IH]; intros i w; cbn [value_scan];
    [reflexivity |].
  rewrite (static_child_ref n n' i Hs).
  destruct (child_ref n i) as [c |]; [| reflexivity].
  destruct (decide (fst (v c w) = adv)); [apply IH | reflexivity].
Qed.

Lemma not_running_terminal r : r <> BT_RUNNING -> is_terminal r = true.
Proof. destruct r; cbn; congruence. Qed.

Lemma not_running_fresh r : r <> BT_RUNNING -> is_running r = false.
Proof. destruct r; cbn; congruence. Qed.

(** ** Trees whose leaves never report Running *)

Section ReactiveTicking.

Hypothesis Hstatic : callbacks_read_static tick_code hook_code.
Hypothesis Hnr : callbacks_never_running tick_code.
Variable h0 : gmap addr bt_node_t.

Lemma hook_world_frame h f a w :
  heap_frame h0 h ->
  hook_world hook_code h f a w = hook_world hook_code h0 f a w.
Proof.
  intros Hf; unfold hook_world; destruct f as [g |]; [| reflexivity].
  apply (proj2 Hstatic); exact Hf.
Qed.

Lemma value_rec_weaken (rec : ptr -> M W bt_status_t) fuel b b' :
  b' <= b ->
  value_rec tick_code hook_code h0 rk rec fuel b ->
  value_rec tick_code hook_code h0 rk rec fuel b'.
Proof.
  intros Hle H c m Hok Hcalm Hfr Hc Hlt; apply H; try assumption; lia.
Qed.

Lemma spec_scan_value adv rec fuel a n :
  value_rec tick_code hook_code h0 rk rec fuel (rk a) ->
  adv = BT_SUCCESS \/ adv = BT_FAILURE ->
  forall todo i m na,
    tree_ok rk (heap m) -> no_node_running (heap m) -> heap_frame h0 (heap m) ->
    heap m !! a = Some na -> static na = static n ->
    todo = N.to_nat (children_count n - i) ->
    exists r m',
      spec_scan hook_code rec adv a n todo i m = Done r m' /\
      r = fst (value_scan (tree_value tick_code hook_code h0 fuel) adv n todo i (world m)) /\
      world m'
      = hook_world hook_code h0 (on_exit n) a
          (snd (value_scan (tree_value tick_code hook_code h0 fuel) adv n todo i (world m))) /\
      r <> BT_RUNNING /\ no_node_running (heap m').
Proof.
  intros Hrec Hadv todo.
  assert (Hadv_t : is_terminal adv = true) by (destruct Hadv as [-> | ->]; reflexivity).
  assert (Hadv_r : adv <> BT_RUNNING) by (destruct Hadv as [-> | ->]; discriminate).
  induction todo as [| todo IH]; intros i m na Hok Hcalm Hfr Ha Hs Htodo;
    cbn [spec_scan value_scan].
  - rewrite (spec_exhausted_exact a na adv m Ha Hadv_t).
    eexists _, _; split; [reflexivity |]; cbn [heap world fst snd].
    split; [reflexivity |].
    split.
    + rewrite hook_world_frame, (static_on_exit n na Hs); [reflexivity |].
      eapply heap_frame_trans; [exact Hfr |].
      eapply heap_frame_insert; [exact Ha | reflexivity].
    + split; [exact Hadv_r |].
      apply no_node_running_insert; [exact Hcalm | exact Hadv_r].
  - destruct (Hok a na Ha) as [Hnode Hch].
    destruct (child_ref n i) as [c |] eqn:Hc.
    + assert (Hc' : child_ref na i = Some c)
        by (rewrite (static_child_ref n na i Hs); exact Hc).
      destruct (Hch i c Hc') as [Hrk Hsome].
      destruct (Hrec c (mk_machine (heap m) (world m) (trace m ++ [EvChild a i])))
        as (cs & m2 & Hrun & Hpost & Hval & Hcs & Hcalm2);
        [exact Hok | exact Hcalm | exact Hfr | exact Hsome | exact Hrk |].
      pose proof (child_keeps_parent a c (mk_machine _ _ _) m2 na Hok Hrk Hpost Ha) as Ha2.
      destruct Hpost as (Hf2 & _); cbn [heap world trace] in *.
      assert (Hok2 : tree_ok rk (heap m2)) by exact (tree_ok_frame _ _ _ Hf2 Hok).
      assert (Hfr2 : heap_frame h0 (heap m2))
        by (eapply heap_frame_trans; eassumption).
      rewrite (bind_done _ _ _ _ _ (log_done _ _)), (bind_done _ _ _ _ _ Hrun),
        (bind_done _ _ _ _ _ (log_done _ _)).
      rewrite <- Hval; cbn [fst snd].
      destruct (decide (cs = adv)) as [He | Hne].
      * erewrite bind_done by (apply write_current_child_done; exact Ha2).
        cbn [heap world trace].
        apply (IH (i + 1)%N
                 (mk_machine (<[a := set_current_child na (i + 1)]> (heap m2))
                    (world m2) (trace m2 ++ [EvRet a i cs]))
                 (set_current_child na (i + 1))); cbn [heap].
        -- eapply tree_ok_insert; [exact Hok2 | exact Ha2 | reflexivity].
        -- apply no_node_running_insert; [exact Hcalm2 |].
           exact (Hcalm2 a na Ha2).
        -- eapply heap_frame_trans; [exact Hfr2 |].
           eapply heap_frame_insert; [exact Ha2 | reflexivity].
        -- apply lookup_insert_eq.
        -- exact Hs.
        -- pose proof (loop_budget_enough n i) as _; lia.
      * rewrite (spec_stop_exact a na i cs
                   (mk_machine (heap m2) (world m2) (trace m2 ++ [EvRet a i cs])) Ha2).
        eexists _, _; split; [reflexivity |]; cbn [heap world trace fst snd].
        split; [reflexivity |].
        rewrite (not_running_terminal cs Hcs).
        split.
        -- rewrite hook_world_frame, (static_on_exit n na Hs); [reflexivity |].
           eapply heap_frame_trans; [exact Hfr2 |].
           eapply heap_frame_insert; [exact Ha2 | reflexivity].
        -- split; [exact Hcs |].
           apply no_node_running_insert; [exact Hcalm2 | exact Hcs].
    + rewrite (spec_stop_exact a na i BT_ERROR m Ha).
      eexists _, _; split; [reflexivity |]; cbn [heap world trace fst snd is_terminal].
      split; [reflexivity |].
      split.
      * rewrite hook_world_frame, (static_on_exit n na Hs); [reflexivity |].
        eapply heap_frame_trans; [exact Hfr |].
        eapply heap_frame_insert; [exact Ha | reflexivity].
      * split; [discriminate |].
        apply no_node_running_insert; [exact Hcalm | discriminate].
Qed.

Lemma spec_composite_value adv rec fuel a n m :
  value_rec tick_code hook_code h0 rk rec fuel (rk a) ->
  adv = BT_SUCCESS \/ adv = BT_FAILURE ->
  tree_ok rk (heap m) -> no_node_running (heap m) -> heap_frame h0 (heap m) ->
  heap m !! a = Some n ->
  exists r m',
    spec_composite hook_code rec adv a m = Done r m' /\
    (r, world m')
    = value_composite hook_code h0 (tree_value tick_code hook_code h0 fuel) adv a n
        (world m) /\
    r <> BT_RUNNING /\ no_node_running (heap m').
Proof.
  intros Hrec Hadv Hok Hcalm Hfr Ha.
  pose proof (Hcalm a n Ha) as Hst.
  unfold spec_composite.
  rewrite (bind_done _ _ _ _ _ (spec_entry_exact a n m Ha Hst)).
  erewrite bind_done by (apply load_done; cbn [heap]; apply lookup_insert_eq).
  cbn [children_count current_child set_current_child].
  assert (Hfr1 : heap_frame h0 (<[a := set_current_child n 0]> (heap m))).
  { eapply heap_frame_trans; [exact Hfr |].
    eapply heap_frame_insert; [exact Ha | reflexivity]. }
  edestruct (spec_scan_value adv rec fuel a (set_current_child n 0) Hrec Hadv
               (N.to_nat (children_count n - 0)) 0%N
               (mk_machine (<[a := set_current_child n 0]> (heap m))
                  (hook_world hook_code (<[a := set_current_child n 0]> (heap m))
                     (on_enter n) a (world m))
                  (trace m ++ enter_events a n true)))
    as (r & m' & Hrun & Hr & Hw & Hnr' & Hcalm'); cbn [heap world trace].
  - eapply tree_ok_insert; [exact Hok | exact Ha | reflexivity].
  - apply no_node_running_insert; [exact Hcalm | exact Hst].
  - exact Hfr1.
  - apply lookup_insert_eq.
  - reflexivity.
  - reflexivity.
  - exists r, m'; split; [exact Hrun |].
    split; [| split; assumption].
    cbn [heap world trace] in Hr, Hw.
    rewrite (hook_world_frame _ _ _ _ Hfr1) in Hr, Hw.
    rewrite (value_scan_static _ adv n (set_current_child n 0)) in Hr, Hw by reflexivity.
    rewrite N.sub_0_r in Hr, Hw.
    unfold value_composite; cbn [on_exit set_current_child] in Hw.
    rewrite Hr, Hw; reflexivity.
Qed.

Lemma bt_tick_value fuel :
  value_rec tick_code hook_code h0 rk (bt_tick_internal tick_code hook_code fuel)
    fuel fuel.
Proof.
  induction fuel as [| fuel IH]; intros c m Hok Hcalm Hfr [n Hn] Hlt; [lia |].
  destruct (bt_tick_internal_ok (S fuel) c m Hok (ex_intro _ n Hn) Hlt)
    as (r & m' & Hrun & Hpost).
  exists r, m'; split; [exact Hrun |]; split; [exact Hpost |].
  change (bt_tick_internal tick_code hook_code (S fuel) (Some c) m)
    with (bt_tick tick_code hook_code (S fuel) (Some c) m) in Hrun.
  rewrite (dispatch_done fuel c n m Hn) in Hrun.
  destruct (heap_frame_lookup _ _ _ _ (heap_frame_sym _ _ Hfr) Hn) as (n0 & Hn0 & Hs0).
  pose proof (proj1 (static_fields n n0) Hs0) as Hsame; unfold same_fields in Hsame.
  destruct Hsame as (Hty0 & Htick0 & _ & Hcount0 & _).
  assert (Hrec : value_rec tick_code hook_code h0 rk
                   (bt_tick_internal tick_code hook_code fuel) fuel (rk c)).
  { eapply value_rec_weaken; [| exact IH]; lia. }
  assert (Hrec' : rec_ok rk (bt_tick_internal tick_code hook_code fuel) (rk c)).
  { eapply rec_ok_weaken; [| apply bt_tick_internal_ok]; lia. }
  assert (Hleaf :
    bt_tick_leaf tick_code (Some c) m = Done r m' ->
    value_post tick_code hook_code h0 (S fuel) c m r m' \/
    (type n <> BT_ACTION /\ type n <> BT_CONDITION)).
  { intros Hl; destruct (decide (type n = BT_ACTION \/ type n = BT_CONDITION))
      as [Hty | Hty]; [left | right; tauto].
    unfold value_post; cbn [tree_value]; rewrite Hn0, Hty0, Htick0.
    destruct (tick n) as [f |] eqn:Hf.
    - rewrite (bt_tick_leaf_exact c n f m Hn Hf) in Hl.
      injection Hl; intros <- <-; cbn [heap world].
      destruct (proj1 Hstatic f c h0 (heap m) (world m) Hfr) as [H1 H2].
      split; [destruct Hty as [-> | ->]; rewrite H1, H2; reflexivity |].
      split; [apply Hnr |].
      apply no_node_running_insert; [exact Hcalm | apply Hnr].
    - rewrite (bt_tick_leaf_null c n m Hn Hf) in Hl.
      injection Hl; intros <- <-; cbn [heap world].
      split; [destruct Hty as [-> | ->]; reflexivity |].
      split; [discriminate |].
      apply no_node_running_insert; [exact Hcalm | discriminate]. }
  assert (Hcomp : forall adv,
    adv = BT_SUCCESS \/ adv = BT_FAILURE ->
    spec_composite hook_code (bt_tick_internal tick_code hook_code fuel) adv c m
    = Done r m' ->
    (r, world m')
    = value_composite hook_code h0 (tree_value tick_code hook_code h0 fuel) adv c n0
        (world m) /\
    r <> BT_RUNNING /\ no_node_running (heap m')).
  { intros adv Hadv Hc.
    destruct (spec_composite_value adv _ fuel c n m Hrec Hadv Hok Hcalm Hfr Hn)
      as (r2 & m2 & Hrun2 & Hval & Hr2 & Hcalm2).
    rewrite Hrun2 in Hc; injection Hc; intros <- <-.
    split; [| split; assumption].
    rewrite Hval; unfold value_composite.
    rewrite (value_scan_static _ adv n n0) by exact Hs0.
    rewrite (static_on_enter n n0 Hs0), (static_on_exit n n0 Hs0), Hcount0.
    reflexivity. }
  destruct (type n) eqn:Hty.
  - destruct (Hleaf Hrun) as [H | [H _]]; [exact H | congruence].
  - destruct (Hleaf Hrun) as [H | [_ H]]; [exact H | congruence].
  - rewrite (bt_tick_sequence_refines _ c n m Hrec' Hok Hn), spec_sequence_composite in Hrun.
    unfold value_post; cbn [tree_value]; rewrite Hn0, Hty0.
    apply Hcomp; [left; reflexivity | exact Hrun].
  - rewrite (bt_tick_selector_refines _ c n m Hrec' Hok Hn), spec_selector_composite in Hrun.
    unfold value_post; cbn [tree_value]; rewrite Hn0, Hty0.
    apply Hcomp; [right; reflexivity | exact Hrun].
  - unfold value_post; cbn [tree_value]; rewrite Hn0, Hty0, Hcount0.
    destruct (Hok c n Hn) as [Hnode _].
    pose proof (Hcalm c n Hn) as Hst.
    destruct (children_count n =? UINT16_ONE)%N eqn:Hone.
    + apply N.eqb_eq in Hone.
      rewrite (static_child_ref n n0 0 Hs0), (static_on_enter n n0 Hs0),
        (static_on_exit n n0 Hs0).
      destruct (child_ref n 0) as [b |] eqn:Hb.
      * destruct (bt_tick_inverter_exact _ c n b m Hrec' Hok Hn Hone Hb)
          as (cs & m2 & Hrunb & Hc2 & Hpostb & Hrunc).
        rewrite Hrunc in Hrun; injection Hrun; intros <- <-; clear Hrunc.
        rewrite (not_running_fresh _ Hst) in Hrunb, Hpostb.
        destruct (Hok c n Hn) as [_ Hch]; destruct (Hch 0%N b Hb) as [Hrk Hsome].
        match type of Hrunb with
        | _ ?x = _ =>
            destruct (Hrec b x Hok Hcalm Hfr Hsome Hrk)
              as (cs' & m2' & Hrunb' & _ & Hval & Hcs & Hcalm2)
        end.
        rewrite Hrunb in Hrunb'; injection Hrunb'; intros <- <-.
        cbn [heap world trace] in Hval.
        rewrite (hook_world_frame _ _ _ _ Hfr) in Hval.
        rewrite <- Hval; cbn [fst snd heap world].
        assert (Hinv : invert cs <> BT_RUNNING) by (destruct cs; cbn; congruence).
        rewrite (not_running_terminal _ Hinv).
        destruct Hpostb as (Hf2 & _); cbn [heap] in Hf2.
        split.
        -- rewrite hook_world_frame; [reflexivity |].
           eapply heap_frame_trans; [exact Hfr |].
           eapply heap_frame_trans; [exact Hf2 |].
           eapply heap_frame_insert; [exact Hc2 | reflexivity].
        -- split; [exact Hinv |].
           apply no_node_running_insert; [exact Hcalm2 | exact Hinv].
      * rewrite (bt_tick_inverter_missing_exact _ c n m Hn Hnode Hone Hb) in Hrun.
        injection Hrun; intros <- <-; cbn [heap world].
        rewrite (not_running_fresh _ Hst), (hook_world_frame _ _ _ _ Hfr).
        split; [reflexivity |]; split; [discriminate | exact Hcalm].
    + apply N.eqb_neq in Hone.
      rewrite (bt_tick_inverter_invalid _ c n m Hn Hone) in Hrun.
      injection Hrun; intros <- <-.
      split; [reflexivity |]; split; [discriminate | exact Hcalm].
  - rewrite (write_error_done c n m Hn) in Hrun.
    injection Hrun; intros <- <-; cbn [heap world].
    unfold value_post; cbn [tree_value heap world]; rewrite Hn0, Hty0.
    split; [reflexivity |]; split; [discriminate |].
    apply no_node_running_insert; [exact Hcalm | discriminate].
Qed.

(** X10.  When no callback ever reports Running and the callbacks look at
    nothing of the node store but fields the engine does not write, a tick
    has no memory: on a store in which no node is Running, the result of a
    tick and the user state it leaves are the value of the tree, computed
    by recursion over the children arrays, a Sequence being its first
    child result other than Success and a Selector its first child result
    other than Failure, whatever statuses and cursors earlier ticks have
    left.  The result is never Running, and no node is left Running, so
    the same holds for the next tick. *)
Theorem reactive_tick fuel a m :
  tree_ok rk (heap m) -> no_node_running (heap m) -> heap_frame h0 (heap m) ->
  is_Some (heap m !! a) -> rk a < fuel ->
  exists r m',
    bt_tick tick_code hook_code fuel (Some a) m = Done r m' /\
    (r, world m') = tree_value tick_code hook_code h0 fuel a (world m) /\
    r <> BT_RUNNING /\ no_node_running (heap m') /\
    tree_ok rk (heap m') /\ heap_frame h0 (heap m').
Proof.
  intros Hok Hcalm Hfr Ha Hfuel.
  destruct (bt_tick_value fuel a m Hok Hcalm Hfr Ha Hfuel)
    as (r & m' & Hrun & Hpost & Hval & Hr & Hcalm').
  exists r, m'.
  split; [destruct fuel; [lia | exact Hrun] |].
  split; [exact Hval |]; split; [exact Hr |]; split; [exact Hcalm' |].
  destruct Hpost as (Hf & _).
  split; [exact (tree_ok_frame _ _ _ Hf Hok) | eapply heap_frame_trans; eassumption].
Qed.

End ReactiveTicking.

End Ticking.

(** ** The concrete program *)

(** The callbacks of the concrete program return the store they got. *)
Lemma demo_callbacks_keep_nodes :
  callbacks_keep_nodes Demo.tick_code Demo.hook_code.
Proof.
  split; [| reflexivity].
  intros f a h w; unfold Demo.tick_code; cbn [fst snd].
  destruct f as [| [| [| f]]]; try reflexivity.
  destruct (w <? 2); reflexivity.
Defined.

(** Section 8, scenario A: three ticks yield Running, Running, Success,
    and the condition in slot 0 is evaluated on the first tick only. *)
Example scenario_A :
  let m1 := Demo.after 10 Demo.start in
  let m2 := Demo.after 10 m1 in
  (Demo.result 10 Demo.start, Demo.result 10 m1, Demo.result 10 m2)
  = (BT_RUNNING, BT_RUNNING, BT_SUCCESS) /\
  trace (Demo.after 10 m2)
  = [EvEnter 10; EvChild 10 0; EvLeaf 1 BT_SUCCESS; EvRet 10 0 BT_SUCCESS;
     EvChild 10 1; EvLeaf 2 BT_RUNNING; EvRet 10 1 BT_RUNNING;
     EvChild 10 1; EvLeaf 2 BT_RUNNING; EvRet 10 1 BT_RUNNING;
     EvChild 10 1; EvLeaf 2 BT_SUCCESS; EvRet 10 1 BT_SUCCESS;
     EvExit 10 BT_SUCCESS].
Proof. split; vm_compute; reflexivity. Qed.

(** Scenario B: one tick of the Selector yields Success after both
    children were evaluated in order. *)
Example scenario_B :
  Demo.result 11 Demo.start = BT_SUCCESS /\
  Demo.logged 11 Demo.start
  = [EvEnter 11; EvChild 11 0; EvLeaf 3 BT_FAILURE; EvRet 11 0 BT_FAILURE;
     EvChild 11 1; EvLeaf 1 BT_SUCCESS; EvRet 11 1 BT_SUCCESS;
     EvExit 11 BT_SUCCESS].
Proof. split; vm_compute; reflexivity. Qed.

(** Scenario C: a Sequence that reached Success and is ticked again fires
    on_enter again and evaluates from its first child. *)
Example scenario_C :
  let m3 := Demo.after 10 (Demo.after 10 (Demo.after 10 Demo.start)) in
  status (Demo.node 10 m3) = BT_SUCCESS /\
  current_child (Demo.node 10 m3) = 2%N /\
  Demo.logged 10 m3
  = [EvEnter 10; EvChild 10 0; EvLeaf 1 BT_SUCCESS; EvRet 10 0 BT_SUCCESS;
     EvChild 10 1; EvLeaf 2 BT_SUCCESS; EvRet 10 1 BT_SUCCESS;
     EvExit 10 BT_SUCCESS].
Proof. repeat split; vm_compute; reflexivity. Qed.

(** [test_inverter_semantics] and the null root of [test_error_cases]. *)
Example inverter_of_success :
  Demo.result 12 Demo.start = BT_FAILURE /\
  status (Demo.node 12 (Demo.after 12 Demo.start)) = BT_FAILURE.
Proof. split; vm_compute; reflexivity. Qed.

Example null_root (m : machine nat) :
  bt_tick Demo.tick_code Demo.hook_code 20 None m = Done BT_ERROR m.
Proof. reflexivity. Qed.

(** C1, where the code departs from it.  [test_error_cases] builds an
    Inverter with no child and ticks it: [bt_tick] returns [BT_ERROR], and
    the node's status is still the [BT_FAILURE] that [bt_init] stored; the
    on_enter and on_exit hooks stay silent as well. *)
Theorem inverter_without_child_status_stale :
  Demo.tick_at 13 Demo.start = Done BT_ERROR Demo.start /\
  type (Demo.node 13 Demo.start) = BT_INVERTER /\
  status (Demo.node 13 (Demo.after 13 Demo.start)) = BT_FAILURE.
Proof. repeat split; vm_compute; reflexivity. Qed.

(** Scenario A of section 8: Sequence [always Success; progress action]. *)
Lemma sequence_tick_spec_witness :
  exists r m',
    bt_tick Demo.tick_code Demo.hook_code 20 (Some 10) Demo.start = Done r m' /\
    spec_sequence Demo.hook_code
      (bt_tick_internal Demo.tick_code Demo.hook_code (pred 20)) 10 Demo.start
    = Done r m' /\
    composite_post Demo.rk BT_SUCCESS 10 (Demo.node 10 Demo.start) Demo.start r m' /\
    (children_count (Demo.node 10 Demo.start) = 0%N -> r = BT_SUCCESS).
Proof.
  apply (sequence_tick_spec Demo.tick_code Demo.hook_code Demo.rk
           demo_callbacks_keep_nodes 20 10 (Demo.node 10 Demo.start) Demo.start).
  - apply tree_okb_sound; vm_compute; reflexivity.
  - vm_compute; reflexivity.
  - vm_compute; reflexivity.
  - vm_compute; lia.
Defined.

(** Scenario B of section 8: Selector [always Failure; always Success]. *)
Lemma selector_tick_spec_witness :
  exists r m',
    bt_tick Demo.tick_code Demo.hook_code 20 (Some 11) Demo.start = Done r m' /\
    spec_selector Demo.hook_code
      (bt_tick_internal Demo.tick_code Demo.hook_code (pred 20)) 11 Demo.start
    = Done r m' /\
    composite_post Demo.rk BT_FAILURE 11 (Demo.node 11 Demo.start) Demo.start r m' /\
    (children_count (Demo.node 11 Demo.start) = 0%N -> r = BT_FAILURE).
Proof.
  apply (selector_tick_spec Demo.tick_code Demo.hook_code Demo.rk
           demo_callbacks_keep_nodes 20 11 (Demo.node 11 Demo.start) Demo.start).
  - apply tree_okb_sound; vm_compute; reflexivity.
  - vm_compute; reflexivity.
  - vm_compute; reflexivity.
  - vm_compute; lia.
Defined.

(** The tree of [test_inverter_semantics]: Inverter [always Success]. *)
Lemma inverter_tick_spec_witness :
  exists r m',
    bt_tick Demo.tick_code Demo.hook_code 20 (Some 12) Demo.start = Done r m' /\
    (~ has_one_child (Demo.node 12 Demo.start) ->
       r = BT_ERROR /\ heap m' = heap Demo.start /\
       exists d, trace m' = trace Demo.start ++ d /\
                 forall e, In e d -> e = EvEnter 12) /\
    (forall c, children_count (Demo.node 12 Demo.start) = UINT16_ONE ->
       child_ref (Demo.node 12 Demo.start) 0 = Some c ->
       inverter_post Demo.rk
         (bt_tick_internal Demo.tick_code Demo.hook_code (pred 20)) 12 c
         (Demo.node 12 Demo.start) Demo.start r m').
Proof.
  apply (inverter_tick_spec Demo.tick_code Demo.hook_code Demo.rk
           demo_callbacks_keep_nodes 20 12 (Demo.node 12 Demo.start) Demo.start).
  - apply tree_okb_sound; vm_compute; reflexivity.
  - vm_compute; reflexivity.
  - vm_compute; reflexivity.
  - vm_compute; lia.
Defined.

(** Scenario A: the first tick stops on the action in slot 1. *)
Lemma resumption_law_witness :
  Demo.result 10 Demo.start = BT_RUNNING /\
  (exists n1, heap (Demo.after 10 Demo.start) !! 10 = Some n1 /\
              status n1 = BT_RUNNING /\ current_child n1 = 1%N) /\
  exists r2 m2 rest,
    bt_tick Demo.tick_code Demo.hook_code 20 (Some 10) (Demo.after 10 Demo.start)
    = Done r2 m2 /\
    trace m2 = trace (Demo.after 10 Demo.start) ++ EvChild 10 1 :: rest /\
    forall j, In (EvChild 10 j) (EvChild 10 1 :: rest) -> (1 <= j)%N.
Proof.
  apply (resumption_law Demo.tick_code Demo.hook_code Demo.rk
           demo_callbacks_keep_nodes 20 10 (Demo.node 10 Demo.start) Demo.start
           (Demo.result 10 Demo.start)
           (Demo.after 10 Demo.start) (Demo.logged 10 Demo.start) 1%N).
  - apply tree_okb_sound; vm_compute; reflexivity.
  - vm_compute; reflexivity.
  - left; vm_compute; reflexivity.
  - vm_compute; lia.
  - vm_compute; reflexivity.
  - vm_compute; reflexivity.
  - vm_compute; tauto.
Defined.

(** The hooked Sequence of scenario A. *)
Lemma hook_law_holds_witness :
  hook_law Demo.tick_code Demo.hook_code 20 10 Demo.start /\
  exists r m', bt_tick Demo.tick_code Demo.hook_code 20 (Some 10) Demo.start = Done r m'.
Proof.
  apply (hook_law_holds Demo.tick_code Demo.hook_code Demo.rk
           demo_callbacks_keep_nodes 20 10 (Demo.node 10 Demo.start) Demo.start).
  - apply tree_okb_sound; vm_compute; reflexivity.
  - vm_compute; reflexivity.
  - left; vm_compute; reflexivity.
  - vm_compute; lia.
Defined.

(** C6 as stated fails on the Inverter without a child: its tick from a
    fresh state returns the terminal Error, an episode of one tick, and
    fires neither hook, although both are installed. *)
Lemma hook_law_fails_on_childless_inverter :
  hooked_kind (Demo.node 13 Demo.start) /\
  hooks_installed (Demo.node 13 Demo.start) /\
  ~ hook_law Demo.tick_code Demo.hook_code 20 13 Demo.start.
Proof.
  split; [right; right; vm_compute; reflexivity |].
  split; [split; vm_compute; eauto |].
  intros [_ Hepisode].
  specialize (Hepisode (Demo.node 13 Demo.start) 0 BT_ERROR Demo.start []).
  assert (H : hooks_of 13 [] = [EvEnter 13; EvExit 13 BT_ERROR]); [| discriminate H].
  apply Hepisode.
  - vm_compute; reflexivity.
  - split; vm_compute; eauto.
  - vm_compute; discriminate.
  - eapply ticks_cons; [| apply ticks_nil].
    vm_compute; reflexivity.
  - reflexivity.
  - vm_compute; reflexivity.
Qed.

(** The Sequence of scenario A, as [bt_init] and the wiring of its hooks
    left it. *)
Lemma init_then_first_tick_witness :
  exists r m' rest,
    bt_tick Demo.tick_code Demo.hook_code 20 (Some 10) Demo.start = Done r m' /\
    trace m' = trace Demo.start
               ++ enter_events 10 (Demo.node 10 Demo.start) true ++ rest /\
    exists l cur,
      rest = l ++ exit_events 10 (Demo.node 10 Demo.start) r /\
      scan_trace Demo.rk BT_SUCCESS 10 (Demo.node 10 Demo.start) 0 l r cur.
Proof.
  destruct (init_then_first_tick Demo.tick_code Demo.hook_code Demo.rk
              demo_callbacks_keep_nodes 10 BT_SEQUENCE None
              (Some [Some 1; Some 2]) 2 None Demo.leaves)
    as (m1 & _ & _ & _ & _ & _ & Hfirst).
  destruct (Hfirst 20 Demo.start (Some Demo.hk_enter) (Some Demo.hk_exit) None)
    as (r & m' & rest & Hrun & Htr & Hscan).
  - apply tree_okb_sound; vm_compute; reflexivity.
  - vm_compute; reflexivity.
  - left; vm_compute; reflexivity.
  - vm_compute; lia.
  - exists r, m', rest; split; [exact Hrun |]; split; [exact Htr |].
    exact (Hscan BT_SUCCESS (or_introl (conj eq_refl eq_refl))).
Defined.

(** C7 as stated fails twice.  The status [bt_init] stores is Failure, one
    of the terminal values and not a value apart from the four statuses.
    And the first tick of the Inverter without a child, built by [bt_init]
    and wired with an on_enter hook, fires no hook at all. *)
Lemma init_status_is_not_a_sentinel :
  match bt_init (Some 1) BT_CONDITION (Some Demo.cb_true) None 0 None Demo.empty with
  | Done _ m1 =>
      status (Demo.node 1 m1) = BT_FAILURE /\
      ~ status_is_sentinel (status (Demo.node 1 m1))
  | _ => False
  end /\
  Demo.node 13 Demo.start
  = wired (init_node BT_INVERTER None None 0 None)
      (Some Demo.hk_enter) (Some Demo.hk_exit) None /\
  Demo.logged 13 Demo.start = [].
Proof.
  split; [| split; vm_compute; reflexivity].
  cbn; split; [reflexivity |].
  intros (_ & Hf & _); apply Hf; reflexivity.
Qed.

(** Sequence [always Success; always Error; progress action]. *)
Lemma child_error_stops_scan_witness :
  exists r m' d,
    bt_tick Demo.tick_code Demo.hook_code 20 (Some 14) Demo.start = Done r m' /\
    trace m' = trace Demo.start ++ d /\
    forall i, In (EvRet 14 i BT_ERROR) d ->
      r = BT_ERROR /\
      (exists n', heap m' !! 14 = Some n' /\ status n' = BT_ERROR /\
                  current_child n' = i) /\
      forall j, In (EvChild 14 j) d -> (j <= i)%N.
Proof.
  apply (child_error_stops_scan Demo.tick_code Demo.hook_code Demo.rk
           demo_callbacks_keep_nodes 20 14 (Demo.node 14 Demo.start) Demo.start).
  - apply tree_okb_sound; vm_compute; reflexivity.
  - vm_compute; reflexivity.
  - left; vm_compute; reflexivity.
  - vm_compute; lia.
Defined.

(** One tick of the Sequence of scenario A. *)
Lemma cursor_invariant_witness :
  exists r m' n',
    bt_tick Demo.tick_code Demo.hook_code 20 (Some 10) Demo.start = Done r m' /\
    cursors_ok (heap m') /\
    heap m' !! 10 = Some n' /\
    (0 <= current_child n' <= children_count n')%N /\
    (type (Demo.node 10 Demo.start) = BT_SEQUENCE ->
       (current_child n' = children_count n' <-> r = BT_SUCCESS)) /\
    (type (Demo.node 10 Demo.start) = BT_SELECTOR ->
       (current_child n' = children_count n' <-> r = BT_FAILURE)).
Proof.
  apply (proj2 (cursor_invariant Demo.tick_code Demo.hook_code Demo.rk
                  demo_callbacks_keep_nodes)
           20 10 (Demo.node 10 Demo.start) Demo.start).
  - apply tree_okb_sound; vm_compute; reflexivity.
  - apply cursors_okb_sound; vm_compute; reflexivity.
  - vm_compute; reflexivity.
  - vm_compute; lia.
Defined.

(** One tick of the Sequence of scenario A. *)
Lemma tick_frame_property_witness :
  exists r m',
    bt_tick Demo.tick_code Demo.hook_code 20 (Some 10) Demo.start = Done r m' /\
    (forall b,
       match heap Demo.start !! b, heap m' !! b with
       | Some nb, Some nb' => same_fields nb nb'
       | None, None => True
       | _, _ => False
       end) /\
    (forall b, ~ descendant (heap Demo.start) 10 b ->
               heap m' !! b = heap Demo.start !! b).
Proof.
  apply (tick_frame_property Demo.tick_code Demo.hook_code Demo.rk
           demo_callbacks_keep_nodes 20 10 Demo.start).
  - apply tree_okb_sound; vm_compute; reflexivity.
  - vm_compute; eauto.
  - vm_compute; lia.
Defined.

(** ** Computing the value of a tree *)

Section Values.

Context {W : Type}.
Variable tick_code :
  fn_ptr -> addr -> gmap addr bt_node_t * W -> bt_status_t * (gmap addr bt_node_t * W).
Variable hook_code :
  fn_ptr -> addr -> gmap addr bt_node_t * W -> gmap addr bt_node_t * W.
Variable h : gmap addr bt_node_t.

Lemma tree_value_leaf fuel a n f w :
  h !! a = Some n -> type n = BT_ACTION \/ type n = BT_CONDITION ->
  tick n = Some f ->
  tree_value tick_code hook_code h (S fuel) a w
  = (fst (tick_code f a (h, w)), snd (snd (tick_code f a (h, w)))).
Proof.
  intros Ha [Hty | Hty] Hf; cbn [tree_value]; rewrite Ha, Hty, Hf; reflexivity.
Qed.

Lemma tree_value_composite fuel a n adv w :
  h !! a = Some n ->
  (type n = BT_SEQUENCE /\ adv = BT_SUCCESS \/
   type n = BT_SELECTOR /\ adv = BT_FAILURE) ->
  on_enter n = None -> on_exit n = None ->
  tree_value tick_code hook_code h (S fuel) a w
  = value_scan (tree_value tick_code hook_code h fuel) adv n
      (N.to_nat (children_count n)) 0 w.
Proof.
  intros Ha Hk He Hx; cbn [tree_value]; rewrite Ha.
  destruct Hk as [[-> ->] | [-> ->]]; unfold value_composite, hook_world;
    rewrite He, Hx; cbn [fst snd];
    destruct (value_scan _ _ _ _ _ _); reflexivity.
Qed.

Lemma value_scan_step (v : addr -> W -> bt_status_t * W) adv n todo i w c :
  child_ref n i = Some c ->
  value_scan v adv n (S todo) i w
  = if decide (fst (v c w) = adv)
    then value_scan v adv n todo (i + 1) (snd (v c w))
    else v c w.
Proof. intros Hc; cbn [value_scan]; rewrite Hc; reflexivity. Qed.

(** A Sequence of two leaves without hooks: a condition and an action. *)
Lemma tree_value_two_leaves fuel s ns c nc fc a na fa w :
  h !! s = Some ns -> type ns = BT_SEQUENCE ->
  on_enter ns = None -> on_exit ns = None -> children_count ns = 2%N ->
  child_ref ns 0 = Some c -> child_ref ns 1 = Some a ->
  h !! c = Some nc -> type nc = BT_ACTION \/ type nc = BT_CONDITION ->
  tick nc = Some fc ->
  h !! a = Some na -> type na = BT_ACTION \/ type na = BT_CONDITION ->
  tick na = Some fa ->
  tree_value tick_code hook_code h (S (S fuel)) s w
  = if decide (fst (tick_code fc c (h, w)) = BT_SUCCESS)
    then (fst (tick_code fa a (h, snd (snd (tick_code fc c (h, w))))),
          snd (snd (tick_code fa a (h, snd (snd (tick_code fc c (h, w)))))))
    else (fst (tick_code fc c (h, w)), snd (snd (tick_code fc c (h, w)))).
Proof.
  intros Hs Hty He Hx Hn Hc Ha Hnc Htc Hfc Hna Hta Hfa.
  rewrite (tree_value_composite _ s ns BT_SUCCESS w Hs) by auto.
  rewrite Hn; change (N.to_nat 2) with 2.
  rewrite (value_scan_step _ _ _ _ _ _ c Hc).
  rewrite (tree_value_leaf _ c nc fc _ Hnc Htc Hfc); cbn [fst snd].
  destruct (decide (fst (tick_code fc c (h, w)) = BT_SUCCESS)); [| reflexivity].
  change (0 + 1)%N with 1%N.
  rewrite (value_scan_step _ _ _ _ _ _ a Ha).
  rewrite (tree_value_leaf _ a na fa _ Hna Hta Hfa); cbn [fst snd value_scan].
  destruct (decide (fst (tick_code fa a (h, snd (snd (tick_code fc c (h, w)))))
                    = BT_SUCCESS)) as [Hr | Hr]; [rewrite Hr |]; reflexivity.
Qed.

End Values.

Lemma no_node_runningb_sound h : no_node_runningb h = true -> no_node_running h.
Proof.
  unfold no_node_runningb; rewrite List.forallb_forall; intros H b n Hb.
  assert (Hin : In (b, n) (map_to_list h)).
  { apply list_elem_of_In, elem_of_map_to_list; exact Hb. }
  specialize (H _ Hin); cbn [snd] in H.
  destruct (status n); cbn in H; congruence.
Qed.

(** ** What the examples share *)

Lemma int_add_ok x y :
  Example.is_int (x + y) -> Example.int_add x y = Some (x + y)%Z.
Proof.
  unfold Example.is_int, Example.int_add; intros [H1 H2].
  apply Z.leb_le in H1, H2; rewrite H1, H2; reflexivity.
Qed.

Lemma deref_blackboard_at {S : Type} loc (h : gmap addr bt_node_t) a n
    (w : option (S * list Example.printf_call)) :
  h !! a = Some n -> blackboard n = Some loc ->
  Example.deref_blackboard loc h a w = w.
Proof.
  intros Ha Hb; unfold Example.deref_blackboard.
  rewrite Ha, Hb, N.eqb_refl; reflexivity.
Qed.

Lemma deref_blackboard_frame {S : Type} loc (h h' : gmap addr bt_node_t) a
    (w : option (S * list Example.printf_call)) :
  heap_frame h h' ->
  Example.deref_blackboard loc h' a w = Example.deref_blackboard loc h a w.
Proof.
  intros Hf; unfold Example.deref_blackboard; specialize (Hf a).
  destruct (h !! a) as [n |], (h' !! a) as [n' |]; cbn in Hf;
    try discriminate; [| reflexivity].
  assert (Hs : static n' = static n) by congruence.
  apply static_fields in Hs; unfold same_fields in Hs.
  destruct Hs as (_ & _ & _ & _ & _ & _ & _ & _ & Hb); rewrite Hb; reflexivity.
Qed.

Lemma printf_done {S : Type} fmt xs (m : machine (option (S * list Example.printf_call)))
    s out :
  world m = Some (s, out) ->
  Example.printf fmt xs m
  = Done tt (mk_machine (heap m) (Some (s, out ++ [Example.Printf fmt xs])) (trace m)).
Proof. intros Hw; unfold Example.printf; rewrite Hw; reflexivity. Qed.

(** ** [examples/simple_robot.c] *)

Lemma robot_callbacks_keep_nodes :
  callbacks_keep_nodes SimpleRobot.tick_code SimpleRobot.hook_code.
Proof.
  split; [| reflexivity].
  intros f a h w; unfold SimpleRobot.tick_code.
  destruct f as [| [| [| f]]];
    unfold SimpleRobot.check_battery, SimpleRobot.move_forward,
      SimpleRobot.collect_data; cbn [fst snd];
    try reflexivity;
    destruct (Example.deref_blackboard _ _ _ _) as [[st out] |];
    cbn [fst snd]; try reflexivity;
    repeat match goal with
           | |- context [Example.int_add ?x ?y] => destruct (Example.int_add x y)
           end; reflexivity.
Defined.

Lemma robot_callbacks_read_static :
  callbacks_read_static SimpleRobot.tick_code SimpleRobot.hook_code.
Proof.
  split; [| reflexivity].
  intros f a h h' w Hf; unfold SimpleRobot.tick_code.
  destruct f as [| [| [| f]]];
    unfold SimpleRobot.check_battery, SimpleRobot.move_forward,
      SimpleRobot.collect_data; cbn [fst snd];
    rewrite ?(deref_blackboard_frame SimpleRobot.state_loc h h' a w Hf);
    try (split; reflexivity);
    destruct (Example.deref_blackboard _ _ _ _) as [[st out] |];
    cbn [fst snd]; try (split; reflexivity);
    repeat match goal with
           | |- context [Example.int_add ?x ?y] => destruct (Example.int_add x y)
           end; split; reflexivity.
Defined.

Lemma robot_callbacks_never_running :
  callbacks_never_running SimpleRobot.tick_code.
Proof.
  intros f a h w; unfold SimpleRobot.tick_code.
  destruct f as [| [| [| f]]];
    unfold SimpleRobot.check_battery, SimpleRobot.move_forward,
      SimpleRobot.collect_data; cbn [fst snd];
    try discriminate;
    destruct (Example.deref_blackboard _ _ _ _) as [[st out] |];
    cbn [fst snd]; try discriminate;
    repeat match goal with
           | |- context [Example.int_add ?x ?y] => destruct (Example.int_add x y)
           | |- context [(?x <? ?y)%Z] => destruct (x <? y)%Z
           end; discriminate.
Defined.

Lemma robot_tree_nodes :
  SimpleRobot.tree !! SimpleRobot.check_node
  = Some (mk_node BT_CONDITION BT_FAILURE (Some SimpleRobot.fn_check_battery)
            None 0 0 None None 0 None (Some SimpleRobot.state_loc)) /\
  SimpleRobot.tree !! SimpleRobot.move_node
  = Some (mk_node BT_ACTION BT_FAILURE (Some SimpleRobot.fn_move_forward)
            None 0 0 None None 0 None (Some SimpleRobot.state_loc)) /\
  SimpleRobot.tree !! SimpleRobot.collect_node
  = Some (mk_node BT_ACTION BT_FAILURE (Some SimpleRobot.fn_collect_data)
            None 0 0 None None 0 None (Some SimpleRobot.state_loc)) /\
  SimpleRobot.tree !! SimpleRobot.root_node
  = Some (mk_node BT_SEQUENCE BT_FAILURE None (Some SimpleRobot.children)
            3 0 None None 0 None (Some SimpleRobot.state_loc)).
Proof. repeat split; vm_compute; reflexivity. Qed.

Lemma robot_tree_ok : tree_ok SimpleRobot.rk SimpleRobot.tree.
Proof. apply tree_okb_sound; vm_compute; reflexivity. Defined.

Lemma robot_tree_calm : no_node_running SimpleRobot.tree.
Proof. apply no_node_runningb_sound; vm_compute; reflexivity. Defined.

Lemma robot_check_battery st out :
  SimpleRobot.tick_code SimpleRobot.fn_check_battery SimpleRobot.check_node
    (SimpleRobot.tree, Some (st, out))
  = ((if (20 <? SimpleRobot.battery st)%Z then BT_SUCCESS else BT_FAILURE),
     (SimpleRobot.tree,
      Some (st, out ++ [Example.Printf "[check_battery] battery=%d%%\n"
                          [SimpleRobot.battery st]]))).
Proof.
  destruct robot_tree_nodes as (H1 & _).
  unfold SimpleRobot.tick_code, SimpleRobot.fn_check_battery,
    SimpleRobot.check_battery; cbn [fst snd].
  rewrite (deref_blackboard_at SimpleRobot.state_loc SimpleRobot.tree
             SimpleRobot.check_node _ (Some (st, out)) H1 eq_refl).
  reflexivity.
Qed.

Lemma robot_move_forward st out :
  Example.is_int (SimpleRobot.position st + 1) ->
  Example.is_int (SimpleRobot.battery st - 1) ->
  SimpleRobot.tick_code SimpleRobot.fn_move_forward SimpleRobot.move_node
    (SimpleRobot.tree, Some (st, out))
  = (BT_SUCCESS,
     (SimpleRobot.tree,
      Some (SimpleRobot.mk_robot (SimpleRobot.battery st - 1)
              (SimpleRobot.position st + 1) (SimpleRobot.data_collected st),
            out ++ [Example.Printf "[move_forward] position=%d, battery=%d%%\n"
                      [(SimpleRobot.position st + 1)%Z;
                       (SimpleRobot.battery st - 1)%Z]]))).
Proof.
  intros Hp Hb; destruct robot_tree_nodes as (_ & H2 & _).
  unfold SimpleRobot.tick_code, SimpleRobot.fn_move_forward,
    SimpleRobot.move_forward; cbn [fst snd].
  rewrite (deref_blackboard_at SimpleRobot.state_loc SimpleRobot.tree
             SimpleRobot.move_node _ (Some (st, out)) H2 eq_refl).
  rewrite (int_add_ok _ 1 Hp), (int_add_ok _ (-1) Hb); reflexivity.
Qed.

Lemma robot_collect_data st out :
  Example.is_int (SimpleRobot.data_collected st + 1) ->
  Example.is_int (SimpleRobot.battery st - 2) ->
  SimpleRobot.tick_code SimpleRobot.fn_collect_data SimpleRobot.collect_node
    (SimpleRobot.tree, Some (st, out))
  = (BT_SUCCESS,
     (SimpleRobot.tree,
      Some (SimpleRobot.mk_robot (SimpleRobot.battery st - 2)
              (SimpleRobot.position st) (SimpleRobot.data_collected st + 1),
            out ++ [Example.Printf "[collect_data] collected=%d, battery=%d%%\n"
                      [(SimpleRobot.data_collected st + 1)%Z;
                       (SimpleRobot.battery st - 2)%Z]]))).
Proof.
  intros Hd Hb; destruct robot_tree_nodes as (_ & _ & H3 & _).
  unfold SimpleRobot.tick_code, SimpleRobot.fn_collect_data,
    SimpleRobot.collect_data; cbn [fst snd].
  rewrite (deref_blackboard_at SimpleRobot.state_loc SimpleRobot.tree
             SimpleRobot.collect_node _ (Some (st, out)) H3 eq_refl).
  rewrite (int_add_ok _ 1 Hd), (int_add_ok _ (-2) Hb); reflexivity.
Qed.

Lemma robot_value f st out :
  Example.is_int (SimpleRobot.battery st) ->
  Example.is_int (SimpleRobot.position st) ->
  Example.is_int (SimpleRobot.data_collected st) ->
  (SimpleRobot.position st < Example.INT_MAX)%Z ->
  (SimpleRobot.data_collected st < Example.INT_MAX)%Z ->
  tree_value SimpleRobot.tick_code SimpleRobot.hook_code SimpleRobot.tree
    (S (S f)) SimpleRobot.root_node (Some (st, out))
  = if (20 <? SimpleRobot.battery st)%Z
    then (BT_SUCCESS,
          Some (SimpleRobot.mk_robot (SimpleRobot.battery st - 3)
                  (SimpleRobot.position st + 1)
                  (SimpleRobot.data_collected st + 1),
                out ++
                [Example.Printf "[check_battery] battery=%d%%\n"
                   [SimpleRobot.battery st];
                 Example.Printf "[move_forward] position=%d, battery=%d%%\n"
                   [(SimpleRobot.position st + 1)%Z; (SimpleRobot.battery st - 1)%Z];
                 Example.Printf "[collect_data] collected=%d, battery=%d%%\n"
                   [(SimpleRobot.data_collected st + 1)%Z;
                    (SimpleRobot.battery st - 3)%Z]]))
    else (BT_FAILURE,
          Some (st,
                out ++ [Example.Printf "[check_battery] battery=%d%%\n"
                          [SimpleRobot.battery st]])).
Proof.
  intros Hb Hp Hd Hp1 Hd1.
  destruct robot_tree_nodes as (H1 & H2 & H3 & H4).
  unfold Example.is_int, Example.INT_MIN, Example.INT_MAX in *.
  rewrite (tree_value_composite _ _ _ _ _ _ BT_SUCCESS _ H4)
    by (try reflexivity; left; split; reflexivity).
  cbn [children_count]; change (N.to_nat 3) with 3.
  rewrite (value_scan_step _ _ _ _ _ _ SimpleRobot.check_node) by reflexivity.
  rewrite (tree_value_leaf _ _ _ _ _ _ SimpleRobot.fn_check_battery _ H1)
    by (try reflexivity; right; reflexivity).
  rewrite robot_check_battery; cbn [fst snd].
  destruct (20 <? SimpleRobot.battery st)%Z eqn:Hlow;
    [apply Z.ltb_lt in Hlow | reflexivity].
  destruct (decide (BT_SUCCESS = BT_SUCCESS)) as [_ | Hne]; [| congruence].
  change (0 + 1)%N with 1%N.
  rewrite (value_scan_step _ _ _ _ _ _ SimpleRobot.move_node) by reflexivity.
  rewrite (tree_value_leaf _ _ _ _ _ _ SimpleRobot.fn_move_forward _ H2)
    by (try reflexivity; left; reflexivity).
  rewrite robot_move_forward
    by (unfold Example.is_int, Example.INT_MIN, Example.INT_MAX; lia).
  cbn [fst snd].
  destruct (decide (BT_SUCCESS = BT_SUCCESS)) as [_ | Hne]; [| congruence].
  change (1 + 1)%N with 2%N.
  rewrite (value_scan_step _ _ _ _ _ _ SimpleRobot.collect_node) by reflexivity.
  rewrite (tree_value_leaf _ _ _ _ _ _ SimpleRobot.fn_collect_data _ H3)
    by (try reflexivity; left; reflexivity).
  rewrite robot_collect_data
    by (unfold Example.is_int, Example.INT_MIN, Example.INT_MAX;
        cbn [SimpleRobot.battery SimpleRobot.position SimpleRobot.data_collected];
        lia).
  cbn [fst snd value_scan
       SimpleRobot.battery SimpleRobot.position SimpleRobot.data_collected].
  destruct (decide (BT_SUCCESS = BT_SUCCESS)) as [_ | Hne]; [| congruence].
  rewrite <- !app_assoc; cbn [app].
  replace (SimpleRobot.battery st - 1 - 2)%Z with (SimpleRobot.battery st - 3)%Z
    by lia.
  reflexivity.
Qed.

Lemma robot_step fuel (m : machine SimpleRobot.user_state) st out :
  heap_frame SimpleRobot.tree (heap m) -> no_node_running (heap m) ->
  world m = Some (st, out) ->
  Example.is_int (SimpleRobot.battery st) ->
  Example.is_int (SimpleRobot.position st) ->
  Example.is_int (SimpleRobot.data_collected st) ->
  (SimpleRobot.position st < Example.INT_MAX)%Z ->
  (SimpleRobot.data_collected st < Example.INT_MAX)%Z ->
  SimpleRobot.rk SimpleRobot.root_node < fuel ->
  exists r m',
    bt_tick SimpleRobot.tick_code SimpleRobot.hook_code fuel
      (Some SimpleRobot.root_node) m = Done r m' /\
    heap_frame SimpleRobot.tree (heap m') /\ no_node_running (heap m') /\
    (r, world m')
    = if (20 <? SimpleRobot.battery st)%Z
      then (BT_SUCCESS,
            Some (SimpleRobot.mk_robot (SimpleRobot.battery st - 3)
                    (SimpleRobot.position st + 1)
                    (SimpleRobot.data_collected st + 1),
                  out ++
                  [Example.Printf "[check_battery] battery=%d%%\n"
                     [SimpleRobot.battery st];
                   Example.Printf "[move_forward] position=%d, battery=%d%%\n"
                     [(SimpleRobot.position st + 1)%Z; (SimpleRobot.battery st - 1)%Z];
                   Example.Printf "[collect_data] collected=%d, battery=%d%%\n"
                     [(SimpleRobot.data_collected st + 1)%Z;
                      (SimpleRobot.battery st - 3)%Z]]))
      else (BT_FAILURE,
            Some (st,
                  out ++ [Example.Printf "[check_battery] battery=%d%%\n"
                            [SimpleRobot.battery st]])).
Proof.
  intros Hfr Hcalm Hw Hb Hp Hd Hp1 Hd1 Hfuel.
  destruct (bt_tick_value SimpleRobot.tick_code SimpleRobot.hook_code
              SimpleRobot.rk robot_callbacks_keep_nodes
              robot_callbacks_read_static robot_callbacks_never_running
              SimpleRobot.tree fuel SimpleRobot.root_node m)
    as (r & m' & Hrun & (Hfr' & _) & Hval & _ & Hcalm').
  - exact (tree_ok_frame _ _ _ Hfr robot_tree_ok).
  - exact Hcalm.
  - exact Hfr.
  - eapply heap_frame_is_Some; [exact Hfr |].
    rewrite (proj2 (proj2 (proj2 robot_tree_nodes))); eauto.
  - exact Hfuel.
  - exists r, m'; split; [exact Hrun |].
    split; [eapply heap_frame_trans; eassumption |].
    split; [exact Hcalm' |].
    rewrite Hval, Hw.
    unfold SimpleRobot.rk, SimpleRobot.root_node in Hfuel.
    destruct fuel as [| [| fuel]]; [lia | lia |].
    apply robot_value; assumption.
Qed.

(** X11.  [simple_robot.c]: one tick of the robot's tree, in any robot
    state whose counters can still be incremented.  With more than 20
    percent of battery the tick succeeds after all three callbacks ran in
    order: the robot has moved one step, collected one datum and used
    three percent of battery.  Otherwise the tick fails after the check
    alone, and the state is untouched.  Either way the tree is ready for
    the next tick. *)
Theorem robot_tick fuel (m : machine SimpleRobot.user_state) st out :
  heap_frame SimpleRobot.tree (heap m) -> no_node_running (heap m) ->
  world m = Some (st, out) ->
  Example.is_int (SimpleRobot.battery st) ->
  Example.is_int (SimpleRobot.position st) ->
  Example.is_int (SimpleRobot.data_collected st) ->
  (SimpleRobot.position st < Example.INT_MAX)%Z ->
  (SimpleRobot.data_collected st < Example.INT_MAX)%Z ->
  SimpleRobot.rk SimpleRobot.root_node < fuel ->
  exists r m',
    bt_tick SimpleRobot.tick_code SimpleRobot.hook_code fuel
      (Some SimpleRobot.root_node) m = Done r m' /\
    heap_frame SimpleRobot.tree (heap m') /\ no_node_running (heap m') /\
    ((20 < SimpleRobot.battery st)%Z ->
     r = BT_SUCCESS /\
     world m'
     = Some (SimpleRobot.mk_robot (SimpleRobot.battery st - 3)
               (SimpleRobot.position st + 1)
               (SimpleRobot.data_collected st + 1),
             out ++
             [Example.Printf "[check_battery] battery=%d%%\n"
                [SimpleRobot.battery st];
              Example.Printf "[move_forward] position=%d, battery=%d%%\n"
                [(SimpleRobot.position st + 1)%Z; (SimpleRobot.battery st - 1)%Z];
              Example.Printf "[collect_data] collected=%d, battery=%d%%\n"
                [(SimpleRobot.data_collected st + 1)%Z;
                 (SimpleRobot.battery st - 3)%Z]])) /\
    ((SimpleRobot.battery st <= 20)%Z ->
     r = BT_FAILURE /\
     world m'
     = Some (st, out ++ [Example.Printf "[check_battery] battery=%d%%\n"
                           [SimpleRobot.battery st]])).
Proof.
  intros Hfr Hcalm Hw Hb Hp Hd Hp1 Hd1 Hfuel.
  destruct (robot_step fuel m st out Hfr Hcalm Hw Hb Hp Hd Hp1 Hd1 Hfuel)
    as (r & m' & Hrun & Hfr' & Hcalm' & Hres).
  exists r, m'; split; [exact Hrun |]; split; [exact Hfr' |].
  split; [exact Hcalm' |].
  destruct (20 <? SimpleRobot.battery st)%Z eqn:Hlow;
    injection Hres; intros Hw' ->.
  - apply Z.ltb_lt in Hlow; split; [auto | intros Hle; lia].
  - apply Z.ltb_ge in Hlow; split; [intros Hlt; lia | auto].
Qed.

Lemma robot_build st :
  SimpleRobot.build (SimpleRobot.boot st)
  = Done tt (mk_machine SimpleRobot.tree (Some (st, [])) []).
Proof. vm_compute; reflexivity. Qed.

(** X16.  [simple_robot.c]: the whole of [main], for any robot state it
    could start with.  It builds the tree, ticks it once and exits with
    code 0 exactly when the battery was above 20: then the robot has made
    its step, and the report shows status 0 and the new state; otherwise
    the exit code is 1 and the report shows status 1 and the state it
    started with. *)
Theorem robot_main fuel st :
  Example.is_int (SimpleRobot.battery st) ->
  Example.is_int (SimpleRobot.position st) ->
  Example.is_int (SimpleRobot.data_collected st) ->
  (SimpleRobot.position st < Example.INT_MAX)%Z ->
  (SimpleRobot.data_collected st < Example.INT_MAX)%Z ->
  SimpleRobot.rk SimpleRobot.root_node < fuel ->
  exists m',
    SimpleRobot.main fuel (SimpleRobot.boot st)
    = Done (if (20 <? SimpleRobot.battery st)%Z then 0%Z else 1%Z) m' /\
    world m'
    = if (20 <? SimpleRobot.battery st)%Z
      then Some (SimpleRobot.mk_robot (SimpleRobot.battery st - 3)
                   (SimpleRobot.position st + 1)
                   (SimpleRobot.data_collected st + 1),
                 [Example.Printf "=== Simple Robot Example ===\n" [];
                  Example.Printf "[check_battery] battery=%d%%\n"
                    [SimpleRobot.battery st];
                  Example.Printf "[move_forward] position=%d, battery=%d%%\n"
                    [(SimpleRobot.position st + 1)%Z; (SimpleRobot.battery st - 1)%Z];
                  Example.Printf "[collect_data] collected=%d, battery=%d%%\n"
                    [(SimpleRobot.data_collected st + 1)%Z;
                     (SimpleRobot.battery st - 3)%Z];
                  Example.Printf "\n=== Result ===\n" [];
                  Example.Printf "Status: %d (0=SUCCESS, 1=FAILURE, 2=RUNNING)\n"
                    [0%Z];
                  Example.Printf "Final state: position=%d, battery=%d%%, data=%d\n"
                    [(SimpleRobot.position st + 1)%Z; (SimpleRobot.battery st - 3)%Z;
                     (SimpleRobot.data_collected st + 1)%Z]])
      else Some (st,
                 [Example.Printf "=== Simple Robot Example ===\n" [];
                  Example.Printf "[check_battery] battery=%d%%\n"
                    [SimpleRobot.battery st];
                  Example.Printf "\n=== Result ===\n" [];
                  Example.Printf "Status: %d (0=SUCCESS, 1=FAILURE, 2=RUNNING)\n"
                    [1%Z];
                  Example.Printf "Final state: position=%d, battery=%d%%, data=%d\n"
                    [SimpleRobot.position st; SimpleRobot.battery st;
                     SimpleRobot.data_collected st]]).
Proof.
  intros Hb Hp Hd Hp1 Hd1 Hfuel; unfold SimpleRobot.main.
  rewrite (bind_done _ _ _ _ _ (robot_build st)).
  erewrite bind_done by (apply printf_done; reflexivity).
  cbn [heap world trace app].
  destruct (robot_step fuel
              (mk_machine SimpleRobot.tree
                 (Some (st, [Example.Printf "=== Simple Robot Example ===\n" []])) [])
              st [Example.Printf "=== Simple Robot Example ===\n" []])
    as (r & m1 & Hrun & _ & _ & Hres);
    [apply heap_frame_refl | exact robot_tree_calm | reflexivity
    | assumption .. |].
  rewrite (bind_done _ _ _ _ _ Hrun).
  destruct (20 <? SimpleRobot.battery st)%Z;
    injection Hres; intros Hw1 ->; cbn [app] in Hw1;
    erewrite bind_done by (apply printf_done; exact Hw1);
    erewrite bind_done by (apply printf_done; reflexivity);
    unfold bind at 1; cbn [heap world trace];
    erewrite printf_done by reflexivity;
    eexists; split; reflexivity.
Qed.


(** ** [examples/state_machine.c] *)

Lemma fsm_callbacks_keep_nodes :
  callbacks_keep_nodes StateMachine.tick_code StateMachine.hook_code.
Proof.
  split; [| reflexivity].
  intros f a h w; unfold StateMachine.tick_code.
  destruct f as [| [| [| [| [| [| f]]]]]];
    unfold StateMachine.is_idle, StateMachine.is_running, StateMachine.is_error,
      StateMachine.state_is, StateMachine.idle_action,
      StateMachine.running_action, StateMachine.error_action; cbn [fst snd];
    try reflexivity;
    destruct (Example.deref_blackboard _ _ _ _) as [[ctx out] |];
    cbn [fst snd]; try reflexivity;
    repeat match goal with
           | |- context [Example.int_add ?x ?y] => destruct (Example.int_add x y)
           | |- context [(?x <=? ?y)%Z] => destruct (x <=? y)%Z
           end; reflexivity.
Defined.

Lemma fsm_callbacks_read_static :
  callbacks_read_static StateMachine.tick_code StateMachine.hook_code.
Proof.
  split; [| reflexivity].
  intros f a h h' w Hf; unfold StateMachine.tick_code.
  destruct f as [| [| [| [| [| [| f]]]]]];
    unfold StateMachine.is_idle, StateMachine.is_running, StateMachine.is_error,
      StateMachine.state_is, StateMachine.idle_action,
      StateMachine.running_action, StateMachine.error_action; cbn [fst snd];
    rewrite ?(deref_blackboard_frame StateMachine.ctx_loc h h' a w Hf);
    try (split; reflexivity);
    destruct (Example.deref_blackboard _ _ _ _) as [[ctx out] |];
    cbn [fst snd]; try (split; reflexivity);
    repeat match goal with
           | |- context [Example.int_add ?x ?y] => destruct (Example.int_add x y)
           | |- context [(?x <=? ?y)%Z] => destruct (x <=? y)%Z
           end; split; reflexivity.
Defined.

Lemma fsm_callbacks_never_running :
  callbacks_never_running StateMachine.tick_code.
Proof.
  intros f a h w; unfold StateMachine.tick_code.
  destruct f as [| [| [| [| [| [| f]]]]]];
    unfold StateMachine.is_idle, StateMachine.is_running, StateMachine.is_error,
      StateMachine.state_is, StateMachine.idle_action,
      StateMachine.running_action, StateMachine.error_action; cbn [fst snd];
    try discriminate;
    destruct (Example.deref_blackboard _ _ _ _) as [[ctx out] |];
    cbn [fst snd]; try discriminate;
    repeat match goal with
           | |- context [Example.int_add ?x ?y] => destruct (Example.int_add x y)
           | |- context [(?x <=? ?y)%Z] => destruct (x <=? y)%Z
           | |- context [StateMachine.state ?c] => destruct (StateMachine.state c)
           end; discriminate.
Defined.

Lemma fsm_tree_nodes :
  (StateMachine.tree !! StateMachine.idle_check
   = Some (StateMachine.leaf_record BT_CONDITION StateMachine.fn_is_idle) /\
   StateMachine.tree !! StateMachine.idle_act
   = Some (StateMachine.leaf_record BT_ACTION StateMachine.fn_idle_action) /\
   StateMachine.tree !! StateMachine.idle_seq
   = Some (StateMachine.branch_record BT_SEQUENCE StateMachine.idle_children)) /\
  (StateMachine.tree !! StateMachine.run_check
   = Some (StateMachine.leaf_record BT_CONDITION StateMachine.fn_is_running) /\
   StateMachine.tree !! StateMachine.run_act
   = Some (StateMachine.leaf_record BT_ACTION StateMachine.fn_running_action) /\
   StateMachine.tree !! StateMachine.run_seq
   = Some (StateMachine.branch_record BT_SEQUENCE StateMachine.run_children)) /\
  (StateMachine.tree !! StateMachine.err_check
   = Some (StateMachine.leaf_record BT_CONDITION StateMachine.fn_is_error) /\
   StateMachine.tree !! StateMachine.err_act
   = Some (StateMachine.leaf_record BT_ACTION StateMachine.fn_error_action) /\
   StateMachine.tree !! StateMachine.err_seq
   = Some (StateMachine.branch_record BT_SEQUENCE StateMachine.err_children)) /\
  StateMachine.tree !! StateMachine.root
  = Some (StateMachine.branch_record BT_SELECTOR StateMachine.root_children).
Proof. repeat split; vm_compute; reflexivity. Qed.

Lemma fsm_tree_ok : tree_ok StateMachine.rk StateMachine.tree.
Proof. apply tree_okb_sound; vm_compute; reflexivity. Defined.

Lemma fsm_tree_calm : no_node_running StateMachine.tree.
Proof. apply no_node_runningb_sound; vm_compute; reflexivity. Defined.

Lemma fsm_is_idle ctx out :
  StateMachine.tick_code StateMachine.fn_is_idle StateMachine.idle_check
    (StateMachine.tree, Some (ctx, out))
  = ((match StateMachine.state ctx with
      | StateMachine.STATE_IDLE => BT_SUCCESS
      | _ => BT_FAILURE
      end),
     (StateMachine.tree, Some (ctx, out))).
Proof.
  destruct fsm_tree_nodes as ((H & _) & _).
  unfold StateMachine.tick_code, StateMachine.fn_is_idle, StateMachine.is_idle,
    StateMachine.state_is; cbn [fst snd].
  rewrite (deref_blackboard_at StateMachine.ctx_loc StateMachine.tree
             StateMachine.idle_check _ (Some (ctx, out)) H eq_refl).
  reflexivity.
Qed.

Lemma fsm_is_running ctx out :
  StateMachine.tick_code StateMachine.fn_is_running StateMachine.run_check
    (StateMachine.tree, Some (ctx, out))
  = ((match StateMachine.state ctx with
      | StateMachine.STATE_RUNNING => BT_SUCCESS
      | _ => BT_FAILURE
      end),
     (StateMachine.tree, Some (ctx, out))).
Proof.
  destruct fsm_tree_nodes as (_ & (H & _) & _).
  unfold StateMachine.tick_code, StateMachine.fn_is_running,
    StateMachine.is_running, StateMachine.state_is; cbn [fst snd].
  rewrite (deref_blackboard_at StateMachine.ctx_loc StateMachine.tree
             StateMachine.run_check _ (Some (ctx, out)) H eq_refl).
  reflexivity.
Qed.

Lemma fsm_is_error ctx out :
  StateMachine.tick_code StateMachine.fn_is_error StateMachine.err_check
    (StateMachine.tree, Some (ctx, out))
  = ((match StateMachine.state ctx with
      | StateMachine.STATE_ERROR => BT_SUCCESS
      | _ => BT_FAILURE
      end),
     (StateMachine.tree, Some (ctx, out))).
Proof.
  destruct fsm_tree_nodes as (_ & _ & (H & _) & _).
  unfold StateMachine.tick_code, StateMachine.fn_is_error,
    StateMachine.is_error, StateMachine.state_is; cbn [fst snd].
  rewrite (deref_blackboard_at StateMachine.ctx_loc StateMachine.tree
             StateMachine.err_check _ (Some (ctx, out)) H eq_refl).
  reflexivity.
Qed.

Lemma fsm_idle_action ctx out :
  Example.is_int (StateMachine.counter ctx + 1) ->
  StateMachine.tick_code StateMachine.fn_idle_action StateMachine.idle_act
    (StateMachine.tree, Some (ctx, out))
  = (BT_SUCCESS,
     (StateMachine.tree,
      Some (if (3 <=? StateMachine.counter ctx + 1)%Z
            then (StateMachine.mk_context StateMachine.STATE_RUNNING
                    (StateMachine.counter ctx + 1),
                  (out ++ [Example.Printf "[IDLE] waiting...\n" []])
                    ++ [Example.Printf "[IDLE] transitioning to RUNNING\n" []])
            else (StateMachine.mk_context (StateMachine.state ctx)
                    (StateMachine.counter ctx + 1),
                  out ++ [Example.Printf "[IDLE] waiting...\n" []])))).
Proof.
  intros Hc; destruct fsm_tree_nodes as ((_ & H & _) & _).
  unfold StateMachine.tick_code, StateMachine.fn_idle_action,
    StateMachine.idle_action; cbn [fst snd].
  rewrite (deref_blackboard_at StateMachine.ctx_loc StateMachine.tree
             StateMachine.idle_act _ (Some (ctx, out)) H eq_refl).
  rewrite (int_add_ok _ 1 Hc).
  destruct (3 <=? StateMachine.counter ctx + 1)%Z; reflexivity.
Qed.

Lemma fsm_running_action ctx out :
  Example.is_int (StateMachine.counter ctx + 1) ->
  StateMachine.tick_code StateMachine.fn_running_action StateMachine.run_act
    (StateMachine.tree, Some (ctx, out))
  = (BT_SUCCESS,
     (StateMachine.tree,
      Some (if (6 <=? StateMachine.counter ctx + 1)%Z
            then (StateMachine.mk_context StateMachine.STATE_IDLE 0,
                  (out ++ [Example.Printf "[RUNNING] processing...\n" []])
                    ++ [Example.Printf "[RUNNING] done, back to IDLE\n" []])
            else (StateMachine.mk_context (StateMachine.state ctx)
                    (StateMachine.counter ctx + 1),
                  out ++ [Example.Printf "[RUNNING] processing...\n" []])))).
Proof.
  intros Hc; destruct fsm_tree_nodes as (_ & (_ & H & _) & _).
  unfold StateMachine.tick_code, StateMachine.fn_running_action,
    StateMachine.running_action; cbn [fst snd].
  rewrite (deref_blackboard_at StateMachine.ctx_loc StateMachine.tree
             StateMachine.run_act _ (Some (ctx, out)) H eq_refl).
  rewrite (int_add_ok _ 1 Hc).
  destruct (6 <=? StateMachine.counter ctx + 1)%Z; reflexivity.
Qed.

Lemma fsm_error_action ctx out :
  StateMachine.tick_code StateMachine.fn_error_action StateMachine.err_act
    (StateMachine.tree, Some (ctx, out))
  = (BT_SUCCESS,
     (StateMachine.tree,
      Some (StateMachine.mk_context StateMachine.STATE_IDLE 0,
            out ++ [Example.Printf "[ERROR] recovering...\n" []]))).
Proof.
  destruct fsm_tree_nodes as (_ & _ & (_ & H & _) & _).
  unfold StateMachine.tick_code, StateMachine.fn_error_action,
    StateMachine.error_action; cbn [fst snd].
  rewrite (deref_blackboard_at StateMachine.ctx_loc StateMachine.tree
             StateMachine.err_act _ (Some (ctx, out)) H eq_refl).
  reflexivity.
Qed.

Lemma fsm_value f ctx out :
  Example.is_int (StateMachine.counter ctx) ->
  (StateMachine.counter ctx < Example.INT_MAX)%Z ->
  tree_value StateMachine.tick_code StateMachine.hook_code StateMachine.tree
    (S (S (S f))) StateMachine.root (Some (ctx, out))
  = (BT_SUCCESS, Some (StateMachine.step ctx, out ++ StateMachine.report ctx)).
Proof.
  intros Hc Hc1.
  assert (Hc2 : Example.is_int (StateMachine.counter ctx + 1))
    by (unfold Example.is_int, Example.INT_MIN, Example.INT_MAX in *; lia).
  destruct fsm_tree_nodes
    as ((Hic & Hia & His) & (Hrc & Hra & Hrs) & (Hec & Hea & Hes) & Hroot).
  rewrite (tree_value_composite _ _ _ _ _ _ BT_FAILURE _ Hroot)
    by (try reflexivity; right; split; reflexivity).
  change (N.to_nat (children_count
            (StateMachine.branch_record BT_SELECTOR StateMachine.root_children)))
    with 3.
  rewrite (value_scan_step _ _ _ _ _ _ StateMachine.idle_seq) by reflexivity.
  rewrite (tree_value_two_leaves _ _ _ _ _ _ _ _ _ _ _ _ _
             His eq_refl eq_refl eq_refl eq_refl eq_refl eq_refl
             Hic (or_intror eq_refl) eq_refl Hia (or_introl eq_refl) eq_refl).
  rewrite !fsm_is_idle; cbn [fst snd].
  destruct ctx as [s c]; cbn [StateMachine.state StateMachine.counter] in *.
  destruct s; cbn [StateMachine.state].
  - rewrite (decide_True (P := BT_SUCCESS = BT_SUCCESS)) by reflexivity.
    rewrite !fsm_idle_action by exact Hc2; cbn [fst snd].
    rewrite (decide_False (P := BT_SUCCESS = BT_FAILURE)) by discriminate.
    unfold StateMachine.step, StateMachine.report;
      cbn [StateMachine.state StateMachine.counter].
    destruct (3 <=? c + 1)%Z; [rewrite <- app_assoc |]; reflexivity.
  - rewrite (decide_False (P := BT_FAILURE = BT_SUCCESS)) by discriminate.
    cbn [fst snd].
    rewrite (decide_True (P := BT_FAILURE = BT_FAILURE)) by reflexivity.
    change (0 + 1)%N with 1%N.
    rewrite (value_scan_step _ _ _ _ _ _ StateMachine.run_seq) by reflexivity.
    rewrite (tree_value_two_leaves _ _ _ _ _ _ _ _ _ _ _ _ _
               Hrs eq_refl eq_refl eq_refl eq_refl eq_refl eq_refl
               Hrc (or_intror eq_refl) eq_refl Hra (or_introl eq_refl) eq_refl).
    rewrite !fsm_is_running; cbn [fst snd StateMachine.state].
    rewrite (decide_True (P := BT_SUCCESS = BT_SUCCESS)) by reflexivity.
    rewrite !fsm_running_action by exact Hc2; cbn [fst snd].
    rewrite (decide_False (P := BT_SUCCESS = BT_FAILURE)) by discriminate.
    unfold StateMachine.step, StateMachine.report;
      cbn [StateMachine.state StateMachine.counter].
    destruct (6 <=? c + 1)%Z; [rewrite <- app_assoc |]; reflexivity.
  - rewrite (decide_False (P := BT_FAILURE = BT_SUCCESS)) by discriminate.
    cbn [fst snd].
    rewrite (decide_True (P := BT_FAILURE = BT_FAILURE)) by reflexivity.
    change (0 + 1)%N with 1%N.
    rewrite (value_scan_step _ _ _ _ _ _ StateMachine.run_seq) by reflexivity.
    rewrite (tree_value_two_leaves _ _ _ _ _ _ _ _ _ _ _ _ _
               Hrs eq_refl eq_refl eq_refl eq_refl eq_refl eq_refl
               Hrc (or_intror eq_refl) eq_refl Hra (or_introl eq_refl) eq_refl).
    rewrite !fsm_is_running; cbn [fst snd StateMachine.state].
    rewrite (decide_False (P := BT_FAILURE = BT_SUCCESS)) by discriminate.
    cbn [fst snd].
    rewrite (decide_True (P := BT_FAILURE = BT_FAILURE)) by reflexivity.
    change (1 + 1)%N with 2%N.
    rewrite (value_scan_step _ _ _ _ _ _ StateMachine.err_seq) by reflexivity.
    rewrite (tree_value_two_leaves _ _ _ _ _ _ _ _ _ _ _ _ _
               Hes eq_refl eq_refl eq_refl eq_refl eq_refl eq_refl
               Hec (or_intror eq_refl) eq_refl Hea (or_introl eq_refl) eq_refl).
    rewrite !fsm_is_error; cbn [fst snd StateMachine.state].
    rewrite (decide_True (P := BT_SUCCESS = BT_SUCCESS)) by reflexivity.
    rewrite !fsm_error_action; cbn [fst snd].
    rewrite (decide_False (P := BT_SUCCESS = BT_FAILURE)) by discriminate.
    reflexivity.
Qed.

Lemma fsm_step fuel (m : machine StateMachine.user_state) ctx out :
  heap_frame StateMachine.tree (heap m) -> no_node_running (heap m) ->
  world m = Some (ctx, out) ->
  Example.is_int (StateMachine.counter ctx) ->
  (StateMachine.counter ctx < Example.INT_MAX)%Z ->
  StateMachine.rk StateMachine.root < fuel ->
  exists m',
    bt_tick StateMachine.tick_code StateMachine.hook_code fuel
      (Some StateMachine.root) m = Done BT_SUCCESS m' /\
    world m' = Some (StateMachine.step ctx, out ++ StateMachine.report ctx) /\
    heap_frame StateMachine.tree (heap m') /\ no_node_running (heap m').
Proof.
  intros Hfr Hcalm Hw Hc Hc1 Hfuel.
  destruct (bt_tick_value StateMachine.tick_code StateMachine.hook_code
              StateMachine.rk fsm_callbacks_keep_nodes
              fsm_callbacks_read_static fsm_callbacks_never_running
              StateMachine.tree fuel StateMachine.root m)
    as (r & m' & Hrun & (Hfr' & _) & Hval & _ & Hcalm').
  - exact (tree_ok_frame _ _ _ Hfr fsm_tree_ok).
  - exact Hcalm.
  - exact Hfr.
  - eapply heap_frame_is_Some; [exact Hfr |].
    rewrite (proj2 (proj2 (proj2 fsm_tree_nodes))); eauto.
  - exact Hfuel.
  - unfold StateMachine.rk, StateMachine.root in Hfuel.
    destruct fuel as [| [| [| fuel]]]; [lia | lia | lia |].
    rewrite Hw, (fsm_value fuel ctx out Hc Hc1) in Hval.
    injection Hval; intros Hw' ->.
    exists m'; split; [exact Hrun |]; split; [exact Hw' |].
    split; [eapply heap_frame_trans; eassumption | exact Hcalm'].
Qed.

(** X13.  [state_machine.c]: one tick of the root makes exactly one
    transition of the state machine.  Whatever state the context is in,
    the tick returns Success, the context is the successor [step] reads
    off the actions (idle until the counter reaches 3, running until it
    reaches 6, error back to idle), and the output gained the lines of
    that one action.  The successor is never the error state, the counter
    went up by one or back to 0, and the state changes only out of the
    error state or at the thresholds 3 and 6. *)
Theorem state_machine_tick fuel (m : machine StateMachine.user_state) ctx out :
  heap_frame StateMachine.tree (heap m) -> no_node_running (heap m) ->
  world m = Some (ctx, out) ->
  Example.is_int (StateMachine.counter ctx) ->
  (StateMachine.counter ctx < Example.INT_MAX)%Z ->
  StateMachine.rk StateMachine.root < fuel ->
  exists m',
    bt_tick StateMachine.tick_code StateMachine.hook_code fuel
      (Some StateMachine.root) m = Done BT_SUCCESS m' /\
    world m' = Some (StateMachine.step ctx, out ++ StateMachine.report ctx) /\
    StateMachine.state (StateMachine.step ctx) <> StateMachine.STATE_ERROR /\
    (StateMachine.counter (StateMachine.step ctx) = (StateMachine.counter ctx + 1)%Z \/
     StateMachine.counter (StateMachine.step ctx) = 0%Z) /\
    (StateMachine.state (StateMachine.step ctx) <> StateMachine.state ctx ->
     StateMachine.state ctx = StateMachine.STATE_ERROR \/
     StateMachine.state ctx = StateMachine.STATE_IDLE /\
     (3 <= StateMachine.counter ctx + 1)%Z \/
     StateMachine.state ctx = StateMachine.STATE_RUNNING /\
     (6 <= StateMachine.counter ctx + 1)%Z) /\
    heap_frame StateMachine.tree (heap m') /\ no_node_running (heap m').
Proof.
  intros Hfr Hcalm Hw Hc Hc1 Hfuel.
  destruct (fsm_step fuel m ctx out Hfr Hcalm Hw Hc Hc1 Hfuel)
    as (m' & Hrun & Hw' & Hfr' & Hcalm').
  exists m'; split; [exact Hrun |]; split; [exact Hw' |].
  assert (Hstep :
    StateMachine.state (StateMachine.step ctx) <> StateMachine.STATE_ERROR /\
    (StateMachine.counter (StateMachine.step ctx) = (StateMachine.counter ctx + 1)%Z \/
     StateMachine.counter (StateMachine.step ctx) = 0%Z) /\
    (StateMachine.state (StateMachine.step ctx) <> StateMachine.state ctx ->
     StateMachine.state ctx = StateMachine.STATE_ERROR \/
     StateMachine.state ctx = StateMachine.STATE_IDLE /\
     (3 <= StateMachine.counter ctx + 1)%Z \/
     StateMachine.state ctx = StateMachine.STATE_RUNNING /\
     (6 <= StateMachine.counter ctx + 1)%Z)).
  { destruct ctx as [s c]; unfold StateMachine.step;
      cbn [StateMachine.state StateMachine.counter].
    destruct s.
    - destruct (3 <=? c + 1)%Z eqn:H3;
        cbn [StateMachine.state StateMachine.counter];
        (split; [discriminate |]); (split; [auto |]).
      + apply Z.leb_le in H3; auto.
      + intros H; contradiction.
    - destruct (6 <=? c + 1)%Z eqn:H6;
        cbn [StateMachine.state StateMachine.counter];
        (split; [discriminate |]); (split; [auto |]).
      + apply Z.leb_le in H6; auto.
      + intros H; contradiction.
    - cbn [StateMachine.state StateMachine.counter].
      split; [discriminate |]; split; auto. }
  destruct Hstep as (H1 & H2 & H3); auto 10.
Qed.

Lemma step_phase j : StateMachine.step (StateMachine.phase j) = StateMachine.phase (S j).
Proof.
  unfold StateMachine.phase.
  replace (S j) with (j + 1) by lia.
  rewrite (Nat.Div0.add_mod j 1 6).
  pose proof (Nat.mod_upper_bound j 6 ltac:(lia)) as Hq.
  destruct (j mod 6) as [| [| [| [| [| [| q]]]]]]; try lia; reflexivity.
Qed.

Lemma tick_loop_unfold fuel k bound i :
  StateMachine.tick_loop fuel k bound i
  = if (i <? bound)%Z then
      match k with
      | O => fun _ => OutOfFuel
      | S k' =>
          Example.printf "\n[tick %d]\n" [i] ;;
          bt_tick StateMachine.tick_code StateMachine.hook_code fuel
            (Some StateMachine.root) ;;
          StateMachine.tick_loop fuel k' bound (i + 1)
      end
    else ret tt.
Proof. destruct k; reflexivity. Qed.

Lemma fsm_build ctx :
  StateMachine.build (StateMachine.boot ctx)
  = Done tt (mk_machine StateMachine.tree (Some (ctx, [])) []).
Proof. vm_compute; reflexivity. Qed.

Lemma tick_loop_runs fuel k :
  forall j bound i (m : machine StateMachine.user_state) out,
    heap_frame StateMachine.tree (heap m) -> no_node_running (heap m) ->
    world m = Some (StateMachine.phase j, out) ->
    (i <= bound)%Z -> (bound - i <= Z.of_nat k)%Z ->
    StateMachine.rk StateMachine.root < fuel ->
    exists m' out',
      StateMachine.tick_loop fuel k bound i m = Done tt m' /\
      world m' = Some (StateMachine.phase (j + Z.to_nat (bound - i)), out') /\
      heap_frame StateMachine.tree (heap m') /\ no_node_running (heap m').
Proof.
  induction k as [| k IH]; intros j bound i m out Hfr Hcalm Hw Hle Hk Hfuel;
    rewrite tick_loop_unfold.
  - assert (Hi : (i <? bound)%Z = false) by (apply Z.ltb_ge; lia).
    rewrite Hi; exists m, out.
    replace (Z.to_nat (bound - i)) with 0 by lia; rewrite Nat.add_0_r.
    auto.
  - destruct (i <? bound)%Z eqn:Hi.
    + apply Z.ltb_lt in Hi.
      rewrite (bind_done _ _ _ _ _ (printf_done _ _ m _ _ Hw)).
      destruct (fsm_step fuel
                  (mk_machine (heap m)
                     (Some (StateMachine.phase j,
                            out ++ [Example.Printf "\n[tick %d]\n" [i]]))
                     (trace m))
                  (StateMachine.phase j)
                  (out ++ [Example.Printf "\n[tick %d]\n" [i]]))
        as (m1 & Hrun & Hw1 & Hfr1 & Hcalm1);
        [exact Hfr | exact Hcalm | reflexivity | | | exact Hfuel |].
      * pose proof (Nat.mod_upper_bound j 6 ltac:(lia)).
        unfold Example.is_int, Example.INT_MIN, Example.INT_MAX, StateMachine.phase;
          cbn [StateMachine.counter]; lia.
      * pose proof (Nat.mod_upper_bound j 6 ltac:(lia)).
        unfold Example.INT_MAX, StateMachine.phase; cbn [StateMachine.counter]; lia.
      * rewrite (bind_done _ _ _ _ _ Hrun).
        rewrite step_phase in Hw1.
        destruct (IH (S j) bound (i + 1)%Z m1 _ Hfr1 Hcalm1 Hw1)
          as (m' & out' & Hloop & Hw' & Hfr' & Hcalm'); [lia | lia | exact Hfuel |].
        exists m', out'; split; [exact Hloop |].
        split; [| auto].
        rewrite Hw'; do 3 f_equal; lia.
    + apply Z.ltb_ge in Hi; exists m, out.
      replace (Z.to_nat (bound - i)) with 0 by lia; rewrite Nat.add_0_r.
      auto.
Qed.

(** X14.  [state_machine.c]: the loop of [main], and [main].  Started in
    the context reached after [j] ticks from [{STATE_IDLE, 0}], the loop
    runs to its bound, every tick of it returns, no behaviour is
    undefined, and it ends in the context reached after [j + (bound - i)]
    ticks: the machine idles for three ticks, runs for three ticks, and
    starts over, so the counter never leaves 0..5 and [STATE_ERROR] is
    never entered.  [main] returns 0 after its ten ticks, ten phases
    further. *)
Theorem state_machine_cycles fuel :
  StateMachine.rk StateMachine.root < fuel ->
  (forall k j bound i (m : machine StateMachine.user_state) out,
     heap_frame StateMachine.tree (heap m) -> no_node_running (heap m) ->
     world m = Some (StateMachine.phase j, out) ->
     (i <= bound)%Z -> (bound - i <= Z.of_nat k)%Z ->
     exists m' out',
       StateMachine.tick_loop fuel k bound i m = Done tt m' /\
       world m' = Some (StateMachine.phase (j + Z.to_nat (bound - i)), out') /\
       heap_frame StateMachine.tree (heap m') /\ no_node_running (heap m')) /\
  (forall j,
     exists m' out',
       StateMachine.main fuel (StateMachine.boot (StateMachine.phase j))
       = Done 0%Z m' /\
       world m' = Some (StateMachine.phase (j + 10), out')).
Proof.
  intros Hfuel; split.
  - intros k j bound i m out Hfr Hcalm Hw Hle Hk.
    exact (tick_loop_runs fuel k j bound i m out Hfr Hcalm Hw Hle Hk Hfuel).
  - intros j; unfold StateMachine.main.
    rewrite (bind_done _ _ _ _ _ (fsm_build (StateMachine.phase j))).
    erewrite bind_done by (apply printf_done; reflexivity).
    cbn [heap world trace app].
    destruct (tick_loop_runs fuel 10 j 10%Z 0%Z
                (mk_machine StateMachine.tree
                   (Some (StateMachine.phase j,
                          [Example.Printf "=== State Machine Example ===\n" []])) [])
                [Example.Printf "=== State Machine Example ===\n" []])
      as (m' & out' & Hloop & Hw' & _);
      [apply heap_frame_refl | exact fsm_tree_calm | reflexivity | lia | lia
      | exact Hfuel |].
    rewrite (bind_done _ _ _ _ _ Hloop).
    exists m', out'; split; [reflexivity | exact Hw'].
Qed.

(** ** The properties on concrete stores *)

(** The leaf 1 of the test trees, with hooks installed on it. *)
Lemma leaf_tick_exact_witness :
  bt_tick Demo.tick_code Demo.hook_code 20 (Some 1) Sample.hooked_leaf
  = Done (fst (Demo.tick_code Demo.cb_true 1
                 (heap Sample.hooked_leaf, world Sample.hooked_leaf)))
      (mk_machine
         (<[1 := set_status (Demo.node 1 Sample.hooked_leaf)
                   (fst (Demo.tick_code Demo.cb_true 1
                           (heap Sample.hooked_leaf, world Sample.hooked_leaf)))]>
            (heap Sample.hooked_leaf))
         (snd (snd (Demo.tick_code Demo.cb_true 1
                      (heap Sample.hooked_leaf, world Sample.hooked_leaf))))
         (trace Sample.hooked_leaf
            ++ [EvLeaf 1 (fst (Demo.tick_code Demo.cb_true 1
                                 (heap Sample.hooked_leaf, world Sample.hooked_leaf)))])).
Proof.
  apply (leaf_tick_exact Demo.tick_code Demo.hook_code demo_callbacks_keep_nodes
           20 1 (Demo.node 1 Sample.hooked_leaf) Demo.cb_true Sample.hooked_leaf).
  - vm_compute; reflexivity.
  - right; vm_compute; reflexivity.
  - vm_compute; reflexivity.
  - lia.
Defined.

(** The Action without a callback. *)
Lemma node_without_code_ticks_to_error_witness :
  bt_tick Demo.tick_code Demo.hook_code 20 (Some 5) Sample.odd_nodes
  = Done BT_ERROR
      (mk_machine
         (<[5 := set_status (Demo.node 5 Sample.odd_nodes) BT_ERROR]>
            (heap Sample.odd_nodes))
         (world Sample.odd_nodes) (trace Sample.odd_nodes)).
Proof.
  apply (node_without_code_ticks_to_error Demo.tick_code Demo.hook_code
           20 5 (Demo.node 5 Sample.odd_nodes) Sample.odd_nodes).
  - vm_compute; reflexivity.
  - lia.
  - left; split; [left |]; vm_compute; reflexivity.
Defined.

(** The Sequence of scenario A: two children in an array of two cells. *)
Lemma bt_child_at_bounds_witness :
  (forall i, (children_count (Demo.node 10%nat Demo.start) <= i)%N ->
     bt_child_at (Some 10) i Demo.start = Done None Demo.start) /\
  (children (Demo.node 10 Demo.start) = None ->
   forall i, bt_child_at (Some 10) i Demo.start = Done None Demo.start) /\
  (forall i r m',
     bt_child_at (Some 10) i Demo.start = Done r m' ->
     m' = Demo.start /\ r = child_ref (Demo.node 10 Demo.start) i) /\
  (forall arr, children (Demo.node 10 Demo.start) = Some arr ->
     (forall i, exists r, bt_child_at (Some 10) i Demo.start = Done r Demo.start) <->
     N.to_nat (children_count (Demo.node 10 Demo.start)) <= length arr).
Proof.
  apply (bt_child_at_bounds 10 (Demo.node 10 Demo.start) Demo.start).
  vm_compute; reflexivity.
Defined.

(** The Sequence of scenario A, built over the leaves. *)
Lemma bt_init_keeps_tree_ok_witness :
  exists m',
    bt_init (Some 10) BT_SEQUENCE None (Some [Some 1; Some 2]) 2 None Demo.leaves
    = Done tt m' /\
    tree_ok Demo.rk (heap m') /\
    (forall b, b <> 10 -> heap m' !! b = heap Demo.leaves !! b) /\
    world m' = world Demo.leaves /\ trace m' = trace Demo.leaves /\
    forall fuel, Demo.rk 10 < fuel ->
      exists r m'', bt_tick Demo.tick_code Demo.hook_code fuel (Some 10) m' = Done r m''.
Proof.
  apply (bt_init_keeps_tree_ok Demo.tick_code Demo.hook_code Demo.rk
           demo_callbacks_keep_nodes 10 BT_SEQUENCE None (Some [Some 1; Some 2])
           2 None Demo.leaves).
  - apply tree_okb_sound; vm_compute; reflexivity.
  - vm_compute; reflexivity.
  - intros arr Harr; injection Harr; intros <-; split; [cbn; lia |].
    intros [| [| i]] c Hi Hc; cbn in Hi, Hc; try lia;
      injection Hc; intros <-; split;
      solve [unfold Demo.rk; lia | vm_compute; eauto].
Defined.

Lemma BT_INIT_keeps_tree_ok_witness :
  exists m' n',
    BT_INIT (Some 10) BT_SEQUENCE None [Some 1; Some 2] None Demo.leaves
    = Done tt m' /\
    heap m' !! 10 = Some n' /\ tree_ok Demo.rk (heap m') /\
    children_count n' = u16 (N.of_nat (length [Some 1; Some 2])) /\
    ((N.of_nat (length [Some 1; Some 2]) < UINT16_MOD)%N ->
     children_count n' = N.of_nat (length [Some 1; Some 2]) /\
     forall i, i < length [Some 1; Some 2] ->
       Some (child_ref n' (N.of_nat i)) = [Some 1; Some 2] !! i).
Proof.
  apply (BT_INIT_keeps_tree_ok Demo.rk 10 BT_SEQUENCE None [Some 1; Some 2]
           None Demo.leaves).
  - apply tree_okb_sound; vm_compute; reflexivity.
  - intros c [Hc | [Hc | []]]; injection Hc; intros <-; split;
      solve [unfold Demo.rk; lia | vm_compute; eauto].
Defined.

(** Three ticks of the Sequence of scenario A. *)
Lemma ticks_never_get_stuck_witness :
  exists rs m',
    ticks_of Demo.tick_code Demo.hook_code 20 10 Demo.start rs m' /\
    length rs = 3 /\
    tree_ok Demo.rk (heap m') /\ heap_frame (heap Demo.start) (heap m') /\
    (forall b, ~ descendant (heap Demo.start) 10 b ->
       heap m' !! b = heap Demo.start !! b) /\
    (cursors_ok (heap Demo.start) -> cursors_ok (heap m')).
Proof.
  apply (ticks_never_get_stuck Demo.tick_code Demo.hook_code Demo.rk
           demo_callbacks_keep_nodes 20 10 3 Demo.start).
  - apply tree_okb_sound; vm_compute; reflexivity.
  - vm_compute; eauto.
  - vm_compute; lia.
Defined.

(** The Selector of scenario B, which succeeds at its first tick. *)
Lemma terminal_result_restarts_witness :
  exists r2 m2 l cur,
    bt_tick Demo.tick_code Demo.hook_code 20 (Some 11) (Demo.after 11 Demo.start)
    = Done r2 m2 /\
    trace m2
    = trace (Demo.after 11 Demo.start)
        ++ enter_events 11 (Demo.node 11 Demo.start) true
        ++ l ++ exit_events 11 (Demo.node 11 Demo.start) r2 /\
    scan_trace Demo.rk BT_FAILURE 11 (Demo.node 11 Demo.start) 0 l r2 cur /\
    (forall c, child_ref (Demo.node 11 Demo.start) 0 = Some c ->
       (0 < children_count (Demo.node 11%nat Demo.start))%N ->
       exists rest, l = EvChild 11 0 :: rest).
Proof.
  apply (terminal_result_restarts Demo.tick_code Demo.hook_code Demo.rk
           demo_callbacks_keep_nodes 20 11 (Demo.node 11 Demo.start) Demo.start
           BT_FAILURE BT_SUCCESS (Demo.after 11 Demo.start)).
  - apply tree_okb_sound; vm_compute; reflexivity.
  - vm_compute; reflexivity.
  - right; split; vm_compute; reflexivity.
  - vm_compute; lia.
  - vm_compute; reflexivity.
  - discriminate.
Defined.

(** The first tick of the Sequence of scenario A. *)
Lemma composite_child_results_witness :
  exists r m' d n',
    bt_tick Demo.tick_code Demo.hook_code 20 (Some 10) Demo.start = Done r m' /\
    trace m' = trace Demo.start ++ d /\ heap m' !! 10 = Some n' /\
    (first_slot (Demo.node 10%nat Demo.start) <= current_child n')%N /\
    (r = BT_SUCCESS ->
       rets_of 10 d
       = (fun j => (j, BT_SUCCESS))
           <$> slot_range (first_slot (Demo.node 10 Demo.start)) (current_child n') /\
       (children_count (Demo.node 10%nat Demo.start) <= current_child n')%N) /\
    (r <> BT_SUCCESS ->
       (current_child n' < children_count (Demo.node 10%nat Demo.start))%N /\
       (rets_of 10 d
        = ((fun j => (j, BT_SUCCESS))
             <$> slot_range (first_slot (Demo.node 10 Demo.start)) (current_child n'))
            ++ [(current_child n', r)] /\
        is_Some (child_ref (Demo.node 10 Demo.start) (current_child n')) \/
        rets_of 10 d
        = (fun j => (j, BT_SUCCESS))
            <$> slot_range (first_slot (Demo.node 10 Demo.start)) (current_child n') /\
        r = BT_ERROR /\
        child_ref (Demo.node 10 Demo.start) (current_child n') = None)).
Proof.
  apply (composite_child_results Demo.tick_code Demo.hook_code Demo.rk
           demo_callbacks_keep_nodes 20 10 (Demo.node 10 Demo.start) Demo.start
           BT_SUCCESS).
  - apply tree_okb_sound; vm_compute; reflexivity.
  - vm_compute; reflexivity.
  - left; split; vm_compute; reflexivity.
  - vm_compute; lia.
Defined.

(** Inverter 20 over Inverter 12 over the leaf that always succeeds. *)
Lemma double_inversion_witness :
  exists r m' d n',
    bt_tick Demo.tick_code Demo.hook_code 30 (Some 20) Sample.stacked = Done r m' /\
    trace m' = trace Sample.stacked ++ d /\
    In (EvRet 12 0 r) d /\ In (EvRet 20 0 (invert r)) d /\
    heap m' !! 20 = Some n' /\ status n' = r.
Proof.
  apply (double_inversion Demo.tick_code Demo.hook_code Demo.rk
           demo_callbacks_keep_nodes 30 20 (Demo.node 20 Sample.stacked)
           12 (Demo.node 12 Sample.stacked) 1 Sample.stacked).
  - apply tree_okb_sound; vm_compute; reflexivity.
  - vm_compute; reflexivity.
  - vm_compute; reflexivity.
  - vm_compute; reflexivity.
  - vm_compute; reflexivity.
  - vm_compute; reflexivity.
  - vm_compute; reflexivity.
  - vm_compute; reflexivity.
  - vm_compute; reflexivity.
  - vm_compute; lia.
Defined.

(** The robot of [simple_robot.c] as [main] ticks it. *)
Lemma reactive_tick_witness :
  exists r m',
    bt_tick SimpleRobot.tick_code SimpleRobot.hook_code 5
      (Some SimpleRobot.root_node) (SimpleRobot.ready SimpleRobot.initial_state)
    = Done r m' /\
    (r, world m')
    = tree_value SimpleRobot.tick_code SimpleRobot.hook_code SimpleRobot.tree 5
        SimpleRobot.root_node (world (SimpleRobot.ready SimpleRobot.initial_state)) /\
    r <> BT_RUNNING /\ no_node_running (heap m') /\
    tree_ok SimpleRobot.rk (heap m') /\ heap_frame SimpleRobot.tree (heap m').
Proof.
  apply (reactive_tick SimpleRobot.tick_code SimpleRobot.hook_code SimpleRobot.rk
           robot_callbacks_keep_nodes robot_callbacks_read_static
           robot_callbacks_never_running SimpleRobot.tree 5
           SimpleRobot.root_node (SimpleRobot.ready SimpleRobot.initial_state)).
  - apply tree_okb_sound; vm_compute; reflexivity.
  - apply no_node_runningb_sound; vm_compute; reflexivity.
  - apply heap_frame_refl.
  - vm_compute; eauto.
  - vm_compute; lia.
Defined.

(** [main] of [simple_robot.c]: the tick from [{100, 0, 0}]. *)
Lemma robot_tick_witness :
  exists r m',
    bt_tick SimpleRobot.tick_code SimpleRobot.hook_code 5
      (Some SimpleRobot.root_node) (SimpleRobot.ready SimpleRobot.initial_state)
    = Done r m' /\
    heap_frame SimpleRobot.tree (heap m') /\ no_node_running (heap m') /\
    ((20 < SimpleRobot.battery SimpleRobot.initial_state)%Z ->
     r = BT_SUCCESS /\
     world m'
     = Some (SimpleRobot.mk_robot
               (SimpleRobot.battery SimpleRobot.initial_state - 3)
               (SimpleRobot.position SimpleRobot.initial_state + 1)
               (SimpleRobot.data_collected SimpleRobot.initial_state + 1),
             [] ++
             [Example.Printf "[check_battery] battery=%d%%\n"
                [SimpleRobot.battery SimpleRobot.initial_state];
              Example.Printf "[move_forward] position=%d, battery=%d%%\n"
                [(SimpleRobot.position SimpleRobot.initial_state + 1)%Z;
                 (SimpleRobot.battery SimpleRobot.initial_state - 1)%Z];
              Example.Printf "[collect_data] collected=%d, battery=%d%%\n"
                [(SimpleRobot.data_collected SimpleRobot.initial_state + 1)%Z;
                 (SimpleRobot.battery SimpleRobot.initial_state - 3)%Z]])) /\
    ((SimpleRobot.battery SimpleRobot.initial_state <= 20)%Z ->
     r = BT_FAILURE /\
     world m'
     = Some (SimpleRobot.initial_state,
             [] ++ [Example.Printf "[check_battery] battery=%d%%\n"
                      [SimpleRobot.battery SimpleRobot.initial_state]])).
Proof.
  apply (robot_tick 5 (SimpleRobot.ready SimpleRobot.initial_state)
           SimpleRobot.initial_state []).
  - apply heap_frame_refl.
  - apply no_node_runningb_sound; vm_compute; reflexivity.
  - vm_compute; reflexivity.
  - vm_compute; split; discriminate.
  - vm_compute; split; discriminate.
  - vm_compute; split; discriminate.
  - vm_compute; reflexivity.
  - vm_compute; reflexivity.
  - vm_compute; lia.
Defined.


(** [main] of [state_machine.c]: the first tick. *)
Lemma state_machine_tick_witness :
  exists m',
    bt_tick StateMachine.tick_code StateMachine.hook_code 11
      (Some StateMachine.root) (StateMachine.ready StateMachine.initial_context)
    = Done BT_SUCCESS m' /\
    world m'
    = Some (StateMachine.step StateMachine.initial_context,
            [] ++ StateMachine.report StateMachine.initial_context) /\
    StateMachine.state (StateMachine.step StateMachine.initial_context)
    <> StateMachine.STATE_ERROR /\
    (StateMachine.counter (StateMachine.step StateMachine.initial_context)
     = (StateMachine.counter StateMachine.initial_context + 1)%Z \/
     StateMachine.counter (StateMachine.step StateMachine.initial_context) = 0%Z) /\
    (StateMachine.state (StateMachine.step StateMachine.initial_context)
     <> StateMachine.state StateMachine.initial_context ->
     StateMachine.state StateMachine.initial_context = StateMachine.STATE_ERROR \/
     StateMachine.state StateMachine.initial_context = StateMachine.STATE_IDLE /\
     (3 <= StateMachine.counter StateMachine.initial_context + 1)%Z \/
     StateMachine.state StateMachine.initial_context = StateMachine.STATE_RUNNING /\
     (6 <= StateMachine.counter StateMachine.initial_context + 1)%Z) /\
    heap_frame StateMachine.tree (heap m') /\ no_node_running (heap m').
Proof.
  apply (state_machine_tick 11 (StateMachine.ready StateMachine.initial_context)
           StateMachine.initial_context []).
  - apply heap_frame_refl.
  - apply no_node_runningb_sound; vm_compute; reflexivity.
  - vm_compute; reflexivity.
  - vm_compute; split; discriminate.
  - vm_compute; reflexivity.
  - vm_compute; lia.
Defined.

(** [main] of [state_machine.c] with its eleven nodes: fuel 11. *)
Lemma state_machine_cycles_witness :
  (forall k j bound i (m : machine StateMachine.user_state) out,
     heap_frame StateMachine.tree (heap m) -> no_node_running (heap m) ->
     world m = Some (StateMachine.phase j, out) ->
     (i <= bound)%Z -> (bound - i <= Z.of_nat k)%Z ->
     exists m' out',
       StateMachine.tick_loop 11 k bound i m = Done tt m' /\
       world m' = Some (StateMachine.phase (j + Z.to_nat (bound - i)), out') /\
       heap_frame StateMachine.tree (heap m') /\ no_node_running (heap m')) /\
  (forall j,
     exists m' out',
       StateMachine.main 11 (StateMachine.boot (StateMachine.phase j))
       = Done 0%Z m' /\
       world m' = Some (StateMachine.phase (j + 10), out')).
Proof.
  apply (state_machine_cycles 11).
  vm_compute; lia.
Defined.

(** [main] of [simple_robot.c], from [{100, 0, 0}]. *)
Lemma robot_main_witness :
  exists m',
    SimpleRobot.main 5 (SimpleRobot.boot SimpleRobot.initial_state)
    = Done (if (20 <? SimpleRobot.battery SimpleRobot.initial_state)%Z
            then 0%Z else 1%Z) m' /\
    world m'
    = if (20 <? SimpleRobot.battery SimpleRobot.initial_state)%Z
      then Some (SimpleRobot.mk_robot
                   (SimpleRobot.battery SimpleRobot.initial_state - 3)
                   (SimpleRobot.position SimpleRobot.initial_state + 1)
                   (SimpleRobot.data_collected SimpleRobot.initial_state + 1),
                 [Example.Printf "=== Simple Robot Example ===\n" [];
                  Example.Printf "[check_battery] battery=%d%%\n"
                    [SimpleRobot.battery SimpleRobot.initial_state];
                  Example.Printf "[move_forward] position=%d, battery=%d%%\n"
                    [(SimpleRobot.position SimpleRobot.initial_state + 1)%Z;
                     (SimpleRobot.battery SimpleRobot.initial_state - 1)%Z];
                  Example.Printf "[collect_data] collected=%d, battery=%d%%\n"
                    [(SimpleRobot.data_collected SimpleRobot.initial_state + 1)%Z;
                     (SimpleRobot.battery SimpleRobot.initial_state - 3)%Z];
                  Example.Printf "\n=== Result ===\n" [];
                  Example.Printf "Status: %d (0=SUCCESS, 1=FAILURE, 2=RUNNING)\n"
                    [0%Z];
                  Example.Printf "Final state: position=%d, battery=%d%%, data=%d\n"
                    [(SimpleRobot.position SimpleRobot.initial_state + 1)%Z;
                     (SimpleRobot.battery SimpleRobot.initial_state - 3)%Z;
                     (SimpleRobot.data_collected SimpleRobot.initial_state + 1)%Z]])
      else Some (SimpleRobot.initial_state,
                 [Example.Printf "=== Simple Robot Example ===\n" [];
                  Example.Printf "[check_battery] battery=%d%%\n"
                    [SimpleRobot.battery SimpleRobot.initial_state];
                  Example.Printf "\n=== Result ===\n" [];
                  Example.Printf "Status: %d (0=SUCCESS, 1=FAILURE, 2=RUNNING)\n"
                    [1%Z];
                  Example.Printf "Final state: position=%d, battery=%d%%, data=%d\n"
                    [SimpleRobot.position SimpleRobot.initial_state;
                     SimpleRobot.battery SimpleRobot.initial_state;
                     SimpleRobot.data_collected SimpleRobot.initial_state]]).
Proof.
  apply (robot_main 5 SimpleRobot.initial_state).
  - vm_compute; split; discriminate.
  - vm_compute; split; discriminate.
  - vm_compute; split; discriminate.
  - vm_compute; reflexivity.
  - vm_compute; reflexivity.
  - vm_compute; lia.
Defined.

(** The Sequence of scenario A, whose first tick is Running. *)
Lemma stored_status_after_tick_witness :
  exists r m' n',
    bt_tick Demo.tick_code Demo.hook_code 20 (Some 10) Demo.start = Done r m' /\
    heap m' !! 10 = Some n' /\
    ((type (Demo.node 10 Demo.start) = BT_INVERTER ->
      has_one_child (Demo.node 10 Demo.start)) -> status n' = r) /\
    (type (Demo.node 10 Demo.start) = BT_INVERTER ->
     ~ has_one_child (Demo.node 10 Demo.start) -> r = BT_ERROR /\
     n' = Demo.node 10 Demo.start).
Proof.
  apply (stored_status_after_tick Demo.tick_code Demo.hook_code Demo.rk
           demo_callbacks_keep_nodes 20 10 (Demo.node 10 Demo.start) Demo.start).
  - apply tree_okb_sound; vm_compute; reflexivity.
  - vm_compute; reflexivity.
  - vm_compute; lia.
Defined.
